(** * Resilient request execution and checkpointing

    A shallow embedding of [api_client.py] (RateLimiter, CircuitBreaker,
    RequestCache, ResilientAPIClient) and [checkpoint_manager.py]
    (ExportState, CheckpointManager), with the properties the specification
    states about them.

    Conventions of the embedding.
    - Python floats and ints that carry time or token counts are rationals
      ([Q]): the arithmetic is the exact one the float code approximates.
      Counters and configuration integers are [Z].
    - [time.time()] is the [clock] of an explicit [World]; sleeping and the
      HTTP round trip move it forward.
    - A raised exception is the [Raise] case of [outcome]; [try/except] is a
      match on it.
    - A file is either a complete JSON document or torn (empty or cut
      short); the file system is a finite map from paths to files.
    - Locks are not modelled: every method runs to completion on its own. *)

From Stdlib Require Import QArith Qminmax Qpower Lqa ZArith Lia String Ascii.
From stdpp Require Import base gmap strings list fin_maps pretty.

#[local] Set Warnings "-register-all".
Open Scope Z_scope.

(** ** Python values, exceptions and the outside world *)

Module Py.

(** The exceptions the two modules raise or let through. *)
Inductive exn : Type :=
| CircuitOpenError              (* Exception("Circuit breaker is OPEN") *)
| HTTPError (status_code : Z)   (* requests HTTPError, carries a response *)
| ConnectionError               (* a RequestException whose response is None *)
| ZeroDivisionError
| ValueError
| TypeError
| AttributeError
| OtherException (msg : string).

(** [RequestException] is the base class of [HTTPError] and of the
    transport errors; the breaker's own exception is a plain [Exception]. *)
Definition is_request_exception (e : exn) : bool :=
  match e with
  | HTTPError _ | ConnectionError => true
  | _ => false
  end.

Inductive outcome (A : Type) : Type :=
| Return (a : A)
| Raise (e : exn).
Arguments Return {A} a.
Arguments Raise {A} e.

(** What [json.load] yields. Objects keep the order of the document. *)
Inductive JSON : Type :=
| JNull
| JBool (b : bool)
| JInt (z : Z)
| JNum (q : Q)
| JStr (s : string)
| JArr (l : list JSON)
| JObj (kv : list (string * JSON)).

(** Python truthiness, as [if params:] uses it. *)
Definition truthy (v : JSON) : bool :=
  match v with
  | JNull => false
  | JBool b => b
  | JInt z => negb (z =? 0)
  | JNum q => negb (Qeq_bool q 0)
  | JStr s => negb (String.eqb s "")
  | JArr l => match l with [] => false | _ => true end
  | JObj kv => match kv with [] => false | _ => true end
  end.

(** [d.get(k)] on a parsed object: keys of a parsed object are unique. *)
Fixpoint obj_get (k : string) (kv : list (string * JSON)) : option JSON :=
  match kv with
  | [] => None
  | (k', v) :: rest => if String.eqb k k' then Some v else obj_get k rest
  end.

(** A file on disk: a complete JSON document, or bytes [json.load] rejects
    (the empty file [open(p, 'w')] leaves, or a document cut short). *)
Inductive file : Type :=
| Doc (v : JSON)
| Torn.

Definition json_load (f : file) : option JSON :=
  match f with Doc v => Some v | Torn => None end.

(** The primitive file-system steps the code performs, one per system-level
    effect, so that a crash can be placed between any two of them. *)
Inductive fs_op : Type :=
| OpenW (p : string)                 (* open(p, 'w'): create or truncate *)
| DumpClose (p : string) (v : JSON)  (* json.dump(v, f) and close *)
| Replace (src dst : string)         (* Path.replace: rename over dst *)
| Unlink (p : string).               (* Path.unlink(missing_ok=True) *)

Definition fs_step (o : fs_op) (d : gmap string file) : gmap string file :=
  match o with
  | OpenW p => <[p := Torn]> d
  | DumpClose p v => <[p := Doc v]> d
  | Replace src dst =>
      match d !! src with
      | Some f => <[dst := f]> (delete src d)
      | None => d
      end
  | Unlink p => delete p d
  end.

Definition fs_run (ops : list fs_op) (d : gmap string file) : gmap string file :=
  foldl (fun d o => fs_step o d) d ops.

(** The states a crash can leave behind: the file system after any prefix
    of the steps. *)
Definition crash_states (ops : list fs_op) (d : gmap string file)
  : list (gmap string file) :=
  map (fun n => fs_run (take n ops) d) (seq 0 (S (length ops))).

(** [with open(p, 'w') as f: json.dump(v, f)]. *)
Definition write_json (p : string) (v : JSON) : list fs_op :=
  [OpenW p; DumpClose p v].

(** [dir / name]. *)
Definition path_join (dir name : string) : string :=
  (dir +:+ "/" +:+ name)%string.

(** Everything outside the objects themselves. [http_calls] counts the
    invocations of [session.request], [random_calls] those of
    [random.random]. *)
Record World : Type := mkWorld {
  clock : Q;
  fs : gmap string file;
  http_calls : nat;
  random_calls : nat
}.

Definition set_clock (t : Q) (w : World) : World :=
  mkWorld t (fs w) (http_calls w) (random_calls w).

Definition set_fs (d : gmap string file) (w : World) : World :=
  mkWorld (clock w) d (http_calls w) (random_calls w).

(** [time.sleep(d)]. *)
Definition sleep (d : Q) (w : World) : World :=
  set_clock (clock w + d)%Q w.

(** [a < b] on floats. *)
Definition Qltb (a b : Q) : bool := negb (Qle_bool b a).

(** [s.upper()] on ASCII text. *)
Definition upper_ascii (c : ascii) : ascii :=
  let n := nat_of_ascii c in
  if ((97 <=? n)%nat && (n <=? 122)%nat)%bool then ascii_of_nat (n - 32) else c.

Fixpoint upper (s : string) : string :=
  match s with
  | EmptyString => EmptyString
  | String c s' => String (upper_ascii c) (upper s')
  end.

(** [s.rpartition(c)] without the separator: the text before and after
    the last [c], when there is one. *)
Fixpoint rsplit (c : ascii) (s : string) : option (string * string) :=
  match s with
  | EmptyString => None
  | String a s' =>
      match rsplit c s' with
      | Some (pre, post) => Some (String a pre, post)
      | None => if Ascii.eqb a c then Some (EmptyString, s') else None
      end
  end.

(** [Path.with_suffix(suffix)]: the last component loses its suffix (what
    follows its last dot, unless that dot is first or last in the name) and
    gets the new one. An empty name is pathlib's ValueError ([None]). *)
Definition with_suffix (p suffix : string) : option string :=
  let '(parent, name) :=
    match rsplit "/" p with
    | Some (d, n) => ((d +:+ "/")%string, n)
    | None => (EmptyString, p)
    end in
  if String.eqb name "" then None
  else
    let stem :=
      match rsplit "." name with
      | Some (pre, post) =>
          if (String.eqb pre "" || String.eqb post "")%bool then name else pre
      | None => name
      end in
    Some (parent +:+ stem +:+ suffix)%string.

End Py.
Import Py.

(** ** RateLimiter: token bucket *)

Module RateLimiter.

Record RateLimitConfig : Type := mkConfig {
  requests_per_second : Q;
  burst_size : Z;
  min_request_interval : Q
}.

Record t : Type := mk {
  config : RateLimitConfig;
  tokens : Q;
  max_tokens : Q;
  refill_rate : Q;
  last_refill : Q
}.

(** [__init__], run when the clock reads [now]. *)
Definition init (cfg : RateLimitConfig) (now : Q) : t :=
  mk cfg (inject_Z (burst_size cfg)) (inject_Z (burst_size cfg))
     (requests_per_second cfg) now.

(** [acquire(tokens)], called when the clock reads [now]: the wait to
    observe, and the limiter afterwards. The refill is stored before the
    test, so it is kept on every path, the raising one included. *)
Definition acquire (now : Q) (n : Z) (rl : t) : outcome Q * t :=
  let time_elapsed := (now - last_refill rl)%Q in
  let tokens_to_add := (time_elapsed * refill_rate rl)%Q in
  let tokens1 := Qmin (max_tokens rl) (tokens rl + tokens_to_add)%Q in
  let rl1 := mk (config rl) tokens1 (max_tokens rl) (refill_rate rl) now in
  if Qle_bool (inject_Z n) tokens1 then
    (Return 0%Q,
     mk (config rl) (tokens1 - inject_Z n)%Q (max_tokens rl) (refill_rate rl) now)
  else
    let tokens_needed := (inject_Z n - tokens1)%Q in
    if Qeq_bool (refill_rate rl) 0 then (Raise ZeroDivisionError, rl1)
    else
      let wait_time := (tokens_needed / refill_rate rl)%Q in
      (Return (Qmax wait_time (min_request_interval (config rl))), rl1).

(** A run of [acquire] calls, each given as the clock reading at the call
    and the number of tokens asked for; the result lists the limiter as it
    can be observed after each call. *)
Fixpoint acquire_all (calls : list (Q * Z)) (rl : t) : list t :=
  match calls with
  | [] => []
  | (now, n) :: rest =>
      let rl' := snd (acquire now n rl) in
      rl' :: acquire_all rest rl'
  end.

(** The clock readings of a run never go back, starting from [t0]. *)
Fixpoint clock_monotone (t0 : Q) (calls : list (Q * Z)) : Prop :=
  match calls with
  | [] => True
  | (now, _) :: rest => (t0 <= now)%Q /\ clock_monotone now rest
  end.

Definition bounded (rl : t) : Prop :=
  (0 <= tokens rl)%Q /\ (tokens rl <= max_tokens rl)%Q.

(** What one [acquire] needs of the limiter it starts from, and keeps. *)
Definition rl_inv (rl : t) : Prop :=
  bounded rl /\ (0 <= refill_rate rl)%Q.

(** The same run, seen from the caller: what each call returns or raises. *)
Fixpoint acquire_results (calls : list (Q * Z)) (rl : t) : list (outcome Q) :=
  match calls with
  | [] => []
  | (now, n) :: rest =>
      fst (acquire now n rl) :: acquire_results rest (snd (acquire now n rl))
  end.

End RateLimiter.

(** ** CircuitBreaker *)

Module CircuitBreaker.

Inductive State : Type := CLOSED | OPEN | HALF_OPEN.

Record CircuitBreakerConfig : Type := mkConfig {
  failure_threshold : Z;
  recovery_timeout : Q
}.

Record t : Type := mk {
  config : CircuitBreakerConfig;
  failure_count : Z;
  last_failure_time : option Q;
  state : State
}.

Definition init (cfg : CircuitBreakerConfig) : t := mk cfg 0 None CLOSED.

Definition set_state (s : State) (cb : t) : t :=
  mk (config cb) (failure_count cb) (last_failure_time cb) s.

(** [self.last_failure_time and time.time() - self.last_failure_time >=
    recovery_timeout], read as a condition: [None] and [0.0] are falsy. *)
Definition _should_attempt_reset (now : Q) (cb : t) : bool :=
  match last_failure_time cb with
  | None => false
  | Some t0 =>
      negb (Qeq_bool t0 0)
      && Qle_bool (recovery_timeout (config cb)) (now - t0)%Q
  end.

Definition _on_success (cb : t) : t :=
  mk (config cb) 0 (last_failure_time cb) CLOSED.

Definition _on_failure (now : Q) (cb : t) : t :=
  let count := failure_count cb + 1 in
  mk (config cb) count (Some now)
     (if failure_threshold (config cb) <=? count then OPEN else state cb).

(** [call(func)]. The wrapped function acts on the world and either
    returns or raises; [_on_failure] reads the clock after it has run. *)
Definition call {R : Type} (func : World -> outcome R * World)
    (cb : t) (w : World) : outcome R * t * World :=
  let passed :=
    match state cb with
    | OPEN =>
        if _should_attempt_reset (clock w) cb
        then Some (set_state HALF_OPEN cb)
        else None
    | _ => Some cb
    end in
  match passed with
  | None => (Raise CircuitOpenError, cb, w)
  | Some cb1 =>
      let '(r, w') := func w in
      match r with
      | Return a => (Return a, _on_success cb1, w')
      | Raise e => (Raise e, _on_failure (clock w') cb1, w')
      end
  end.

(** A run of protected calls, one after the other, time passing only
    inside the wrapped functions. *)
Fixpoint call_all {R : Type} (funcs : list (World -> outcome R * World))
    (cb : t) (w : World) : t * World :=
  match funcs with
  | [] => (cb, w)
  | f :: rest =>
      let '(_, cb', w') := call f cb w in
      call_all rest cb' w'
  end.

(** A wrapped function that raises whatever the world it runs in. *)
Definition always_fails {R : Type} (f : World -> outcome R * World) : Prop :=
  forall w, exists e w', f w = (Raise e, w').

(** What holds of a breaker at every point: the threshold is positive, the
    count is not negative, and the breaker is closed exactly while the
    count is below the threshold. *)
Definition settled (cb : t) : Prop :=
  0 < failure_threshold (config cb)
  /\ 0 <= failure_count cb
  /\ (state cb = CLOSED <-> failure_count cb < failure_threshold (config cb)).

End CircuitBreaker.

(** ** RequestCache: index in memory and on disk, one payload file per key *)

Module RequestCache.

(** One value of [cache_index]: [{'timestamp', 'url', 'method'}]. *)
Record entry : Type := mkEntry {
  timestamp : Q;
  url : string;
  method : string
}.

Record t : Type := mk {
  cache_dir : string;
  ttl : Z;
  max_size : Z;
  cache_index : gmap string entry
}.

Definition set_index (idx : gmap string entry) (c : t) : t :=
  mk (cache_dir c) (ttl c) (max_size c) idx.

Definition entry_json (e : entry) : JSON :=
  JObj [("timestamp", JNum (timestamp e)); ("url", JStr (url e));
        ("method", JStr (method e))]%string.

(** What [json.dump(self.cache_index, f)] writes. *)
Definition index_json (idx : gmap string entry) : JSON :=
  JObj (map (fun ke => (fst ke, entry_json (snd ke))) (map_to_list idx)).

Definition index_file (c : t) : string :=
  path_join (cache_dir c) "index.json".

Definition payload_file (c : t) (cache_key : string) : string :=
  path_join (cache_dir c) (cache_key +:+ ".json")%string.

(** [_save_index]: the index file is opened for writing in place and the
    index dumped into it. *)
Definition _save_index_ops (c : t) : list fs_op :=
  write_json (index_file c) (index_json (cache_index c)).

Definition _save_index (c : t) (d : gmap string file) : gmap string file :=
  fs_run (_save_index_ops c) d.

(** [min(keys, key=timestamp)]: the first key, in the order the index is
    walked, whose timestamp no other undercuts. (A Python dict is walked in
    insertion order, the finite map in its own; they can differ only in
    which of several equally old entries is named.) *)
Definition older (a b : string * entry) : string * entry :=
  if Qltb (timestamp (snd b)) (timestamp (snd a)) then b else a.

Definition oldest_key (idx : gmap string entry) : option string :=
  match map_to_list idx with
  | [] => None
  | x :: rest => Some (fst (foldl older x rest))
  end.

(** Reading back what [index_json] writes: one entry, and the object of
    all entries. *)
Definition entry_of_json (v : JSON) : option entry :=
  match v with
  | JObj kv =>
      match obj_get "timestamp" kv, obj_get "url" kv, obj_get "method" kv with
      | Some (JNum ts), Some (JStr u), Some (JStr m) => Some (mkEntry ts u m)
      | _, _, _ => None
      end
  | _ => None
  end.

Definition index_of_json (v : JSON) : option (gmap string entry) :=
  match v with
  | JObj kv =>
      list_to_map <$> mapM (fun ke => pair (fst ke) <$> entry_of_json (snd ke)) kv
  | _ => None
  end.

(** [_load_index]: the parsed index file; the empty index when the file is
    missing or [json.load] fails on it. The index being typed, a document
    that is not an object of entries is read as the empty index too (Python
    would return it as it is); [_save_index] writes no such document. *)
Definition _load_index (dir : string) (d : gmap string file)
  : gmap string entry :=
  match d !! path_join dir "index.json" with
  | Some (Doc v) => default ∅ (index_of_json v)
  | _ => ∅
  end.

(** [__init__]: the index is whatever is on disk. *)
Definition init (dir : string) (ttl max_size : Z) (d : gmap string file) : t :=
  mk dir ttl max_size (_load_index dir d).

Section WithHash.

(** [hashlib.md5(s.encode()).hexdigest()] and
    [json.dumps(params, sort_keys=True)], taken as given. *)
Variable md5_hexdigest : string -> string.
Variable json_dumps_sorted : JSON -> string.

Definition _get_cache_key (method url : string) (params : JSON) : string :=
  let cache_data := (method +:+ ":" +:+ url)%string in
  md5_hexdigest
    (if truthy params
     then (cache_data +:+ ":" +:+ json_dumps_sorted params)%string
     else cache_data).

(** The text [_get_cache_key] hashes: [cache_data] as it stands when the
    digest is taken. *)
Definition cache_data (method url : string) (params : JSON) : string :=
  let cache_data := (method +:+ ":" +:+ url)%string in
  if truthy params
  then (cache_data +:+ ":" +:+ json_dumps_sorted params)%string
  else cache_data.

(** The tail of [get], reached for an expired entry and for a live entry
    whose payload file is missing or unreadable: the index entry goes and
    the index is saved. *)
Definition drop_entry (cache_key : string) (c : t) (d : gmap string file)
  : t * gmap string file :=
  let c' := set_index (delete cache_key (cache_index c)) c in
  (c', _save_index c' d).

(** [get(method, url, params)] at clock reading [now]. The result is a
    Python value: [JNull] is [None], the absent answer. *)
Definition get (now : Q) (method url : string) (params : JSON)
    (c : t) (d : gmap string file) : JSON * t * gmap string file :=
  let cache_key := _get_cache_key method url params in
  match cache_index c !! cache_key with
  | Some e =>
      if Qltb (now - timestamp e)%Q (inject_Z (ttl c)) then
        match d !! payload_file c cache_key with
        | Some (Doc v) => (v, c, d)
        | _ => let '(c', d') := drop_entry cache_key c d in (JNull, c', d')
        end
      else let '(c', d') := drop_entry cache_key c d in (JNull, c', d')
  | None => (JNull, c, d)
  end.

(** [set(method, url, response, params)] at clock reading [now]. [min] of
    an empty index raises ValueError before anything is changed. *)
Definition set (now : Q) (method url : string) (response params : JSON)
    (c : t) (d : gmap string file) : outcome unit * t * gmap string file :=
  let cache_key := _get_cache_key method url params in
  let evicted :=
    if max_size c <=? Z.of_nat (size (cache_index c)) then
      match oldest_key (cache_index c) with
      | None => None
      | Some oldest =>
          Some (delete oldest (cache_index c),
                fs_run [Unlink (payload_file c oldest)] d)
      end
    else Some (cache_index c, d) in
  match evicted with
  | None => (Raise ValueError, c, d)
  | Some (idx1, d1) =>
      let d2 := fs_run (write_json (payload_file c cache_key) response) d1 in
      let c' := set_index (<[cache_key := mkEntry now url method]> idx1) c in
      (Return tt, c', _save_index c' d2)
  end.

End WithHash.

End RequestCache.

(** ** ResilientAPIClient: cache, rate limit, retry loop around the breaker *)

Module ResilientAPIClient.

Record RetryConfig : Type := mkRetry {
  max_retries : Z;
  initial_delay : Q;
  max_delay : Q;
  exponential_base : Q;
  jitter : bool;
  retry_on_status_codes : list Z
}.

Record CacheConfig : Type := mkCache {
  enabled : bool;
  ttl : Z;
  max_size : Z;
  cache_dir : string
}.

Record ExporterConfig : Type := mkExporterConfig {
  retry : RetryConfig;
  rate_limit : RateLimiter.RateLimitConfig;
  circuit_breaker_config : CircuitBreaker.CircuitBreakerConfig;
  cache_config : CacheConfig
}.

(** A [requests.Response]: the status, and the body when it parses as JSON
    ([response.json()] raises otherwise). *)
Record Response : Type := mkResponse {
  status_code : Z;
  json_body : option JSON
}.

(** [response.ok]: [raise_for_status()] would not raise, which it does for
    the statuses from 400 to 599. *)
Definition ok (r : Response) : bool :=
  negb ((400 <=? status_code r) && (status_code r <? 600)).

(** What one [session.request] comes back with. *)
Inductive HttpResult : Type :=
| Responded (r : Response)
| Failed.                     (* connection error or timeout *)

Record t : Type := mk {
  config : ExporterConfig;
  rate_limiter : RateLimiter.t;
  circuit_breaker : CircuitBreaker.t;
  cache : option RequestCache.t
}.

Definition set_rate_limiter (rl : RateLimiter.t) (cl : t) : t :=
  mk (config cl) rl (circuit_breaker cl) (cache cl).

Definition set_circuit_breaker (cb : CircuitBreaker.t) (cl : t) : t :=
  mk (config cl) (rate_limiter cl) cb (cache cl).

Definition set_cache (c : RequestCache.t) (cl : t) : t :=
  mk (config cl) (rate_limiter cl) (circuit_breaker cl) (Some c).

Section WithEnvironment.

Variable md5_hexdigest : string -> string.
Variable json_dumps_sorted : JSON -> string.
(** The remote side and the random source, by call number: what the k-th
    [session.request] comes back with, how long it takes, and what the
    k-th [random.random()] draws. *)
Variable server : nat -> HttpResult.
Variable latency : nat -> Q.
Variable random : nat -> Q.

(** Every [session.request] from call number [k0] on is answered with an
    error status of the retryable set. *)
Definition fails_retryably (cfg : RetryConfig) (k0 : nat) : Prop :=
  forall k : nat, (k0 <= k)%nat ->
    exists r : Response,
      server k = Responded r
      /\ 400 <= status_code r < 600
      /\ status_code r ∈ retry_on_status_codes cfg.

(** [__init__] when the clock reads [now], the cache index being whatever
    [_load_index] found. *)
Definition init (cfg : ExporterConfig) (now : Q)
    (loaded_index : gmap string RequestCache.entry) : t :=
  mk cfg (RateLimiter.init (rate_limit cfg) now)
     (CircuitBreaker.init (circuit_breaker_config cfg))
     (if enabled (cache_config cfg)
      then Some (RequestCache.mk (cache_dir (cache_config cfg))
                   (ttl (cache_config cfg)) (max_size (cache_config cfg))
                   loaded_index)
      else None).

(** [_calculate_backoff(attempt)]. The power is exact; a float power
    beyond the range of a float (OverflowError) is outside the model. *)
Definition _calculate_backoff (cfg : RetryConfig) (attempt : Z) (w : World)
  : Q * World :=
  let delay :=
    Qmin (initial_delay cfg * exponential_base cfg ^ attempt)%Q (max_delay cfg) in
  if jitter cfg then
    let r := random (random_calls w) in
    let jit := (delay * (1 # 4) * (2 * r - 1))%Q in
    (Qmax 0 (delay + jit)%Q,
     mkWorld (clock w) (fs w) (http_calls w) (S (random_calls w)))
  else (Qmax 0 delay, w).

(** [_make_request]: one [session.request], then [raise_for_status]. *)
Definition _make_request (w : World) : outcome Response * World :=
  let k := http_calls w in
  let w' := mkWorld (clock w + latency k)%Q (fs w) (S k) (random_calls w) in
  match server k with
  | Failed => (Raise ConnectionError, w')
  | Responded r =>
      if (400 <=? status_code r) && (status_code r <? 600)
      then (Raise (HTTPError (status_code r)), w')
      else (Return r, w')
  end.

(** [use_cache and self.cache and method.upper() == "GET"]. *)
Definition cache_applies (use_cache : bool) (method : string) (cl : t)
  : option RequestCache.t :=
  if use_cache && String.eqb (upper method) "GET" then cache cl else None.

(** The guarded [self.cache.set(...)] after a successful response: any
    exception inside is swallowed. *)
Definition store_response (use_cache : bool) (method url : string)
    (params : JSON) (response : Response) (cl : t) (w : World) : t * World :=
  match cache_applies use_cache method cl, ok response, json_body response with
  | Some c, true, Some body =>
      let '(_, c', d') :=
        RequestCache.set md5_hexdigest json_dumps_sorted (clock w) method url
          body params c (fs w) in
      (set_cache c' cl, set_fs d' w)
  | _, _, _ => (cl, w)
  end.

(** The attempt loop, [remaining] iterations from [attempt] on. Leaving the
    loop without a return or a raise ends in [raise last_exception], or in
    falling off the end of the function ([None]) when there is none. *)
Fixpoint attempt_loop (remaining : nat) (attempt : Z) (last_exception : option exn)
    (use_cache : bool) (method url : string) (params : JSON)
    (cl : t) (w : World) : outcome (option Response) * t * World :=
  match remaining with
  | O =>
      match last_exception with
      | Some e => (Raise e, cl, w)
      | None => (Return None, cl, w)
      end
  | S remaining' =>
      let '(r, cb', w1) :=
        CircuitBreaker.call _make_request (circuit_breaker cl) w in
      let cl1 := set_circuit_breaker cb' cl in
      match r with
      | Return response =>
          let '(cl2, w2) :=
            store_response use_cache method url params response cl1 w1 in
          (Return (Some response), cl2, w2)
      | Raise e =>
          if is_request_exception e then
            if attempt <? max_retries (retry (config cl)) then
              let not_retryable :=
                match e with
                | HTTPError s =>
                    negb (bool_decide (s ∈ retry_on_status_codes (retry (config cl))))
                | _ => false
                end in
              if not_retryable then (Raise e, cl1, w1)
              else
                let '(backoff, w2) :=
                  _calculate_backoff (retry (config cl)) attempt w1 in
                attempt_loop remaining' (attempt + 1) (Some e)
                  use_cache method url params cl1 (sleep backoff w2)
            else (Raise e, cl1, w1)
          else (Raise e, cl1, w1)
      end
  end.

(** The cache check that opens [request]: the cached body, or [None]
    when the cache does not apply or has no live entry. *)
Definition lookup_cache (method url : string) (use_cache : bool) (params : JSON)
    (cl : t) (w : World) : JSON * t * World :=
  match cache_applies use_cache method cl with
  | Some c =>
      let '(v, c', d') :=
        RequestCache.get md5_hexdigest json_dumps_sorted (clock w) method url
          params c (fs w) in
      (v, set_cache c' cl, set_fs d' w)
  | None => (JNull, cl, w)
  end.

(** [request(method, url, use_cache, params=...)]. *)
Definition request (method url : string) (use_cache : bool) (params : JSON)
    (cl : t) (w : World) : outcome (option Response) * t * World :=
  let '(cached_response, cl0, w0) :=
    lookup_cache method url use_cache params cl w in
  match cached_response with
  | JNull =>
      let '(wait, rl') := RateLimiter.acquire (clock w0) 1 (rate_limiter cl0) in
      let cl1 := set_rate_limiter rl' cl0 in
      match wait with
      | Raise e => (Raise e, cl1, w0)
      | Return wait_time =>
          let w1 := if Qltb 0 wait_time then sleep wait_time w0 else w0 in
          attempt_loop (Z.to_nat (max_retries (retry (config cl1)) + 1)) 0 None
            use_cache method url params cl1 w1
      end
  | v => (Return (Some (mkResponse 200 (Some v))), cl0, w0)
  end.

(** The convenience methods. [get] passes its keyword arguments on, so the
    caller may still switch the cache off; the others always do. *)
Definition get (url : string) (use_cache : bool) (params : JSON) :=
  request "GET" url use_cache params.

Definition post (url : string) (params : JSON) :=
  request "POST" url false params.

Definition put (url : string) (params : JSON) :=
  request "PUT" url false params.

Definition delete (url : string) (params : JSON) :=
  request "DELETE" url false params.

End WithEnvironment.

End ResilientAPIClient.

(** ** ExportState: the checkpoint record and its JSON form *)

Module ExportState.

(** The dataclass, with the types its annotations give the fields. *)
Record t : Type := mk {
  export_id : string;
  label : string;
  export_date : string;
  started_at : string;
  last_updated : string;
  profile : string;
  confluence_spaces_completed : list string;
  confluence_pages_exported : gset string;
  jira_projects_completed : list string;
  jira_issues_exported : gset string;
  current_operation : option string;
  current_space_key : option string;
  current_project_key : option string;
  current_batch_start : Z;
  total_confluence_pages : Z;
  total_jira_issues : Z;
  errors_encountered : list JSON
}.

Definition field_names : list string :=
  ["export_id"; "label"; "export_date"; "started_at"; "last_updated";
   "profile"; "confluence_spaces_completed"; "confluence_pages_exported";
   "jira_projects_completed"; "jira_issues_exported"; "current_operation";
   "current_space_key"; "current_project_key"; "current_batch_start";
   "total_confluence_pages"; "total_jira_issues"; "errors_encountered"]%string.

Definition opt_str_json (o : option string) : JSON :=
  match o with Some s => JStr s | None => JNull end.

(** [to_dict]: [asdict(self)] with the two sets turned into lists. *)
Definition to_dict (st : t) : JSON :=
  JObj [("export_id", JStr (export_id st));
        ("label", JStr (label st));
        ("export_date", JStr (export_date st));
        ("started_at", JStr (started_at st));
        ("last_updated", JStr (last_updated st));
        ("profile", JStr (profile st));
        ("confluence_spaces_completed",
          JArr (JStr <$> confluence_spaces_completed st));
        ("confluence_pages_exported",
          JArr (JStr <$> elements (confluence_pages_exported st)));
        ("jira_projects_completed",
          JArr (JStr <$> jira_projects_completed st));
        ("jira_issues_exported",
          JArr (JStr <$> elements (jira_issues_exported st)));
        ("current_operation", opt_str_json (current_operation st));
        ("current_space_key", opt_str_json (current_space_key st));
        ("current_project_key", opt_str_json (current_project_key st));
        ("current_batch_start", JInt (current_batch_start st));
        ("total_confluence_pages", JInt (total_confluence_pages st));
        ("total_jira_issues", JInt (total_jira_issues st));
        ("errors_encountered", JArr (errors_encountered st))]%string.

(** Reading a JSON value at the type a field is annotated with. *)
Definition as_str (v : JSON) : option string :=
  match v with JStr s => Some s | _ => None end.

Definition as_opt_str (v : JSON) : option (option string) :=
  match v with JNull => Some None | JStr s => Some (Some s) | _ => None end.

Definition as_int (v : JSON) : option Z :=
  match v with JInt z => Some z | _ => None end.

Definition as_str_list (v : JSON) : option (list string) :=
  match v with JArr l => mapM as_str l | _ => None end.

(** [errors_encountered]: [None] becomes [[]] in [__post_init__]. *)
Definition as_errors (v : JSON) : option (list JSON) :=
  match v with JNull => Some [] | JArr l => Some l | _ => None end.

(** A keyword argument that must be there, and one with a default. *)
Definition required {A : Type} (read : JSON -> option A) (k : string)
    (kv : list (string * JSON)) : option A :=
  obj_get k kv ≫= read.

Definition defaulted {A : Type} (read : JSON -> option A) (dflt : A)
    (k : string) (kv : list (string * JSON)) : option A :=
  match obj_get k kv with
  | Some v => read v
  | None => Some dflt
  end.

(** [from_dict]: the constructor called with the document's members as
    keyword arguments, followed by [__post_init__], which turns the
    two ID lists into sets. [None] is the TypeError of a document that is
    not an object, names an unknown field or lacks a required one. The
    record being typed, a value that does not fit its field's annotation is
    refused as well (Python would store it as it is); no document written
    by [to_dict] is of that kind. *)
Definition from_dict (data : JSON) : option t :=
  match data with
  | JObj kv =>
      if forallb (fun ke => bool_decide (fst ke ∈ field_names)) kv then
        a1 ← required as_str "export_id" kv;
        a2 ← required as_str "label" kv;
        a3 ← required as_str "export_date" kv;
        a4 ← required as_str "started_at" kv;
        a5 ← required as_str "last_updated" kv;
        a6 ← required as_str "profile" kv;
        a7 ← required as_str_list "confluence_spaces_completed" kv;
        a8 ← required as_str_list "confluence_pages_exported" kv;
        a9 ← required as_str_list "jira_projects_completed" kv;
        a10 ← required as_str_list "jira_issues_exported" kv;
        a11 ← defaulted as_opt_str None "current_operation" kv;
        a12 ← defaulted as_opt_str None "current_space_key" kv;
        a13 ← defaulted as_opt_str None "current_project_key" kv;
        a14 ← defaulted as_int 0 "current_batch_start" kv;
        a15 ← defaulted as_int 0 "total_confluence_pages" kv;
        a16 ← defaulted as_int 0 "total_jira_issues" kv;
        a17 ← defaulted as_errors [] "errors_encountered" kv;
        Some (mk a1 a2 a3 a4 a5 a6 a7 (list_to_set a8) a9 (list_to_set a10)
                a11 a12 a13 a14 a15 a16 a17)
      else None
  | _ => None
  end.

(** The fields the dataclass gives no default. *)
Definition required_fields : list string :=
  ["export_id"; "label"; "export_date"; "started_at"; "last_updated";
   "profile"; "confluence_spaces_completed"; "confluence_pages_exported";
   "jira_projects_completed"; "jira_issues_exported"]%string.

(** The list a checkpoint document holds under [field]. *)
Definition serialized_ids (field : string) (data : JSON) : list JSON :=
  match data with
  | JObj kv =>
      match obj_get field kv with
      | Some (JArr l) => l
      | _ => []
      end
  | _ => []
  end.

End ExportState.

(** Field updates of the record, as the manager performs them. *)
Module ExportStateUpdate.
Import ExportState.

Definition set_last_updated (s : string) (st : t) : t :=
  mk (export_id st) (label st) (export_date st) (started_at st) s (profile st)
     (confluence_spaces_completed st) (confluence_pages_exported st)
     (jira_projects_completed st) (jira_issues_exported st)
     (current_operation st) (current_space_key st) (current_project_key st)
     (current_batch_start st) (total_confluence_pages st)
     (total_jira_issues st) (errors_encountered st).

Definition set_current_operation (o : option string) (st : t) : t :=
  mk (export_id st) (label st) (export_date st) (started_at st)
     (last_updated st) (profile st)
     (confluence_spaces_completed st) (confluence_pages_exported st)
     (jira_projects_completed st) (jira_issues_exported st)
     o (current_space_key st) (current_project_key st)
     (current_batch_start st) (total_confluence_pages st)
     (total_jira_issues st) (errors_encountered st).

(** [current_operation = 'confluence'], [current_space_key = space_key],
    [confluence_pages_exported.add(page_id)]. *)
Definition confluence_progress (space_key page_id : string) (st : t) : t :=
  mk (export_id st) (label st) (export_date st) (started_at st)
     (last_updated st) (profile st)
     (confluence_spaces_completed st)
     ({[page_id]} ∪ confluence_pages_exported st)
     (jira_projects_completed st) (jira_issues_exported st)
     (Some "confluence"%string) (Some space_key) (current_project_key st)
     (current_batch_start st) (total_confluence_pages st)
     (total_jira_issues st) (errors_encountered st).

(** [current_operation = 'jira'], [current_project_key = project_key],
    [jira_issues_exported.add(issue_key)]. *)
Definition jira_progress (project_key issue_key : string) (st : t) : t :=
  mk (export_id st) (label st) (export_date st) (started_at st)
     (last_updated st) (profile st)
     (confluence_spaces_completed st) (confluence_pages_exported st)
     (jira_projects_completed st)
     ({[issue_key]} ∪ jira_issues_exported st)
     (Some "jira"%string) (current_space_key st) (Some project_key)
     (current_batch_start st) (total_confluence_pages st)
     (total_jira_issues st) (errors_encountered st).

(** [if key not in completed: completed.append(key)]. *)
Definition append_if_absent (key : string) (l : list string) : list string :=
  if bool_decide (key ∈ l) then l else l ++ [key].

Definition confluence_space_complete (space_key : string) (st : t) : t :=
  mk (export_id st) (label st) (export_date st) (started_at st)
     (last_updated st) (profile st)
     (append_if_absent space_key (confluence_spaces_completed st))
     (confluence_pages_exported st)
     (jira_projects_completed st) (jira_issues_exported st)
     (current_operation st) (current_space_key st) (current_project_key st)
     (current_batch_start st) (total_confluence_pages st)
     (total_jira_issues st) (errors_encountered st).

Definition jira_project_complete (project_key : string) (st : t) : t :=
  mk (export_id st) (label st) (export_date st) (started_at st)
     (last_updated st) (profile st)
     (confluence_spaces_completed st) (confluence_pages_exported st)
     (append_if_absent project_key (jira_projects_completed st))
     (jira_issues_exported st)
     (current_operation st) (current_space_key st) (current_project_key st)
     (current_batch_start st) (total_confluence_pages st)
     (total_jira_issues st) (errors_encountered st).

(** [errors_encountered.append(error_entry)]. *)
Definition append_error (error_entry : JSON) (st : t) : t :=
  mk (export_id st) (label st) (export_date st) (started_at st)
     (last_updated st) (profile st)
     (confluence_spaces_completed st) (confluence_pages_exported st)
     (jira_projects_completed st) (jira_issues_exported st)
     (current_operation st) (current_space_key st) (current_project_key st)
     (current_batch_start st) (total_confluence_pages st)
     (total_jira_issues st) (errors_encountered st ++ [error_entry]).

End ExportStateUpdate.

(** ** CheckpointManager *)

Module CheckpointManager.
Import ExportStateUpdate.

Record t : Type := mk {
  checkpoint_dir : string;
  current_state : option ExportState.t;
  checkpoint_file : option string;
  save_counter : Z;
  checkpoint_interval : Z
}.

(** [__init__]: no export yet, counter at 0, interval 10. *)
Definition init (dir : string) : t := mk dir None None 0 10.

Definition set_current_state (st : option ExportState.t) (m : t) : t :=
  mk (checkpoint_dir m) st (checkpoint_file m) (save_counter m)
     (checkpoint_interval m).

Definition set_save_counter (n : Z) (m : t) : t :=
  mk (checkpoint_dir m) (current_state m) (checkpoint_file m) n
     (checkpoint_interval m).

(** The durable write of [save_checkpoint]: dump into the temporary file,
    then rename it over the checkpoint file. *)
Definition write_checkpoint_ops (tmp file : string) (st : ExportState.t)
  : list fs_op :=
  [OpenW tmp; DumpClose tmp (ExportState.to_dict st); Replace tmp file].

(** The exported items the manager holds in memory that the checkpoint
    document [saved] does not list. *)
Definition unsaved_items (st saved : ExportState.t) : nat :=
  size (ExportState.confluence_pages_exported st
        ∖ ExportState.confluence_pages_exported saved)
  + size (ExportState.jira_issues_exported st
          ∖ ExportState.jira_issues_exported saved).

(** The manager has an export whose checkpoint file holds a complete
    document, and the items not yet in it number at most the saves counted
    since the counter last was a multiple of the interval. *)
Definition loss_bounded (m : t) (w : World) : Prop :=
  exists (st saved : ExportState.t) (file tmp : string),
    current_state m = Some st
    /\ checkpoint_file m = Some file
    /\ with_suffix file ".tmp" = Some tmp
    /\ fs w !! file = Some (Doc (ExportState.to_dict saved))
    /\ Z.of_nat (unsaved_items st saved)
       <= save_counter m mod checkpoint_interval m.

Section WithClockFormat.

(** [datetime.now().isoformat()] as a function of the clock, and
    [hashlib.md5(s.encode()).hexdigest()], taken as given. *)
Variable isoformat : Q -> string.
Variable md5_hexdigest : string -> string.

(** [create_export_id]: the first 12 hex digits. *)
Definition create_export_id (label export_date : string) (w : World) : string :=
  let timestamp := isoformat (clock w) in
  let data := (label +:+ ":" +:+ export_date +:+ ":" +:+ timestamp)%string in
  String.substring 0 12 (md5_hexdigest data).

(** [save_checkpoint(force)]. The counter test comes before the [try]; the
    write is inside it, so a failure there is logged and swallowed. *)
Definition save_checkpoint (force : bool) (m : t) (w : World)
  : outcome unit * t * World :=
  match current_state m, checkpoint_file m with
  | Some st, Some file =>
      let m1 := set_save_counter (save_counter m + 1) m in
      let skip : outcome bool :=
        if force then Return false
        else if checkpoint_interval m1 =? 0 then Raise ZeroDivisionError
        else Return (negb (save_counter m1 mod checkpoint_interval m1 =? 0)) in
      match skip with
      | Raise e => (Raise e, m1, w)
      | Return true => (Return tt, m1, w)
      | Return false =>
          let st' := set_last_updated (isoformat (clock w)) st in
          let m2 := set_current_state (Some st') m1 in
          match with_suffix file ".tmp" with
          | None => (Return tt, m2, w)
          | Some tmp =>
              (Return tt, m2,
               set_fs (fs_run (write_checkpoint_ops tmp file st') (fs w)) w)
          end
      end
  | _, _ => (Return tt, m, w)
  end.

(** [start_new_export(label, export_date, profile)]. *)
Definition start_new_export (label export_date profile : string)
    (m : t) (w : World) : outcome (option ExportState.t) * t * World :=
  let export_id := create_export_id label export_date w in
  let now := isoformat (clock w) in
  let st :=
    ExportState.mk export_id label export_date now now profile
      [] ∅ [] ∅ None None None 0 0 0 [] in
  let file :=
    path_join (checkpoint_dir m) ("checkpoint_" +:+ export_id +:+ ".json")%string in
  let m1 := mk (checkpoint_dir m) (Some st) (Some file) (save_counter m)
               (checkpoint_interval m) in
  let '(r, m2, w2) := save_checkpoint false m1 w in
  match r with
  | Raise e => (Raise e, m2, w2)
  | Return _ => (Return (current_state m2), m2, w2)
  end.

(** The path [resume_export] reads: the one given if it exists, else the
    same name under the checkpoint directory. *)
Definition resolve_path (checkpoint_file : string) (m : t) (w : World) : string :=
  match fs w !! checkpoint_file with
  | Some _ => checkpoint_file
  | None => path_join (checkpoint_dir m) checkpoint_file
  end.

(** [resume_export(checkpoint_file)]: the path as given if it exists, else
    the same name under the checkpoint directory. Every failure inside is
    caught: the answer is then [None] and the manager is as it was. *)
Definition resume_export (checkpoint_file : string) (m : t) (w : World)
  : option ExportState.t * t * World :=
  let checkpoint_path := resolve_path checkpoint_file m w in
  match fs w !! checkpoint_path with
  | None => (None, m, w)
  | Some f =>
      match json_load f ≫= ExportState.from_dict with
      | None => (None, m, w)
      | Some st =>
          (Some st,
           mk (checkpoint_dir m) (Some st) (Some checkpoint_path)
              (save_counter m) (checkpoint_interval m),
           w)
      end
  end.

(** A progress operation: nothing without a current state, else the change
    to the state followed by [save_checkpoint(force)]. *)
Definition with_state (change : ExportState.t -> ExportState.t) (force : bool)
    (m : t) (w : World) : outcome unit * t * World :=
  match current_state m with
  | None => (Return tt, m, w)
  | Some st => save_checkpoint force (set_current_state (Some (change st)) m) w
  end.

Definition update_confluence_progress (space_key page_id : string) :=
  with_state (confluence_progress space_key page_id) false.

Definition mark_confluence_space_complete (space_key : string) :=
  with_state (confluence_space_complete space_key) true.

Definition update_jira_progress (project_key issue_key : string) :=
  with_state (jira_progress project_key issue_key) false.

Definition mark_jira_project_complete (project_key : string) :=
  with_state (jira_project_complete project_key) true.

(** [record_error(error_type, error_message, context)]. *)
Definition record_error (error_type error_message : string) (context : JSON)
    (m : t) (w : World) : outcome unit * t * World :=
  let error_entry :=
    JObj [("timestamp", JStr (isoformat (clock w))); ("type", JStr error_type);
          ("message", JStr error_message); ("context", context)]%string in
  with_state (append_error error_entry) true m w.

(** The membership queries: [self.current_state and key in ...], as a
    condition. *)
Definition is_confluence_page_exported (page_id : string) (m : t) : bool :=
  match current_state m with
  | Some st => bool_decide (page_id ∈ ExportState.confluence_pages_exported st)
  | None => false
  end.

Definition is_jira_issue_exported (issue_key : string) (m : t) : bool :=
  match current_state m with
  | Some st => bool_decide (issue_key ∈ ExportState.jira_issues_exported st)
  | None => false
  end.

Definition is_confluence_space_complete (space_key : string) (m : t) : bool :=
  match current_state m with
  | Some st => bool_decide (space_key ∈ ExportState.confluence_spaces_completed st)
  | None => false
  end.

Definition is_jira_project_complete (project_key : string) (m : t) : bool :=
  match current_state m with
  | Some st => bool_decide (project_key ∈ ExportState.jira_projects_completed st)
  | None => false
  end.

(** The marker [complete_export] writes next to the checkpoint. *)
Definition completion_data (st : ExportState.t) (w : World) : JSON :=
  JObj [("export_id", JStr (ExportState.export_id st));
        ("completed_at", JStr (isoformat (clock w)));
        ("total_confluence_pages",
          JInt (Z.of_nat (size (ExportState.confluence_pages_exported st))));
        ("total_jira_issues",
          JInt (Z.of_nat (size (ExportState.jira_issues_exported st))));
        ("errors_count",
          JInt (Z.of_nat (length (ExportState.errors_encountered st))))]%string.

(** [complete_export()]. The marker is written outside any [try]. *)
Definition complete_export (m : t) (w : World) : outcome unit * t * World :=
  match current_state m with
  | None => (Return tt, m, w)
  | Some st =>
      let m1 := set_current_state (Some (set_current_operation None st)) m in
      let '(r, m2, w2) := save_checkpoint true m1 w in
      match r, checkpoint_file m2, current_state m2 with
      | Raise e, _, _ => (Raise e, m2, w2)
      | Return _, None, _ => (Raise AttributeError, m2, w2)
      | Return _, Some file, None => (Raise AttributeError, m2, w2)
      | Return _, Some file, Some st2 =>
          match with_suffix file ".complete" with
          | None => (Raise ValueError, m2, w2)
          | Some completion_file =>
              (Return tt, m2,
               set_fs (fs_run (write_json completion_file (completion_data st2 w2))
                         (fs w2)) w2)
          end
      end
  end.

(** A unit of progress reported by the exporter, and a run of them. *)
Inductive progress : Type :=
| ConfluencePage (space_key page_id : string)
| JiraIssue (project_key issue_key : string).

Definition report (p : progress) (m : t) (w : World)
  : outcome unit * t * World :=
  match p with
  | ConfluencePage space_key page_id =>
      update_confluence_progress space_key page_id m w
  | JiraIssue project_key issue_key =>
      update_jira_progress project_key issue_key m w
  end.

Fixpoint report_all (ps : list progress) (m : t) (w : World) : t * World :=
  match ps with
  | [] => (m, w)
  | p :: rest =>
      let '(_, m', w') := report p m w in
      report_all rest m' w'
  end.

End WithClockFormat.

(** [data.get('last_updated', '')]. *)
Definition last_updated_of (data : list (string * JSON)) : JSON :=
  default (JStr "") (obj_get "last_updated" data).

(** The file opens, parses to an object, and [data.get('label') == label]. *)
Definition holds_label (label : string) (w : World) (checkpoint_file : string)
    (data : list (string * JSON)) : Prop :=
  fs w !! checkpoint_file = Some (Doc (JObj data))
  /\ obj_get "label" data = Some (JStr label).

(** What [find_latest_checkpoint] keeps of one file of the listing: the
    path and the document's [last_updated], if the file opens, parses to an
    object and carries the label. Anything else (a missing or unreadable
    file, a document that is not an object) is skipped by the bare
    [except]. *)
Definition checkpoint_entry (label : string) (w : World) (checkpoint_file : string)
  : option (string * JSON) :=
  match fs w !! checkpoint_file with
  | Some (Doc (JObj data)) =>
      match obj_get "label" data with
      | Some (JStr l) =>
          if String.eqb l label
          then Some (checkpoint_file, last_updated_of data)
          else None
      | _ => None
      end
  | _ => None
  end.

Definition is_str (v : JSON) : bool :=
  match v with JStr _ => true | _ => false end.

Definition str_of (v : JSON) : string :=
  match v with JStr s => s | _ => "" end.

(** [list.sort(key=..., reverse=True)] on string keys: stable, so that of
    two entries with equal keys the one listed first stays first. *)
Fixpoint insert_desc (x : string * JSON) (l : list (string * JSON))
  : list (string * JSON) :=
  match l with
  | [] => [x]
  | y :: l' =>
      if String.ltb (str_of (snd x)) (str_of (snd y))
      then y :: insert_desc x l'
      else x :: l
  end.

Definition sort_desc (l : list (string * JSON)) : list (string * JSON) :=
  foldr insert_desc [] l.

(** [find_latest_checkpoint(label)], given what
    [checkpoint_dir.glob("checkpoint_*.json")] lists, in the order it lists
    it. The outer [None] is outside this model: two or more entries whose
    [last_updated] are not all strings, where the sort compares values of
    other types. *)
Definition find_latest_checkpoint (label : string) (listing : list string)
    (w : World) : option (option string) :=
  let checkpoints := omap (checkpoint_entry label w) listing in
  match checkpoints with
  | [] => Some None
  | [c] => Some (Some (fst c))
  | _ =>
      if forallb (fun c => is_str (snd c)) checkpoints
      then Some (fst <$> head (sort_desc checkpoints))
      else None
  end.

End CheckpointManager.

(** ** Concrete inputs

    The configurations and stubs of the unit tests, and the library
    functions the model takes as given, at the arguments the worked
    examples below use. *)

Module Examples.

(** The breaker of the unit tests: threshold 3, recovery after 1 second. *)
Definition test_breaker_config : CircuitBreaker.CircuitBreakerConfig :=
  CircuitBreaker.mkConfig 3 1.

Definition fail_func (w : World) : outcome string * World :=
  (Raise (OtherException "Test failure"), w).

Definition success_func (w : World) : outcome string * World :=
  (Return "success"%string, w).

Definition quote : string := String (ascii_of_nat 34) EmptyString.

Definition join_with (sep : string) (parts : list string) : string :=
  match parts with
  | [] => EmptyString
  | x :: rest => foldl (fun acc y => (acc +:+ sep +:+ y)%string) x rest
  end.

(** Insertion of a rendered member by key, for [sort_keys=True]. *)
Fixpoint insert_member (m : string * string) (l : list (string * string))
  : list (string * string) :=
  match l with
  | [] => [m]
  | x :: rest =>
      if String.leb (fst m) (fst x) then m :: l else x :: insert_member m rest
  end.

(** [json.dumps(v, sort_keys=True)] on documents made of null, booleans,
    integers, strings that need no escape, arrays and objects; a float
    is rendered as a placeholder. *)
Fixpoint dumps_sorted (v : JSON) : string :=
  match v with
  | JNull => "null"
  | JBool true => "true"
  | JBool false => "false"
  | JInt z => pretty z
  | JNum _ => "0.0"
  | JStr s => quote +:+ s +:+ quote
  | JArr l => "[" +:+ join_with ", " (map dumps_sorted l) +:+ "]"
  | JObj kv =>
      let rendered := map (fun m => (fst m, dumps_sorted (snd m))) kv in
      let sorted := foldr insert_member [] rendered in
      "{" +:+ join_with ", "
                (map (fun m => quote +:+ fst m +:+ quote +:+ ": " +:+ snd m) sorted)
          +:+ "}"
  end%string.

Definition data_url : string := "https://api.example.com/data".

(** MD5 hex digests of the cache-key and export-id texts of the examples;
    other texts are not looked at by them. *)
Definition md5_table : list (string * string) :=
  [("GET:" +:+ data_url, "64490337f7018c4b8258c562cfd701b9");
   ("GET:" +:+ data_url +:+ ":" +:+ dumps_sorted (JObj [("page", JInt 1)]),
    "7522a089385680fbcad3b713bf1ae9ea");
   ("GET:" +:+ data_url +:+ ":" +:+ dumps_sorted (JObj [("page", JInt 2)]),
    "0127190cb0d48a339ed8734b370018ed");
   ("release:2023-11-14:2023-11-14T22:13:20",
    "1ab6a92fc91064c20ec6e8d87dba47df")]%string.

Definition md5_hexdigest (s : string) : string :=
  match list_find (fun m => String.eqb s (fst m) = true) md5_table with
  | Some (_, m) => snd m
  | None => EmptyString
  end.

(** The cache of the default configuration, empty, and the response body
    of the cache unit tests. *)
Definition default_cache : RequestCache.t :=
  RequestCache.mk ".cache/context_exporter" 300 1000 ∅.

Definition payload : JSON := JObj [("result", JStr "test")]%string.

Definition data_key : string := "64490337f7018c4b8258c562cfd701b9".

(** The "balanced" profile: the defaults of [exporter_config.py]. *)
Definition balanced : ResilientAPIClient.ExporterConfig :=
  ResilientAPIClient.mkExporterConfig
    (ResilientAPIClient.mkRetry 3 1 60 2 true [429; 500; 502; 503; 504])
    (RateLimiter.mkConfig 10 20 (1 # 10))
    (CircuitBreaker.mkConfig 5 60)
    (ResilientAPIClient.mkCache true 300 1000 ".cache/context_exporter").

(** A server that answers every request with status 500 after a tenth of
    a second, and a random source that always draws one half. *)
Definition server_500 (k : nat) : ResilientAPIClient.HttpResult :=
  ResilientAPIClient.Responded (ResilientAPIClient.mkResponse 500 None).

Definition latency_tenth (k : nat) : Q := 1 # 10.

(** The "conservative" profile. *)
Definition conservative : ResilientAPIClient.ExporterConfig :=
  ResilientAPIClient.mkExporterConfig
    (ResilientAPIClient.mkRetry 5 2 120 2 true [429; 500; 502; 503; 504])
    (RateLimiter.mkConfig 5 20 (2 # 10))
    (CircuitBreaker.mkConfig 5 60)
    (ResilientAPIClient.mkCache true 300 1000 ".cache/context_exporter").

(** A server that answers 404 to everything, and one that answers 200
    with the body of the cache tests. *)
Definition server_404 (k : nat) : ResilientAPIClient.HttpResult :=
  ResilientAPIClient.Responded (ResilientAPIClient.mkResponse 404 None).

Definition server_ok (k : nat) : ResilientAPIClient.HttpResult :=
  ResilientAPIClient.Responded (ResilientAPIClient.mkResponse 200 (Some payload)).

Definition random_half (k : nat) : Q := 1 # 2.

(** An export of label "release" started when the clock reads 1700000000
    (2023-11-14T22:13:20), on a disk with no file. *)
Definition checkpoint_dir : string := ".checkpoints".

Definition checkpoint_name : string := "checkpoint_1ab6a92fc910.json".

Definition world_at_start : World := mkWorld 1700000000 ∅ 0 0.

(** That export after page 12345 of space DOCS, and the space itself, have
    been recorded. *)
Definition exported_state : ExportState.t :=
  ExportState.mk "1ab6a92fc910" "release" "2023-11-14" "2023-11-14T22:13:20"
    "2023-11-14T22:13:20" "balanced" ["DOCS"%string] {["12345"%string]} [] ∅
    (Some "confluence"%string) (Some "DOCS"%string) None 0 0 0 [].

(** [datetime.now().isoformat()] at the clock reading of the examples
    (UTC, whole seconds). *)
Definition isoformat (now : Q) : string :=
  if Qeq_bool now 1700000000 then "2023-11-14T22:13:20" else EmptyString.

End Examples.

(** * Properties *)

(** ** Comparisons on rationals *)

Lemma Qltb_lt (a b : Q) : Qltb a b = true <-> (a < b)%Q.
Proof.
  unfold Qltb. rewrite negb_true_iff.
  destruct (Qle_bool b a) eqn:E.
  - apply Qle_bool_iff in E. split; [discriminate | intros H; lra].
  - split; [intros _ | reflexivity].
    destruct (Qlt_le_dec a b) as [H | H]; [exact H |].
    apply Qle_bool_iff in H. congruence.
Qed.

Lemma Qltb_ge (a b : Q) : Qltb a b = false <-> (b <= a)%Q.
Proof.
  unfold Qltb. rewrite negb_false_iff. apply Qle_bool_iff.
Qed.

(** ** RateLimiter *)

Section RateLimiterProperties.
Import RateLimiter.

Lemma init_inv (cfg : RateLimitConfig) (now : Q) :
  0 <= burst_size cfg -> (0 <= requests_per_second cfg)%Q ->
  rl_inv (init cfg now).
Proof.
  intros Hb Hr. unfold rl_inv, bounded, init; simpl.
  assert (0 <= inject_Z (burst_size cfg))%Q.
  { change 0%Q with (inject_Z 0). rewrite <- Zle_Qle. exact Hb. }
  repeat split; [assumption | lra | assumption].
Qed.

Lemma acquire_last_refill (now : Q) (n : Z) (rl : t) :
  last_refill (snd (acquire now n rl)) = now.
Proof.
  unfold acquire.
  destruct (Qle_bool _ _); [reflexivity |].
  destruct (Qeq_bool _ _); reflexivity.
Qed.

Lemma acquire_inv (now : Q) (n : Z) (rl : t) :
  rl_inv rl -> (last_refill rl <= now)%Q -> 0 <= n ->
  rl_inv (snd (acquire now n rl)).
Proof.
  intros [[Hlo Hhi] Hrate] Hclock Hn.
  assert (Hn' : (0 <= inject_Z n)%Q).
  { change 0%Q with (inject_Z 0). rewrite <- Zle_Qle. exact Hn. }
  assert (Hadd : (0 <= (now - last_refill rl) * refill_rate rl)%Q).
  { apply Qmult_le_0_compat; [lra | exact Hrate]. }
  set (tokens1 := Qmin (max_tokens rl)
                    (tokens rl + (now - last_refill rl) * refill_rate rl)%Q).
  assert (H1lo : (0 <= tokens1)%Q).
  { apply Q.min_glb; lra. }
  assert (H1hi : (tokens1 <= max_tokens rl)%Q).
  { apply Q.le_min_l. }
  unfold acquire. fold tokens1.
  destruct (Qle_bool (inject_Z n) tokens1) eqn:E.
  - apply Qle_bool_iff in E.
    unfold rl_inv, bounded; simpl. repeat split; [lra | lra | exact Hrate].
  - destruct (Qeq_bool (refill_rate rl) 0);
      unfold rl_inv, bounded; simpl; repeat split; assumption.
Qed.

Lemma acquire_all_inv (calls : list (Q * Z)) :
  forall rl : t,
    rl_inv rl -> clock_monotone (last_refill rl) calls ->
    Forall (fun c => 0 <= snd c) calls ->
    Forall bounded (acquire_all calls rl).
Proof.
  induction calls as [| [now n] rest IH]; intros rl Hinv Hmono Hn; simpl.
  - constructor.
  - destruct Hmono as [Hnow Hrest].
    inversion Hn as [| ? ? Hn1 Hn2]; subst. simpl in Hn1.
    pose proof (acquire_inv now n rl Hinv Hnow Hn1) as Hinv'.
    constructor.
    + exact (proj1 Hinv').
    + apply IH; [exact Hinv' | | exact Hn2].
      rewrite acquire_last_refill. exact Hrest.
Qed.

(** C8. However many [acquire] calls are made with nonnegative requests,
    the [tokens] field lies between 0 and [max_tokens] when the limiter is
    built and after each call. The limiter is built from a configuration
    with nonnegative [burst_size] and [requests_per_second], and the clock
    readings of the calls do not run backwards. *)
Theorem acquire_keeps_tokens_within_bounds
    (cfg : RateLimitConfig) (t0 : Q) (calls : list (Q * Z)) :
  0 <= burst_size cfg ->
  (0 <= requests_per_second cfg)%Q ->
  clock_monotone t0 calls ->
  Forall (fun c => 0 <= snd c) calls ->
  Forall (fun rl => (0 <= tokens rl)%Q /\ (tokens rl <= max_tokens rl)%Q)
         (init cfg t0 :: acquire_all calls (init cfg t0)).
Proof.
  intros Hb Hr Hmono Hn.
  pose proof (init_inv cfg t0 Hb Hr) as Hinv.
  constructor.
  - exact (proj1 Hinv).
  - apply (acquire_all_inv calls (init cfg t0) Hinv); assumption.
Qed.

(** The bound at work on the test-suite configuration: 20 single-token
    calls at one instant, a refused call, then a refill. *)
Lemma acquire_keeps_tokens_within_bounds_witness :
  let cfg := mkConfig 10 20 (1 # 10) in
  let calls := repeat (0%Q, 1) 20 ++ [(0%Q, 1); (1 # 2, 0); (5%Q, 3)] in
  Forall (fun rl => (0 <= tokens rl)%Q /\ (tokens rl <= max_tokens rl)%Q)
         (init cfg 0 :: acquire_all calls (init cfg 0)).
Proof.
  apply acquire_keeps_tokens_within_bounds.
  - simpl. lia.
  - simpl. lra.
  - simpl. repeat split; lra.
  - simpl. repeat constructor; simpl; lia.
Defined.

(** C8, as stated, fails. [time.time()] is the wall clock and can be set
    back: the limiter of the default configuration, built when it reads
    100, is asked for one token when it reads 97, and the refill of -30
    leaves [tokens] at -10. And nothing validates the configuration: with
    [requests_per_second] -1 the bucket of 20 is at -5 after 25 seconds. *)
Lemma clock_set_back_leaves_tokens_negative :
  let after_step_back := snd (acquire 97 1 (init (mkConfig 10 20 (1 # 10)) 100)) in
  let after_negative_rate := snd (acquire 25 1 (init (mkConfig (-1) 20 (1 # 10)) 0)) in
  (tokens after_step_back == -10)%Q
  /\ (tokens after_step_back < 0)%Q
  /\ (tokens after_negative_rate == -5)%Q
  /\ (tokens after_negative_rate < 0)%Q.
Proof.
  vm_compute. repeat split.
Qed.

End RateLimiterProperties.

(** ** CircuitBreaker *)

Section CircuitBreakerProperties.
Import CircuitBreaker.
Context {R : Type}.
Implicit Types (func : World -> outcome R * World) (cb : t) (w : World).

Lemma reset_not_due cb (now t0 : Q) :
  last_failure_time cb = Some t0 ->
  (now - t0 < recovery_timeout (config cb))%Q ->
  _should_attempt_reset now cb = false.
Proof.
  intros Hl Hlt. unfold _should_attempt_reset. rewrite Hl.
  apply andb_false_iff. right.
  destruct (Qle_bool _ _) eqn:E; [| reflexivity].
  apply Qle_bool_iff in E. lra.
Qed.

Lemma reset_due cb (now t0 : Q) :
  last_failure_time cb = Some t0 -> ~ (t0 == 0)%Q ->
  (recovery_timeout (config cb) <= now - t0)%Q ->
  _should_attempt_reset now cb = true.
Proof.
  intros Hl Hnz Hle. unfold _should_attempt_reset. rewrite Hl.
  apply andb_true_iff. split.
  - apply negb_true_iff. destruct (Qeq_bool t0 0) eqn:E; [| reflexivity].
    apply Qeq_bool_iff in E. contradiction.
  - apply Qle_bool_iff. exact Hle.
Qed.

(** An open breaker whose reset is not yet due raises, and
    neither the breaker nor the world changes, whatever [func] is. *)
Lemma open_breaker_rejects func cb w :
  state cb = OPEN -> _should_attempt_reset (clock w) cb = false ->
  call func cb w = (Raise CircuitOpenError, cb, w).
Proof.
  intros Hs Hr. unfold call. rewrite Hs, Hr. reflexivity.
Qed.

Lemma call_failing_when_closed func cb w (e : exn) (w' : World) :
  state cb = CLOSED -> func w = (Raise e, w') ->
  call func cb w = (Raise e, _on_failure (clock w') cb, w').
Proof.
  intros Hs Hf. unfold call. rewrite Hs, Hf. reflexivity.
Qed.

(** A run of failing calls that stays within the threshold: every call is
    let through and counted; the breaker is closed below the threshold and
    open, with the time of the last failure recorded, on reaching it. *)
Lemma on_failure_state cb (now : Q) :
  state (_on_failure now cb) =
  if failure_threshold (config cb) <=? failure_count cb + 1 then OPEN
  else state cb.
Proof. reflexivity. Qed.

Lemma call_all_failing (funcs : list (World -> outcome R * World)) :
  forall cb w,
    state cb = CLOSED ->
    Forall always_fails funcs ->
    failure_count cb + Z.of_nat (length funcs) <= failure_threshold (config cb) ->
    let cb' := fst (call_all funcs cb w) in
    let w' := snd (call_all funcs cb w) in
    config cb' = config cb
    /\ failure_count cb' = failure_count cb + Z.of_nat (length funcs)
    /\ (failure_count cb' < failure_threshold (config cb) -> state cb' = CLOSED)
    /\ (funcs <> [] -> failure_count cb' = failure_threshold (config cb) ->
        state cb' = OPEN /\ last_failure_time cb' = Some (clock w')).
Proof.
  induction funcs as [| f rest IH]; intros cb w Hs Hall Hlen; simpl.
  - split; [reflexivity |]. split; [lia |]. split; [intros _; exact Hs |].
    intros H; contradiction.
  - inversion Hall as [| ? ? Hf Hrest]; subst.
    destruct (Hf w) as (e & w1 & Hfw).
    rewrite (call_failing_when_closed f cb w e w1 Hs Hfw).
    remember (_on_failure (clock w1) cb) as cb1 eqn:Ecb1.
    assert (Hc1 : failure_count cb1 = failure_count cb + 1)
      by (rewrite Ecb1; reflexivity).
    assert (Hcfg1 : config cb1 = config cb) by (rewrite Ecb1; reflexivity).
    assert (Hlt1 : last_failure_time cb1 = Some (clock w1))
      by (rewrite Ecb1; reflexivity).
    assert (Hst1 : state cb1 =
                   if failure_threshold (config cb) <=? failure_count cb + 1
                   then OPEN else CLOSED).
    { rewrite Ecb1, on_failure_state, Hs. reflexivity. }
    clear Ecb1.
    simpl length in Hlen.
    destruct rest as [| g rest'].
    + simpl. split; [exact Hcfg1 |]. split; [lia |].
      rewrite Hst1, Hc1.
      destruct (Z.leb_spec (failure_threshold (config cb)) (failure_count cb + 1)).
      * split; [intros Hlt; lia |]. intros _ _. split; [reflexivity | exact Hlt1].
      * split; [reflexivity |]. intros _ Heq. lia.
    + assert (Hs1 : state cb1 = CLOSED).
      { rewrite Hst1.
        destruct (Z.leb_spec (failure_threshold (config cb)) (failure_count cb + 1));
          [simpl length in Hlen; lia | reflexivity]. }
      specialize (IH cb1 w1 Hs1 Hrest).
      rewrite Hcfg1, Hc1 in IH.
      destruct IH as (Ha & Hb & Hc & Hd); [simpl length in *; lia |].
      split; [exact Ha |]. split; [rewrite Hb; simpl length; lia |].
      split; [exact Hc |].
      intros _ Heq. apply Hd; [discriminate | exact Heq].
Qed.

Lemma call_all_app (funcs1 funcs2 : list (World -> outcome R * World)) cb w :
  call_all (funcs1 ++ funcs2) cb w =
  call_all funcs2 (fst (call_all funcs1 cb w)) (snd (call_all funcs1 cb w)).
Proof.
  revert cb w. induction funcs1 as [| f rest IH]; intros cb w; simpl.
  - reflexivity.
  - destruct (call f cb w) as [[r cb1] w1]. apply IH.
Qed.

Lemma Forall_removelast {A : Type} (P : A -> Prop) (l : list A) :
  Forall P l -> Forall P (removelast l).
Proof.
  induction 1 as [| x l Hx Hl IH]; simpl; [constructor |].
  destruct l; [constructor | constructor; assumption].
Qed.

Lemma length_removelast_Z {A : Type} (l : list A) :
  l <> [] -> Z.of_nat (length (removelast l)) = Z.of_nat (length l) - 1.
Proof.
  intros Hne. destruct (exists_last Hne) as (l' & a & ->).
  rewrite removelast_last, length_app. simpl. lia.
Qed.

(** C6. From a closed breaker with no failure counted and threshold N, N
    failing calls in a row: the breaker is still closed after N-1 of them
    and open after the N-th; a call made while less than
    [recovery_timeout] has passed since that failure raises the
    circuit-open error and leaves breaker and world as they were, so the
    wrapped function has not run. The last part says the same of any open
    breaker whose recovery timeout has not elapsed. *)
Theorem breaker_opens_at_threshold_then_rejects
    (funcs : list (World -> outcome R * World)) (cb0 : t) (w0 : World) :
  state cb0 = CLOSED ->
  failure_count cb0 = 0 ->
  1 <= failure_threshold (config cb0) ->
  Z.of_nat (length funcs) = failure_threshold (config cb0) ->
  Forall always_fails funcs ->
  let cb_before := fst (call_all (removelast funcs) cb0 w0) in
  let cb := fst (call_all funcs cb0 w0) in
  let w := snd (call_all funcs cb0 w0) in
  state cb_before = CLOSED
  /\ state cb = OPEN
  /\ (forall func w',
        (clock w' - clock w < recovery_timeout (config cb))%Q ->
        call func cb w' = (Raise CircuitOpenError, cb, w'))
  /\ (forall func cb1 w1 (t1 : Q),
        state cb1 = OPEN ->
        last_failure_time cb1 = Some t1 ->
        (clock w1 - t1 < recovery_timeout (config cb1))%Q ->
        call func cb1 w1 = (Raise CircuitOpenError, cb1, w1)).
Proof.
  intros Hs Hc Hn Hlen Hall cb_before cb w.
  assert (Hne : funcs <> []).
  { intros ->. simpl in Hlen. lia. }
  pose proof (call_all_failing (removelast funcs) cb0 w0 Hs
                (Forall_removelast _ _ Hall)) as Hprev.
  rewrite (length_removelast_Z funcs Hne) in Hprev.
  destruct Hprev as (_ & Hcount & Hclosed & _); [lia |].
  pose proof (call_all_failing funcs cb0 w0 Hs Hall) as Hfull.
  destruct Hfull as (Hcfg & Hcount' & _ & Hopen); [lia |].
  destruct (Hopen Hne) as [Hso Hlft]; [lia |].
  split; [apply Hclosed; lia |].
  split; [exact Hso |].
  split.
  - intros func w' Hlt. apply open_breaker_rejects; [exact Hso |].
    apply (reset_not_due _ _ (clock w)); assumption.
  - intros func cb1 w1 t1 Hs1 Hl1 Hlt.
    apply open_breaker_rejects; [exact Hs1 |].
    apply (reset_not_due _ _ t1); assumption.
Qed.

(** C7. An open breaker whose last failure lies at least
    [recovery_timeout] back lets the next call through: the wrapped
    function runs on the world of the call, and what it returns or raises
    is what the call returns or raises. When it returns, the breaker is
    closed and its failure count is 0. (The recorded failure time is a
    clock reading other than 0.0, which Python takes for false.) *)
Theorem breaker_recovers_after_timeout func cb w (t0 : Q) :
  state cb = OPEN ->
  last_failure_time cb = Some t0 ->
  ~ (t0 == 0)%Q ->
  (recovery_timeout (config cb) <= clock w - t0)%Q ->
  fst (fst (call func cb w)) = fst (func w)
  /\ snd (call func cb w) = snd (func w)
  /\ (forall (r : R) (w' : World),
        func w = (Return r, w') ->
        state (snd (fst (call func cb w))) = CLOSED
        /\ failure_count (snd (fst (call func cb w))) = 0).
Proof.
  intros Hs Hl Hnz Hle.
  unfold call. rewrite Hs, (reset_due cb (clock w) t0 Hl Hnz Hle).
  destruct (func w) as [[r | e] w1]; simpl.
  - split; [reflexivity |]. split; [reflexivity |].
    intros r' w' _. split; reflexivity.
  - split; [reflexivity |]. split; [reflexivity |].
    intros r' w' Heq. discriminate.
Qed.

End CircuitBreakerProperties.

Lemma breaker_opens_at_threshold_then_rejects_witness :
  let cb0 := CircuitBreaker.init Examples.test_breaker_config in
  let w0 := mkWorld 100 ∅ 0 0 in
  let funcs := [Examples.fail_func; Examples.fail_func; Examples.fail_func] in
  let cb_before := fst (CircuitBreaker.call_all (removelast funcs) cb0 w0) in
  let cb := fst (CircuitBreaker.call_all funcs cb0 w0) in
  let w := snd (CircuitBreaker.call_all funcs cb0 w0) in
  CircuitBreaker.state cb_before = CircuitBreaker.CLOSED
  /\ CircuitBreaker.state cb = CircuitBreaker.OPEN
  /\ (forall (func : World -> outcome string * World) w',
        (clock w' - clock w < CircuitBreaker.recovery_timeout (CircuitBreaker.config cb))%Q ->
        CircuitBreaker.call func cb w' = (Raise CircuitOpenError, cb, w'))
  /\ (forall (func : World -> outcome string * World) cb1 w1 (t1 : Q),
        CircuitBreaker.state cb1 = CircuitBreaker.OPEN ->
        CircuitBreaker.last_failure_time cb1 = Some t1 ->
        (clock w1 - t1 < CircuitBreaker.recovery_timeout (CircuitBreaker.config cb1))%Q ->
        CircuitBreaker.call func cb1 w1 = (Raise CircuitOpenError, cb1, w1)).
Proof.
  apply (@breaker_opens_at_threshold_then_rejects string).
  - reflexivity.
  - reflexivity.
  - simpl. lia.
  - reflexivity.
  - repeat constructor; intros w; exists (OtherException "Test failure"), w;
      reflexivity.
Defined.

Lemma breaker_recovers_after_timeout_witness :
  let cb := CircuitBreaker.mk Examples.test_breaker_config 3 (Some 100%Q) CircuitBreaker.OPEN in
  let w := mkWorld (1011 # 10) ∅ 0 0 in
  fst (fst (CircuitBreaker.call Examples.success_func cb w)) = fst (Examples.success_func w)
  /\ snd (CircuitBreaker.call Examples.success_func cb w) = snd (Examples.success_func w)
  /\ (forall (r : string) (w' : World),
        Examples.success_func w = (Return r, w') ->
        CircuitBreaker.state (snd (fst (CircuitBreaker.call Examples.success_func cb w)))
          = CircuitBreaker.CLOSED
        /\ CircuitBreaker.failure_count
             (snd (fst (CircuitBreaker.call Examples.success_func cb w))) = 0).
Proof.
  apply (breaker_recovers_after_timeout Examples.success_func _ _ 100%Q).
  - reflexivity.
  - reflexivity.
  - intros H. vm_compute in H. discriminate.
  - vm_compute. discriminate.
Defined.


(** ** RequestCache *)

Section RequestCacheProperties.
Import RequestCache.
Variable md5_hexdigest : string -> string.
Variable json_dumps_sorted : JSON -> string.
Implicit Types (c : t) (d : gmap string file).

Abbreviation cache_key := (_get_cache_key md5_hexdigest json_dumps_sorted).
Abbreviation cache_get := (get md5_hexdigest json_dumps_sorted).
Abbreviation cache_set := (set md5_hexdigest json_dumps_sorted).

Lemma length_append (s1 s2 : string) :
  String.length (s1 +:+ s2) = (String.length s1 + String.length s2)%nat.
Proof. induction s1 as [| a s1 IH]; simpl; [reflexivity | now rewrite IH]. Qed.

Lemma append_cancel_r (a b s : string) : a +:+ s = b +:+ s -> a = b.
Proof.
  revert b. induction a as [| x a IH]; intros [| y b] H.
  - reflexivity.
  - apply (f_equal String.length) in H.
    rewrite !length_append in H. simpl in H. lia.
  - apply (f_equal String.length) in H.
    rewrite !length_append in H. simpl in H. lia.
  - change (String x (a +:+ s) = String y (b +:+ s)) in H.
    injection H as -> H. f_equal. apply IH. exact H.
Qed.

(** A payload file is the index file only for the key ["index"], which no
    hex digest is. *)
Lemma payload_file_ne_index_file c (k : string) :
  k <> "index"%string -> payload_file c k <> index_file c.
Proof.
  intros Hk Heq. unfold payload_file, index_file, path_join in Heq.
  apply String.app_inj in Heq. apply String.app_inj in Heq.
  apply Hk. apply (append_cancel_r k "index" ".json"). exact Heq.
Qed.

Lemma save_index_lookup_index c d :
  _save_index c d !! index_file c = Some (Doc (index_json (cache_index c))).
Proof.
  unfold _save_index, _save_index_ops, write_json, fs_run; simpl.
  apply lookup_insert_eq.
Qed.

Lemma save_index_lookup_other c d (p : string) :
  p <> index_file c -> _save_index c d !! p = d !! p.
Proof.
  intros Hp. unfold _save_index, _save_index_ops, write_json, fs_run; simpl.
  rewrite !lookup_insert_ne by congruence. reflexivity.
Qed.

(** What a crash during [_save_index] can leave: the other files as they
    were; the index file as it was, or torn, or complete. *)
Lemma save_index_crash_states c d (d' : gmap string file) :
  d' ∈ crash_states (_save_index_ops c) d ->
  (forall p : string, p <> index_file c -> d' !! p = d !! p)
  /\ (d' !! index_file c = d !! index_file c
      \/ d' !! index_file c = Some Torn
      \/ d' !! index_file c = Some (Doc (index_json (cache_index c)))).
Proof.
  intros Hin. apply list_elem_of_In in Hin.
  unfold crash_states, _save_index_ops, write_json in Hin. simpl in Hin.
  destruct Hin as [<- | [<- | [<- | []]]]; unfold fs_run; simpl.
  - split; [reflexivity | left; reflexivity].
  - split.
    + intros p Hp. apply lookup_insert_ne. congruence.
    + right; left. apply lookup_insert_eq.
  - split.
    + intros p Hp. rewrite !lookup_insert_ne by congruence. reflexivity.
    + right; right. apply lookup_insert_eq.
Qed.

(** [get] either leaves cache and disk alone or ends in [_save_index]. *)
Lemma get_persists_eviction (now : Q) (m u : string) (params : JSON) c d :
  let r := cache_get now m u params c d in
  (snd (fst r) = c /\ snd r = d) \/ snd r = _save_index (snd (fst r)) d.
Proof.
  unfold get, drop_entry.
  destruct (cache_index c !! _) as [e |]; [| left; split; reflexivity].
  destruct (Qltb _ _).
  - destruct (d !! _) as [[v |] |]; simpl;
      [left; split; reflexivity | right; reflexivity | right; reflexivity].
  - right; reflexivity.
Qed.

(** A [set] that returns has ended in [_save_index]. *)
Lemma set_persists_index (now : Q) (m u : string) (v params : JSON) c d
    (c' : t) (d' : gmap string file) :
  cache_set now m u v params c d = (Return tt, c', d') ->
  exists d2, d' = _save_index c' d2.
Proof.
  unfold set. intros H.
  destruct (max_size c <=? _).
  - destruct (oldest_key _) as [k |]; [| discriminate].
    injection H as <- <-. eexists. reflexivity.
  - injection H as <- <-. eexists. reflexivity.
Qed.

Lemma oldest_key_nonempty (idx : gmap string entry) :
  idx <> ∅ -> exists k, oldest_key idx = Some k.
Proof.
  intros Hne. unfold oldest_key.
  destruct (map_to_list idx) as [| x rest] eqn:E.
  - apply map_to_list_empty_iff in E. contradiction.
  - eexists. reflexivity.
Qed.

(** The two falsy parameter values, [None] and [{}], and any other falsy
    value, lead to the key of the bare [method:url]. *)
Lemma falsy_params_share_key (m u : string) (p p' : JSON) :
  truthy p = false -> truthy p' = false -> cache_key m u p' = cache_key m u p.
Proof.
  intros Hp Hp'. unfold _get_cache_key. rewrite Hp, Hp'. reflexivity.
Qed.

(** What a [set] on a cache of positive capacity does: it returns, the new
    entry is in the index, the payload is on disk under the key, and no key
    that was absent from the index has come in besides. *)
Lemma set_result (now : Q) (m u : string) (v p : JSON) c d :
  0 < max_size c ->
  exists (idx1 : gmap string entry) (d2 : gmap string file),
    let k := cache_key m u p in
    let c' := set_index (<[k := mkEntry now u m]> idx1) c in
    cache_set now m u v p c d = (Return tt, c', _save_index c' d2)
    /\ d2 !! payload_file c k = Some (Doc v)
    /\ (forall k', cache_index c !! k' = None -> idx1 !! k' = None).
Proof.
  intros Hmax. unfold set.
  destruct (Z.leb_spec (max_size c) (Z.of_nat (size (cache_index c)))) as [Hfull | Hroom].
  - assert (Hne : cache_index c <> ∅).
    { intros He. rewrite He, map_size_empty in Hfull. simpl in Hfull. lia. }
    destruct (oldest_key_nonempty _ Hne) as [k0 Hk0]. rewrite Hk0.
    eexists _, _. split; [reflexivity |]. split.
    + unfold write_json, fs_run; simpl. apply lookup_insert_eq.
    + intros k' Hk'. rewrite lookup_delete_None. right. exact Hk'.
  - eexists _, _. split; [reflexivity |]. split.
    + unfold write_json, fs_run; simpl. apply lookup_insert_eq.
    + intros k' Hk'. exact Hk'.
Qed.

(** C3, as the code has it. [_save_index] rewrites [index.json] in place:
    a crash during it leaves every other file as it was (no temporary file
    appears, nothing is renamed) and the index file as it was, torn, or
    complete. This in-place write is what [get] runs when it evicts an
    entry and what every [set] that returns ends with. *)
Theorem index_persistence_overwrites_in_place c d :
  (forall d' : gmap string file,
      d' ∈ crash_states (_save_index_ops c) d ->
      (forall p : string, p <> index_file c -> d' !! p = d !! p)
      /\ (d' !! index_file c = d !! index_file c
          \/ d' !! index_file c = Some Torn
          \/ d' !! index_file c = Some (Doc (index_json (cache_index c)))))
  /\ (forall (now : Q) (m u : string) (params : JSON),
        let r := cache_get now m u params c d in
        (snd (fst r) = c /\ snd r = d) \/ snd r = _save_index (snd (fst r)) d)
  /\ (forall (now : Q) (m u : string) (v params : JSON) (c' : t)
             (d' : gmap string file),
        cache_set now m u v params c d = (Return tt, c', d') ->
        exists d2, d' = _save_index c' d2).
Proof.
  split; [| split].
  - intros d'. apply save_index_crash_states.
  - intros now m u params. apply get_persists_eviction.
  - intros now m u v params c' d'. apply set_persists_index.
Qed.

(** An entry whose age has reached [ttl]: [get] answers [None] and drops
    the index entry, and the payload file stays on disk as it was. *)
Lemma get_expired_keeps_payload (now : Q) (m u : string) (p : JSON) c d
    (e : entry) :
  cache_index c !! cache_key m u p = Some e ->
  (inject_Z (ttl c) <= now - timestamp e)%Q ->
  cache_key m u p <> "index"%string ->
  let r := cache_get now m u p c d in
  fst (fst r) = JNull
  /\ cache_index (snd (fst r)) !! cache_key m u p = None
  /\ snd r !! payload_file c (cache_key m u p) = d !! payload_file c (cache_key m u p).
Proof.
  intros He Hage Hk. unfold get. rewrite He.
  apply Qltb_ge in Hage. rewrite Hage. unfold drop_entry. simpl.
  split; [reflexivity |]. split; [apply lookup_delete_eq |].
  apply save_index_lookup_other.
  apply (payload_file_ne_index_file c). exact Hk.
Qed.

(** The capacity eviction of [set], by contrast, unlinks the payload file
    of the entry it drops. *)
Lemma set_eviction_unlinks_payload (now : Q) (m u : string) (v p : JSON) c d
    (oldest : string) :
  max_size c <= Z.of_nat (size (cache_index c)) ->
  oldest_key (cache_index c) = Some oldest ->
  oldest <> cache_key m u p ->
  oldest <> "index"%string ->
  snd (cache_set now m u v p c d) !! payload_file c oldest = None.
Proof.
  intros Hfull Hold Hne Hidx. unfold set.
  apply Z.leb_le in Hfull. rewrite Hfull, Hold. simpl.
  rewrite save_index_lookup_other
    by (apply (payload_file_ne_index_file c); exact Hidx).
  unfold write_json, fs_run; simpl.
  assert (Hp : payload_file c (cache_key m u p) <> payload_file c oldest).
  { unfold payload_file, path_join. intros Heq.
    apply String.app_inj in Heq. apply String.app_inj in Heq.
    apply append_cancel_r in Heq. congruence. }
  rewrite !lookup_insert_ne by exact Hp.
  apply lookup_delete_eq.
Qed.

(** The key is the digest of [cache_data]. *)
Lemma cache_key_is_digest_of_cache_data (m u : string) (p : JSON) :
  cache_key m u p = md5_hexdigest (cache_data json_dumps_sorted m u p).
Proof.
  unfold _get_cache_key, cache_data. destruct (truthy p); reflexivity.
Qed.

(** Parameters that differ in truthiness, or are both truthy with different
    serializations, give different texts to hash. *)
Lemma cache_data_differs (m u : string) (p p' : JSON) :
  truthy p' <> truthy p
  \/ (truthy p = true /\ truthy p' = true
      /\ json_dumps_sorted p' <> json_dumps_sorted p) ->
  cache_data json_dumps_sorted m u p' <> cache_data json_dumps_sorted m u p.
Proof.
  unfold cache_data.
  intros [Ht | (Hp & Hp' & Hs)].
  - destruct (truthy p), (truthy p'); try congruence; intros Heq;
      apply (f_equal String.length) in Heq;
      rewrite !length_append in Heq; simpl in Heq; lia.
  - rewrite Hp, Hp'. intros Heq.
    apply String.app_inj in Heq.
    change (String ":" (json_dumps_sorted p') = String ":" (json_dumps_sorted p))
      in Heq.
    congruence.
Qed.

(** C5, as the code has it. On a cache of positive capacity, [set(m, u, v,
    p)] returns; a [get(m, u, p)] made while less than [ttl] has passed
    gives back [v]; a [get] with parameters [p'] that differ from [p] in
    truthiness, or are truthy like [p] and serialize differently, gives
    [None], MD5 not colliding on the two texts and [p'] having had no entry
    of its own; and a [get] with other falsy parameters ([None] for [{}],
    say) gives back [v] as well, the two being hashed to one key. *)
Theorem set_then_get_round_trip (now now' : Q) (m u : string) (v p p' : JSON) c d :
  0 < max_size c ->
  (now' - now < inject_Z (ttl c))%Q ->
  cache_key m u p <> "index"%string ->
  let r := cache_set now m u v p c d in
  let c1 := snd (fst r) in
  let d1 := snd r in
  fst (fst r) = Return tt
  /\ fst (fst (cache_get now' m u p c1 d1)) = v
  /\ (truthy p' <> truthy p
      \/ (truthy p = true /\ truthy p' = true
          /\ json_dumps_sorted p' <> json_dumps_sorted p) ->
      (cache_data json_dumps_sorted m u p' <> cache_data json_dumps_sorted m u p ->
       md5_hexdigest (cache_data json_dumps_sorted m u p')
       <> md5_hexdigest (cache_data json_dumps_sorted m u p)) ->
      cache_index c !! cache_key m u p' = None ->
      fst (fst (cache_get now' m u p' c1 d1)) = JNull)
  /\ (truthy p = false -> truthy p' = false ->
      fst (fst (cache_get now' m u p' c1 d1)) = v).
Proof.
  intros Hmax Hfresh Hk.
  destruct (set_result now m u v p c d Hmax) as (idx1 & d2 & Hset & Hpay & Hkeep).
  cbv zeta in Hset. intros r c1 d1. subst r c1 d1. rewrite Hset. simpl.
  set (k := cache_key m u p) in *.
  set (c' := set_index (<[k := mkEntry now u m]> idx1) c).
  assert (Hhit : fst (fst (cache_get now' m u p c' (_save_index c' d2))) = v).
  { unfold get. fold k. unfold c' at 1. simpl. rewrite lookup_insert_eq. simpl.
    apply Qltb_lt in Hfresh. rewrite Hfresh.
    change (payload_file c' k) with (payload_file c k).
    rewrite save_index_lookup_other
      by (apply (payload_file_ne_index_file c); exact Hk).
    rewrite Hpay. reflexivity. }
  split; [reflexivity |]. split; [exact Hhit |]. split.
  - intros Hdiff Hmd5 Habs.
    assert (Hne : cache_key m u p' <> k).
    { unfold k. rewrite !cache_key_is_digest_of_cache_data.
      apply Hmd5, cache_data_differs, Hdiff. }
    unfold get. unfold c' at 1. simpl.
    rewrite lookup_insert_ne by congruence.
    rewrite (Hkeep _ Habs). reflexivity.
  - intros Hp Hp'.
    assert (Heq : cache_get now' m u p' c' (_save_index c' d2)
                  = cache_get now' m u p c' (_save_index c' d2)).
    { unfold get. rewrite (falsy_params_share_key m u p p' Hp Hp'). reflexivity. }
    rewrite Heq. exact Hhit.
Qed.

End RequestCacheProperties.


(** *** The cache on the inputs of its unit tests *)

Section RequestCacheExamples.
Import RequestCache Examples.

(** The state [set("GET", url, payload)] leaves, from the empty cache, when
    the clock reads 1700000000. *)
Let after_set :=
  set md5_hexdigest dumps_sorted 1700000000 "GET" data_url payload JNull
    default_cache ∅.
Let cache1 : t := snd (fst after_set).
Let disk1 : gmap string file := snd after_set.

Lemma index_persistence_overwrites_in_place_witness :
  let d := {[ index_file cache1 := Doc (JObj []) ]} : gmap string file in
  let d' := fs_run [OpenW (index_file cache1)] d in
  (forall p : string, p <> index_file cache1 -> d' !! p = d !! p)
  /\ (d' !! index_file cache1 = d !! index_file cache1
      \/ d' !! index_file cache1 = Some Torn
      \/ d' !! index_file cache1 = Some (Doc (index_json (cache_index cache1)))).
Proof.
  intros d d'.
  apply (proj1 (index_persistence_overwrites_in_place
                  md5_hexdigest dumps_sorted cache1 d) d').
  apply list_elem_of_further, list_elem_of_here.
Defined.

(** C3, as stated, fails: the index file held a complete document, a crash
    after the first step of [_save_index] leaves it torn, and none of the
    steps is a rename. *)
Lemma save_index_crash_leaves_torn_index :
  let d := {[ index_file cache1 := Doc (JObj []) ]} : gmap string file in
  let crashed := fs_run [OpenW (index_file cache1)] d in
  crashed ∈ crash_states (_save_index_ops cache1) d
  /\ d !! index_file cache1 = Some (Doc (JObj []))
  /\ crashed !! index_file cache1 = Some Torn
  /\ _save_index_ops cache1
     = [OpenW (index_file cache1);
        DumpClose (index_file cache1) (index_json (cache_index cache1))].
Proof.
  intros d crashed. split; [| split; [| split]].
  - apply list_elem_of_further, list_elem_of_here.
  - apply lookup_singleton_eq.
  - apply lookup_insert_eq.
  - reflexivity.
Qed.

(** C4 on a concrete run: the entry set at 1700000000 with [ttl] 300 is
    read at 1700000300. [get] answers [None] and the index entry is gone,
    but the payload file is still on disk. *)
Theorem expired_get_leaves_payload_file :
  let g := get md5_hexdigest dumps_sorted 1700000300 "GET" data_url JNull
             cache1 disk1 in
  cache_index cache1 !! data_key = Some (mkEntry 1700000000 data_url "GET")
  /\ disk1 !! payload_file cache1 data_key = Some (Doc payload)
  /\ fst (fst g) = JNull
  /\ cache_index (snd (fst g)) !! data_key = None
  /\ snd g !! payload_file cache1 data_key = Some (Doc payload).
Proof.
  vm_compute. repeat split; reflexivity.
Qed.

Lemma set_then_get_round_trip_witness :
  let p := JObj [("page", JInt 1)]%string in
  let p' := JObj [("page", JInt 2)]%string in
  let r := set md5_hexdigest dumps_sorted 1700000000 "GET" data_url payload p
             default_cache ∅ in
  let c1 := snd (fst r) in
  let d1 := snd r in
  fst (fst r) = Return tt
  /\ fst (fst (get md5_hexdigest dumps_sorted 1700000001 "GET" data_url p c1 d1))
     = payload
  /\ fst (fst (get md5_hexdigest dumps_sorted 1700000001 "GET" data_url p' c1 d1))
     = JNull.
Proof.
  intros p p'.
  destruct (set_then_get_round_trip md5_hexdigest dumps_sorted
              1700000000 1700000001 "GET" data_url payload p p' default_cache ∅)
    as (Hset & Hhit & Hmiss & _).
  - simpl. lia.
  - vm_compute. reflexivity.
  - vm_compute. discriminate.
  - split; [exact Hset |]. split; [exact Hhit |].
    apply Hmiss.
    + right. split; [reflexivity |]. split; [reflexivity |].
      vm_compute. discriminate.
    + intros _. vm_compute. discriminate.
    + reflexivity.
Defined.

(** C5, as stated, fails: [None] and [{}] are different parameters, and a
    [get] with the one returns what was [set] with the other. *)
Lemma get_with_empty_params_hits_entry_set_without :
  JNull <> JObj []
  /\ fst (fst after_set) = Return tt
  /\ fst (fst (get md5_hexdigest dumps_sorted 1700000000 "GET" data_url (JObj [])
                 cache1 disk1)) = payload
  /\ payload <> JNull.
Proof.
  split; [discriminate |]. split; [reflexivity |].
  split; [vm_compute; reflexivity | discriminate].
Qed.

End RequestCacheExamples.

(** ** ResilientAPIClient *)

Section ResilientAPIClientProperties.
Import ResilientAPIClient.
Variable md5_hexdigest : string -> string.
Variable json_dumps_sorted : JSON -> string.
Variable server : nat -> HttpResult.
Variable latency : nat -> Q.
Variable random : nat -> Q.

Abbreviation make_request := (_make_request server latency).
Abbreviation loop :=
  (attempt_loop md5_hexdigest json_dumps_sorted server latency random).
Abbreviation fails_retryably := (ResilientAPIClient.fails_retryably server).

Lemma make_request_error (w : World) (r : Response) :
  server (http_calls w) = Responded r -> 400 <= status_code r < 600 ->
  exists w1, make_request w = (Raise (HTTPError (status_code r)), w1)
             /\ http_calls w1 = S (http_calls w).
Proof.
  intros Hs [Hlo Hhi]. unfold _make_request. rewrite Hs.
  apply Z.leb_le in Hlo. apply Z.ltb_lt in Hhi. rewrite Hlo, Hhi. simpl.
  eexists. split; reflexivity.
Qed.

Lemma backoff_http_calls (cfg : RetryConfig) (attempt : Z) (w : World) :
  http_calls (sleep (fst (_calculate_backoff random cfg attempt w))
                (snd (_calculate_backoff random cfg attempt w)))
  = http_calls w.
Proof.
  unfold _calculate_backoff. destruct (jitter cfg); reflexivity.
Qed.

Lemma lookup_cache_http_calls (method url : string) (use_cache : bool)
    (params : JSON) (cl : t) (w : World) :
  let r := lookup_cache md5_hexdigest json_dumps_sorted method url use_cache
             params cl w in
  http_calls (snd r) = http_calls w
  /\ config (snd (fst r)) = config cl
  /\ rate_limiter (snd (fst r)) = rate_limiter cl
  /\ circuit_breaker (snd (fst r)) = circuit_breaker cl.
Proof.
  unfold lookup_cache. destruct (cache_applies _ _ _) as [c |].
  - destruct (RequestCache.get _ _ _ _ _ _ _ _) as [[v c'] d'].
    simpl. repeat split.
  - simpl. repeat split.
Qed.

(** The loop with [n] retries left, the breaker closed and far enough from
    its threshold to stay so: [n + 1] calls, then the last error. *)
Lemma attempt_loop_exhausts (use_cache : bool) (method url : string)
    (params : JSON) (n : nat) :
  forall (attempt : Z) (last_exception : option exn) (cl : t) (w : World),
    attempt + Z.of_nat n = max_retries (retry (config cl)) ->
    CircuitBreaker.state (circuit_breaker cl) = CircuitBreaker.CLOSED ->
    CircuitBreaker.failure_count (circuit_breaker cl) + Z.of_nat n
      < CircuitBreaker.failure_threshold
          (CircuitBreaker.config (circuit_breaker cl)) ->
    fails_retryably (retry (config cl)) (http_calls w) ->
    exists (r_last : Response) (cl' : t) (w' : World),
      server (http_calls w + n)%nat = Responded r_last
      /\ loop (S n) attempt last_exception use_cache method url params cl w
         = (Raise (HTTPError (status_code r_last)), cl', w')
      /\ http_calls w' = (http_calls w + S n)%nat.
Proof.
  induction n as [| n IH]; intros attempt last_exception cl w Hatt Hst Hcnt Hsrv.
  - destruct (Hsrv (http_calls w) (Nat.le_refl _)) as (r & Hr & Hrange & Hcode).
    destruct (make_request_error w r Hr Hrange) as (w1 & Hmk & Hcalls).
    exists r, (set_circuit_breaker
                 (CircuitBreaker._on_failure (clock w1) (circuit_breaker cl)) cl), w1.
    split; [rewrite Nat.add_0_r; exact Hr |]. split; [| lia].
    simpl. rewrite (call_failing_when_closed _ _ _ _ _ Hst Hmk). simpl.
    replace (attempt <? max_retries (retry (config cl))) with false
      by (symmetry; apply Z.ltb_ge; simpl in Hatt; lia).
    reflexivity.
  - destruct (Hsrv (http_calls w) (Nat.le_refl _)) as (r & Hr & Hrange & Hcode).
    destruct (make_request_error w r Hr Hrange) as (w1 & Hmk & Hcalls).
    set (cl1 := set_circuit_breaker
                  (CircuitBreaker._on_failure (clock w1) (circuit_breaker cl)) cl).
    set (b := _calculate_backoff random (retry (config cl)) attempt w1).
    specialize (IH (attempt + 1) (Some (HTTPError (status_code r))) cl1
                  (sleep (fst b) (snd b))).
    destruct IH as (r_last & cl' & w' & Hlast & Hloop & Hcalls').
    + simpl. lia.
    + simpl.
      destruct (Z.leb_spec
                  (CircuitBreaker.failure_threshold
                     (CircuitBreaker.config (circuit_breaker cl)))
                  (CircuitBreaker.failure_count (circuit_breaker cl) + 1));
        [lia | exact Hst].
    + simpl. lia.
    + unfold b. rewrite backoff_http_calls, Hcalls.
      intros k Hk. apply Hsrv. lia.
    + exists r_last, cl', w'.
      unfold b in Hlast, Hcalls'. rewrite backoff_http_calls, Hcalls in Hlast, Hcalls'.
      split; [rewrite <- Hlast; f_equal; lia |]. split; [| lia].
      change (loop (S (S n)) attempt last_exception use_cache method url params cl w)
        with
        (let '(r0, cb', w1') :=
           CircuitBreaker.call make_request (circuit_breaker cl) w in
         let cl1' := set_circuit_breaker cb' cl in
         match r0 with
         | Return response =>
             let '(cl2, w2) :=
               store_response md5_hexdigest json_dumps_sorted use_cache method
                 url params response cl1' w1' in
             (Return (Some response), cl2, w2)
         | Raise e =>
             if is_request_exception e then
               if attempt <? max_retries (retry (config cl)) then
                 let not_retryable :=
                   match e with
                   | HTTPError s =>
                       negb (bool_decide (s ∈ retry_on_status_codes (retry (config cl))))
                   | _ => false
                   end in
                 if not_retryable then (Raise e, cl1', w1')
                 else
                   let '(backoff, w2) :=
                     _calculate_backoff random (retry (config cl)) attempt w1' in
                   loop (S n) (attempt + 1) (Some e) use_cache method url params
                     cl1' (sleep backoff w2)
               else (Raise e, cl1', w1')
             else (Raise e, cl1', w1')
         end).
      rewrite (call_failing_when_closed _ _ _ _ _ Hst Hmk).
      cbv zeta. cbn [is_request_exception].
      replace (attempt <? max_retries (retry (config cl))) with true
        by (symmetry; apply Z.ltb_lt; lia).
      rewrite (bool_decide_eq_true_2 _ Hcode). cbn [negb].
      fold cl1. fold b. destruct b as [backoff w2] eqn:Eb.
      exact Hloop.
Qed.

(** An attempt that finds the breaker open, its reset not yet due, ends the
    request with the breaker's exception: no call of [session.request], no
    backoff, no further attempt. *)
Lemma attempt_loop_stopped_by_open_breaker (use_cache : bool)
    (method url : string) (params : JSON) (n : nat) (attempt : Z)
    (last_exception : option exn) (cl : t) (w : World) :
  CircuitBreaker.state (circuit_breaker cl) = CircuitBreaker.OPEN ->
  CircuitBreaker._should_attempt_reset (clock w) (circuit_breaker cl) = false ->
  loop (S n) attempt last_exception use_cache method url params cl w
  = (Raise CircuitOpenError, set_circuit_breaker (circuit_breaker cl) cl, w).
Proof.
  intros Hst Hreset. simpl.
  rewrite (open_breaker_rejects _ _ _ Hst Hreset). reflexivity.
Qed.


End ResilientAPIClientProperties.

(** *** The client on the defaults of the "balanced" profile *)

Section ResilientAPIClientExamples.
Import ResilientAPIClient Examples.

Let get_data :=
  request md5_hexdigest dumps_sorted server_500 latency_tenth random_half
    "GET" data_url true JNull.
Let client0 : t := init balanced 1700000000 ∅.
Let world0 : World := mkWorld 1700000000 ∅ 0 0.



End ResilientAPIClientExamples.


(** ** ExportState and CheckpointManager *)

Section CheckpointProperties.
Import CheckpointManager.
Variable isoformat : Q -> string.
Variable md5_hexdigest : string -> string.
Implicit Types (m : t) (w : World) (st : ExportState.t).

(** Serialization followed by deserialization gives the record back, the
    two sets included. *)
Lemma from_dict_to_dict st :
  ExportState.from_dict (ExportState.to_dict st) = Some st.
Proof.
  unfold ExportState.from_dict, ExportState.to_dict.
  match goal with
  | |- context [forallb ?f ?l] =>
      replace (forallb f l) with true by (vm_compute; reflexivity)
  end.
  unfold ExportState.required, ExportState.defaulted. simpl.
  rewrite !mapM_fmap_Some by reflexivity. simpl.
  rewrite !list_to_set_elements_L.
  destruct st as [? ? ? ? ? ? ? ? ? ? op sk pk ? ? ? ?]; simpl.
  destruct op, sk, pk; reflexivity.
Qed.

Lemma serialized_confluence_ids st (X : string) :
  JStr X ∈ ExportState.serialized_ids "confluence_pages_exported"
             (ExportState.to_dict st) ->
  X ∈ ExportState.confluence_pages_exported st.
Proof.
  unfold ExportState.serialized_ids, ExportState.to_dict. simpl.
  intros H. apply list_elem_of_fmap in H. destruct H as (y & Hy & Hin).
  injection Hy as ->. apply elem_of_elements in Hin. exact Hin.
Qed.

Lemma serialized_jira_ids st (X : string) :
  JStr X ∈ ExportState.serialized_ids "jira_issues_exported"
             (ExportState.to_dict st) ->
  X ∈ ExportState.jira_issues_exported st.
Proof.
  unfold ExportState.serialized_ids, ExportState.to_dict. simpl.
  intros H. apply list_elem_of_fmap in H. destruct H as (y & Hy & Hin).
  injection Hy as ->. apply elem_of_elements in Hin. exact Hin.
Qed.

(** Resuming from a document [to_dict] wrote installs the state it was
    written from and touches nothing outside the manager. *)
Lemma resume_export_persisted (checkpoint_file : string) m w st :
  fs w !! resolve_path checkpoint_file m w = Some (Doc (ExportState.to_dict st)) ->
  resume_export checkpoint_file m w
  = (Some st,
     mk (checkpoint_dir m) (Some st) (Some (resolve_path checkpoint_file m w))
        (save_counter m) (checkpoint_interval m),
     w).
Proof.
  intros Hf. unfold resume_export. cbv zeta. rewrite Hf.
  change (json_load (Doc (ExportState.to_dict st)) ≫= ExportState.from_dict)
    with (ExportState.from_dict (ExportState.to_dict st)).
  rewrite from_dict_to_dict. reflexivity.
Qed.

(** C9. When the file [resume_export] reads is a persisted checkpoint, the
    resume succeeds with the state the checkpoint was written from, both
    ID sets rebuilt from their lists, and leaves the world as it was (no
    file written, no HTTP call). Every item of a serialized exported-ID
    list is then answered [true] by the matching [is_*_exported] query,
    which is a function of the manager alone. *)
Theorem resume_then_is_exported (checkpoint_file : string) m w st :
  fs w !! resolve_path checkpoint_file m w = Some (Doc (ExportState.to_dict st)) ->
  let r := resume_export checkpoint_file m w in
  let m' := snd (fst r) in
  fst (fst r) = Some st
  /\ snd r = w
  /\ (forall X : string,
        JStr X ∈ ExportState.serialized_ids "confluence_pages_exported"
                   (ExportState.to_dict st) ->
        is_confluence_page_exported X m' = true)
  /\ (forall X : string,
        JStr X ∈ ExportState.serialized_ids "jira_issues_exported"
                   (ExportState.to_dict st) ->
        is_jira_issue_exported X m' = true).
Proof.
  intros Hf. rewrite (resume_export_persisted _ _ _ _ Hf). simpl.
  split; [reflexivity |]. split; [reflexivity |]. split.
  - intros X HX. unfold is_confluence_page_exported. simpl.
    apply bool_decide_eq_true_2. apply serialized_confluence_ids. exact HX.
  - intros X HX. unfold is_jira_issue_exported. simpl.
    apply bool_decide_eq_true_2. apply serialized_jira_ids. exact HX.
Qed.

(** [save_checkpoint] without a current state does nothing. *)
Lemma save_checkpoint_without_state (force : bool) m w :
  current_state m = None ->
  save_checkpoint isoformat force m w = (Return tt, m, w).
Proof.
  intros H. unfold save_checkpoint. rewrite H. reflexivity.
Qed.

Lemma with_state_without_state
    (change : ExportState.t -> ExportState.t) (force : bool) m w :
  current_state m = None ->
  with_state isoformat change force m w = (Return tt, m, w).
Proof.
  intros H. unfold with_state. rewrite H. reflexivity.
Qed.

(** C10. Before any export has been started or resumed, each mutating
    operation returns normally and leaves the manager (its save counter
    included) and the world (its files included) exactly as they were. *)
Theorem operations_before_any_export_do_nothing m w :
  current_state m = None ->
  (forall force : bool,
      save_checkpoint isoformat force m w = (Return tt, m, w))
  /\ (forall space_key page_id : string,
        update_confluence_progress isoformat space_key page_id m w
        = (Return tt, m, w))
  /\ (forall project_key issue_key : string,
        update_jira_progress isoformat project_key issue_key m w
        = (Return tt, m, w))
  /\ (forall space_key : string,
        mark_confluence_space_complete isoformat space_key m w
        = (Return tt, m, w))
  /\ (forall project_key : string,
        mark_jira_project_complete isoformat project_key m w
        = (Return tt, m, w))
  /\ (forall (error_type error_message : string) (context : JSON),
        record_error isoformat error_type error_message context m w
        = (Return tt, m, w))
  /\ complete_export isoformat m w = (Return tt, m, w).
Proof.
  intros H.
  split; [intros; apply save_checkpoint_without_state; exact H |].
  split; [intros; apply with_state_without_state; exact H |].
  split; [intros; apply with_state_without_state; exact H |].
  split; [intros; apply with_state_without_state; exact H |].
  split; [intros; apply with_state_without_state; exact H |].
  split; [intros; apply with_state_without_state; exact H |].
  unfold complete_export. rewrite H. reflexivity.
Qed.

(** When the unforced save of [start_new_export] is skipped: whenever the
    counter it has just incremented is not a multiple of the interval. *)
Lemma start_new_export_skips_write (label export_date profile : string) m w :
  checkpoint_interval m <> 0 ->
  (save_counter m + 1) mod checkpoint_interval m <> 0 ->
  snd (start_new_export isoformat md5_hexdigest label export_date profile m w) = w.
Proof.
  intros Hi Hmod. unfold start_new_export, save_checkpoint. simpl.
  apply Z.eqb_neq in Hi. rewrite Hi.
  apply Z.eqb_neq in Hmod. rewrite Hmod. reflexivity.
Qed.

(** C1 on every fresh manager: [start_new_export] returns the new state,
    the save counter goes from 0 to 1, and the world is as before - the
    checkpoint file has not been written. *)
Lemma start_new_export_fresh_writes_nothing
    (dir label export_date profile : string) w :
  let r := start_new_export isoformat md5_hexdigest label export_date profile
             (init dir) w in
  (exists st, fst (fst r) = Return (Some st))
  /\ save_counter (snd (fst r)) = 1
  /\ snd r = w.
Proof.
  unfold start_new_export, save_checkpoint, init. simpl.
  split; [eexists; reflexivity |]. split; reflexivity.
Qed.

End CheckpointProperties.

(** *** The manager on a concrete export *)

Section CheckpointExamples.
Import CheckpointManager Examples.

(** A new export, one page exported, its space marked complete. *)
Let started :=
  start_new_export isoformat md5_hexdigest "release" "2023-11-14" "balanced"
    (init checkpoint_dir) world_at_start.
Let progressed :=
  update_confluence_progress isoformat "DOCS" "12345"
    (snd (fst started)) (snd started).
Let completed_space :=
  mark_confluence_space_complete isoformat "DOCS"
    (snd (fst progressed)) (snd progressed).

(** C1 on a concrete run: after [start_new_export] on a fresh manager the
    checkpoint file it has named does not exist; a forced save made right
    after would have written it. *)
Theorem start_new_export_leaves_no_checkpoint_file :
  let m1 := snd (fst started) in
  let file := path_join checkpoint_dir checkpoint_name in
  checkpoint_file m1 = Some file
  /\ save_counter m1 = 1
  /\ fs (snd started) !! file = None
  /\ (exists v,
        fs (snd (save_checkpoint isoformat true m1 (snd started))) !! file
        = Some (Doc v)).
Proof.
  vm_compute. split; [reflexivity |]. split; [reflexivity |].
  split; [reflexivity |]. eexists. reflexivity.
Qed.

Lemma resume_then_is_exported_witness :
  let w := snd completed_space in
  let r := resume_export checkpoint_name (init checkpoint_dir) w in
  let m' := snd (fst r) in
  fst (fst r) = Some exported_state
  /\ snd r = w
  /\ is_confluence_page_exported "12345" m' = true.
Proof.
  intros w r m'.
  destruct (resume_then_is_exported checkpoint_name (init checkpoint_dir) w
              exported_state)
    as (Hst & Hw & Hconf & _).
  - vm_compute. reflexivity.
  - split; [exact Hst |]. split; [exact Hw |].
    apply Hconf. vm_compute. apply list_elem_of_here.
Defined.

Lemma operations_before_any_export_do_nothing_witness :
  let m := init checkpoint_dir in
  let w := world_at_start in
  update_confluence_progress isoformat "DOCS" "12345" m w = (Return tt, m, w)
  /\ mark_confluence_space_complete isoformat "DOCS" m w = (Return tt, m, w)
  /\ complete_export isoformat m w = (Return tt, m, w).
Proof.
  intros m w.
  destruct (operations_before_any_export_do_nothing isoformat m w)
    as (_ & Hupd & _ & Hmark & _ & _ & Hdone); [reflexivity |].
  split; [apply Hupd |]. split; [apply Hmark | exact Hdone].
Defined.

End CheckpointExamples.

(** * Further properties of the two modules *)

(** ** RateLimiter: burst, refusal, zero refill rate *)

Section RateLimiterBehaviour.
Import RateLimiter.

Lemma inject_Z_nonneg (z : Z) : 0 <= z -> (0 <= inject_Z z)%Q.
Proof. intros H. change 0%Q with (inject_Z 0). rewrite <- Zle_Qle. exact H. Qed.

Lemma inject_Z_succ (n : nat) :
  (inject_Z (Z.of_nat (S n)) == inject_Z (Z.of_nat n) + 1)%Q.
Proof.
  rewrite Nat2Z.inj_succ. unfold Z.succ. rewrite inject_Z_plus. reflexivity.
Qed.

(** As long as the bucket holds one token per outstanding call, every
    single-token call is granted at once. *)
Lemma acquire_results_granted (calls : list (Q * Z)) :
  forall rl : t,
    (inject_Z (Z.of_nat (length calls)) <= tokens rl)%Q ->
    (tokens rl <= max_tokens rl)%Q ->
    (0 <= refill_rate rl)%Q ->
    clock_monotone (last_refill rl) calls ->
    Forall (fun c => snd c = 1) calls ->
    Forall (fun r => r = Return 0%Q) (acquire_results calls rl).
Proof.
  induction calls as [| [now n] rest IH]; intros rl Hlen Hmax Hrate Hmono Hone;
    [constructor |].
  destruct Hmono as [Hnow Hrest].
  inversion Hone as [| ? ? Hn Hone']; subst. simpl in Hn. subst n.
  simpl length in Hlen. rewrite inject_Z_succ in Hlen.
  assert (Hadd : (0 <= (now - last_refill rl) * refill_rate rl)%Q).
  { apply Qmult_le_0_compat; [lra | exact Hrate]. }
  assert (Hlen0 : (0 <= inject_Z (Z.of_nat (length rest)))%Q).
  { apply inject_Z_nonneg. lia. }
  set (tokens1 := Qmin (max_tokens rl)
                    (tokens rl + (now - last_refill rl) * refill_rate rl)%Q).
  assert (H1 : (tokens rl <= tokens1)%Q) by (apply Q.min_glb; lra).
  assert (H1max : (tokens1 <= max_tokens rl)%Q) by apply Q.le_min_l.
  assert (Hgrant : Qle_bool (inject_Z 1) tokens1 = true).
  { apply Qle_bool_iff. change (inject_Z 1) with 1%Q. lra. }
  simpl. unfold acquire. fold tokens1. rewrite Hgrant. simpl.
  constructor; [reflexivity |].
  apply IH; simpl.
  - change (inject_Z 1) with 1%Q. lra.
  - change (inject_Z 1) with 1%Q. lra.
  - exact Hrate.
  - exact Hrest.
  - exact Hone'.
Qed.

(** X1. A limiter built with burst size B grants the first B single-token
    [acquire] calls without any wait, whenever they are made. *)
Theorem burst_is_admitted_without_wait
    (cfg : RateLimitConfig) (t0 : Q) (calls : list (Q * Z)) :
  (0 <= requests_per_second cfg)%Q ->
  Z.of_nat (length calls) <= burst_size cfg ->
  clock_monotone t0 calls ->
  Forall (fun c => snd c = 1) calls ->
  Forall (fun r => r = Return 0%Q) (acquire_results calls (init cfg t0)).
Proof.
  intros Hrate Hlen Hmono Hone.
  apply acquire_results_granted; simpl; try assumption.
  - rewrite <- Zle_Qle. exact Hlen.
  - lra.
Qed.

Lemma burst_is_admitted_without_wait_witness :
  Forall (fun r => r = Return 0%Q)
    (acquire_results (repeat (0%Q, 1) 20) (init (mkConfig 10 20 (1 # 10)) 0)).
Proof.
  apply burst_is_admitted_without_wait.
  - simpl. lra.
  - simpl. lia.
  - simpl. repeat split; lra.
  - simpl. repeat constructor.
Defined.

(** X2. With a positive [min_request_interval], the wait [acquire] returns
    tells the caller what happened. A wait of 0 means the tokens asked for
    have been taken from the refilled bucket. Any other wait is at least
    [min_request_interval] and means that nothing has been taken: the
    bucket, refilled, holds fewer tokens than were asked for. *)
Theorem wait_tells_whether_tokens_were_taken (now wait : Q) (n : Z) (rl : t) :
  (0 < min_request_interval (config rl))%Q ->
  fst (acquire now n rl) = Return wait ->
  let refilled :=
    Qmin (max_tokens rl)
      (tokens rl + (now - last_refill rl) * refill_rate rl)%Q in
  let rl' := snd (acquire now n rl) in
  (wait = 0%Q
   /\ (inject_Z n <= refilled)%Q
   /\ tokens rl' = (refilled - inject_Z n)%Q)
  \/ ((min_request_interval (config rl) <= wait)%Q
      /\ (0 < wait)%Q
      /\ (refilled < inject_Z n)%Q
      /\ tokens rl' = refilled).
Proof.
  intros Hmin Hres refilled. unfold acquire in *. fold refilled in Hres |- *.
  destruct (Qle_bool (inject_Z n) refilled) eqn:E.
  - left. simpl in Hres. injection Hres as <-.
    apply Qle_bool_iff in E. repeat split. exact E.
  - right. destruct (Qeq_bool (refill_rate rl) 0); [discriminate |].
    simpl in Hres. injection Hres as <-. simpl.
    assert (Hlt : (refilled < inject_Z n)%Q).
    { destruct (Qlt_le_dec refilled (inject_Z n)) as [H | H]; [exact H |].
      apply Qle_bool_iff in H. congruence. }
    assert (Hle : (min_request_interval (config rl)
                   <= Qmax ((inject_Z n - refilled) / refill_rate rl)
                        (min_request_interval (config rl)))%Q)
      by apply Q.le_max_r.
    split; [exact Hle |]. split; [lra |]. split; [exact Hlt | reflexivity].
Qed.

Lemma wait_tells_whether_tokens_were_taken_witness :
  let rl := mk (mkConfig 10 20 (1 # 10)) 0 20 10 0 in
  let refilled :=
    Qmin (max_tokens rl)
      (tokens rl + (0 - last_refill rl) * refill_rate rl)%Q in
  let rl' := snd (acquire 0 1 rl) in
  ((1 # 10) = 0%Q
   /\ (inject_Z 1 <= refilled)%Q
   /\ tokens rl' = (refilled - inject_Z 1)%Q)
  \/ ((min_request_interval (config rl) <= 1 # 10)%Q
      /\ (0 < 1 # 10)%Q
      /\ (refilled < inject_Z 1)%Q
      /\ tokens rl' = refilled).
Proof.
  apply (wait_tells_whether_tokens_were_taken 0 (1 # 10) 1
           (mk (mkConfig 10 20 (1 # 10)) 0 20 10 0)).
  - simpl. lra.
  - vm_compute. reflexivity.
Defined.

(** X3. With a refill rate of zero the bucket never refills: a request is
    granted exactly while the tokens last, whatever the clock says, and
    the first request the bucket cannot cover raises ZeroDivisionError. *)
Theorem zero_refill_rate_raises_once_drained (now : Q) (n : Z) (rl : t) :
  (refill_rate rl == 0)%Q ->
  (tokens rl <= max_tokens rl)%Q ->
  ((inject_Z n <= tokens rl)%Q -> fst (acquire now n rl) = Return 0%Q)
  /\ ((tokens rl < inject_Z n)%Q ->
      fst (acquire now n rl) = Raise ZeroDivisionError).
Proof.
  intros Hz Hmax. unfold acquire.
  set (tokens1 := Qmin (max_tokens rl)
                    (tokens rl + (now - last_refill rl) * refill_rate rl)%Q).
  assert (Heq : (tokens1 == tokens rl)%Q).
  { unfold tokens1. rewrite Hz, Qmult_0_r, Qplus_0_r.
    apply Q.min_r. exact Hmax. }
  split; intros H.
  - replace (Qle_bool (inject_Z n) tokens1) with true; [reflexivity |].
    symmetry. apply Qle_bool_iff. rewrite Heq. exact H.
  - replace (Qle_bool (inject_Z n) tokens1) with false.
    + replace (Qeq_bool (refill_rate rl) 0) with true; [reflexivity |].
      symmetry. apply Qeq_bool_iff. exact Hz.
    + symmetry. destruct (Qle_bool (inject_Z n) tokens1) eqn:E; [| reflexivity].
      apply Qle_bool_iff in E. rewrite Heq in E. lra.
Qed.

Lemma zero_refill_rate_raises_once_drained_witness :
  let rl := init (mkConfig 0 2 (1 # 10)) 0 in
  ((inject_Z 3 <= tokens rl)%Q -> fst (acquire 5 3 rl) = Return 0%Q)
  /\ ((tokens rl < inject_Z 3)%Q ->
      fst (acquire 5 3 rl) = Raise ZeroDivisionError).
Proof.
  apply (zero_refill_rate_raises_once_drained 5 3 (init (mkConfig 0 2 (1 # 10)) 0)).
  - reflexivity.
  - simpl. lra.
Defined.

End RateLimiterBehaviour.

(** ** CircuitBreaker: what every call keeps *)

Section CircuitBreakerBehaviour.
Import CircuitBreaker.
Context {R : Type}.
Implicit Types (func : World -> outcome R * World) (cb : t) (w : World).

Lemma call_settled func cb w :
  settled cb -> settled (snd (fst (call func cb w))).
Proof.
  intros (Hpos & Hcount & Hclosed). unfold call.
  assert (Hfail : forall (now : Q) (s : State),
             (s = CLOSED <-> failure_count cb < failure_threshold (config cb)) ->
             settled (_on_failure now (mk (config cb) (failure_count cb)
                                         (last_failure_time cb) s))).
  { intros now s Hs. unfold settled, _on_failure; simpl.
    split; [exact Hpos |]. split; [lia |].
    destruct (Z.leb_spec (failure_threshold (config cb)) (failure_count cb + 1)).
    - split; [discriminate | lia].
    - split; [intros _; assumption |]. intros _. apply Hs. lia. }
  assert (Hsucc : forall cb1 : t,
             config cb1 = config cb -> settled (_on_success cb1)).
  { intros cb1 Hcfg. unfold settled, _on_success; simpl. rewrite Hcfg.
    split; [exact Hpos |]. split; [lia |]. split; [intros _; lia | reflexivity]. }
  assert (Hself : cb = mk (config cb) (failure_count cb) (last_failure_time cb)
                          (state cb)) by (destruct cb; reflexivity).
  destruct (state cb) eqn:Hs.
  - destruct (func w) as [[a | e] w']; simpl; [apply Hsucc; reflexivity |].
    rewrite Hself. apply (Hfail (clock w') CLOSED). exact Hclosed.
  - destruct (_should_attempt_reset (clock w) cb).
    + destruct (func w) as [[a | e] w']; simpl; [apply Hsucc; reflexivity |].
      apply (Hfail (clock w') HALF_OPEN).
      split; [discriminate |]. intros Hlt. apply Hclosed in Hlt. discriminate.
    + simpl. unfold settled. rewrite Hs. auto.
  - destruct (func w) as [[a | e] w']; simpl; [apply Hsucc; reflexivity |].
    rewrite Hself. apply (Hfail (clock w') HALF_OPEN).
    split; [discriminate |]. intros Hlt. apply Hclosed in Hlt. discriminate.
Qed.

(** X4. A breaker with a positive threshold is closed exactly while its
    failure count is below the threshold, and the count is never negative.
    Every protected call keeps this, whatever the wrapped function does and
    from whatever state that has it: a new breaker, an open one, and also
    one standing half-open (which is how an exception that is not an
    [Exception], raised inside the trial call, leaves the breaker). *)
Theorem breaker_is_closed_exactly_below_threshold
    (funcs : list (World -> outcome R * World)) :
  forall cb w, settled cb -> settled (fst (call_all funcs cb w)).
Proof.
  induction funcs as [| f rest IH]; intros cb w Hcb; simpl; [exact Hcb |].
  pose proof (call_settled f cb w Hcb) as H1.
  destruct (call f cb w) as [[r cb1] w1]. simpl in H1.
  apply IH. exact H1.
Qed.

(** X5. A failure of the trial call made after the recovery timeout opens
    the breaker again: the error is passed on, the failure is counted, and
    the recovery timeout runs anew from the time of this failure. *)
Theorem failed_trial_call_reopens func cb w (t0 : Q) (e : exn) (w' : World) :
  state cb = OPEN ->
  failure_threshold (config cb) <= failure_count cb ->
  last_failure_time cb = Some t0 ->
  ~ (t0 == 0)%Q ->
  (recovery_timeout (config cb) <= clock w - t0)%Q ->
  func w = (Raise e, w') ->
  exists cb',
    call func cb w = (Raise e, cb', w')
    /\ state cb' = OPEN
    /\ failure_count cb' = failure_count cb + 1
    /\ last_failure_time cb' = Some (clock w')
    /\ (forall func' w'',
          (clock w'' - clock w' < recovery_timeout (config cb'))%Q ->
          call func' cb' w'' = (Raise CircuitOpenError, cb', w'')).
Proof.
  intros Hs Hthr Hl Hnz Hdue Hf.
  unfold call. rewrite Hs, (reset_due cb (clock w) t0 Hl Hnz Hdue), Hf.
  eexists. split; [reflexivity |].
  assert (Hopen : state (_on_failure (clock w') (set_state HALF_OPEN cb)) = OPEN).
  { unfold _on_failure; simpl.
    destruct (Z.leb_spec (failure_threshold (config cb)) (failure_count cb + 1));
      [reflexivity | lia]. }
  split; [exact Hopen |]. split; [reflexivity |]. split; [reflexivity |].
  intros func' w'' Hlt. apply open_breaker_rejects; [exact Hopen |].
  apply (reset_not_due _ _ (clock w')); [reflexivity | exact Hlt].
Qed.

(** X6. A protected call does one of two things. It is refused: the
    breaker is open, the circuit-open error is raised, and neither breaker
    nor world changes. Or it goes through: the world is the one the wrapped
    function leaves and the result or exception is the function's own. *)
Theorem call_refuses_or_passes_through func cb w :
  (state cb = OPEN
   /\ call func cb w = (Raise CircuitOpenError, cb, w))
  \/ (fst (fst (call func cb w)) = fst (func w)
      /\ snd (call func cb w) = snd (func w)).
Proof.
  unfold call. destruct (state cb) eqn:Hs.
  - right. destruct (func w) as [[a | e] w']; split; reflexivity.
  - destruct (_should_attempt_reset (clock w) cb).
    + right. destruct (func w) as [[a | e] w']; split; reflexivity.
    + left. split; reflexivity.
  - right. destruct (func w) as [[a | e] w']; split; reflexivity.
Qed.

End CircuitBreakerBehaviour.

Lemma breaker_is_closed_exactly_below_threshold_witness :
  CircuitBreaker.settled
    (fst (CircuitBreaker.call_all
            [Examples.fail_func; Examples.fail_func; Examples.success_func;
             Examples.fail_func]
            (CircuitBreaker.mk Examples.test_breaker_config 3 (Some 99%Q)
               CircuitBreaker.HALF_OPEN)
            (mkWorld 100 ∅ 0 0))).
Proof.
  apply breaker_is_closed_exactly_below_threshold.
  unfold CircuitBreaker.settled; simpl.
  split; [lia |]. split; [lia |]. split; [discriminate | lia].
Defined.

Lemma failed_trial_call_reopens_witness :
  let cb := CircuitBreaker.mk Examples.test_breaker_config 3 (Some 100%Q)
              CircuitBreaker.OPEN in
  let w := mkWorld (1011 # 10) ∅ 0 0 in
  exists cb',
    CircuitBreaker.call Examples.fail_func cb w
    = (Raise (OtherException "Test failure"), cb', w)
    /\ CircuitBreaker.state cb' = CircuitBreaker.OPEN
    /\ CircuitBreaker.failure_count cb' = CircuitBreaker.failure_count cb + 1
    /\ CircuitBreaker.last_failure_time cb' = Some (clock w)
    /\ (forall (func' : World -> outcome string * World) w'',
          (clock w'' - clock w
           < CircuitBreaker.recovery_timeout (CircuitBreaker.config cb'))%Q ->
          CircuitBreaker.call func' cb' w'' = (Raise CircuitOpenError, cb', w'')).
Proof.
  apply (failed_trial_call_reopens Examples.fail_func _ _ 100%Q).
  - reflexivity.
  - simpl. lia.
  - reflexivity.
  - intros H. vm_compute in H. discriminate.
  - vm_compute. discriminate.
  - reflexivity.
Defined.

(** ** RequestCache: capacity, eviction, corrupt entries, reload *)

Section RequestCacheBehaviour.
Import RequestCache.
Variable md5_hexdigest : string -> string.
Variable json_dumps_sorted : JSON -> string.
Implicit Types (c : t) (d : gmap string file) (idx : gmap string entry).

Abbreviation key_of := (_get_cache_key md5_hexdigest json_dumps_sorted).
Abbreviation get_cached := (get md5_hexdigest json_dumps_sorted).
Abbreviation set_cached := (set md5_hexdigest json_dumps_sorted).

Lemma older_cases (a b : string * entry) :
  (older a b = a \/ older a b = b)
  /\ (timestamp (snd (older a b)) <= timestamp (snd a))%Q
  /\ (timestamp (snd (older a b)) <= timestamp (snd b))%Q.
Proof.
  unfold older. destruct (Qltb _ _) eqn:E.
  - apply Qltb_lt in E. split; [right; reflexivity |]. split; lra.
  - apply Qltb_ge in E. split; [left; reflexivity |]. split; lra.
Qed.

Lemma foldl_older_min (l : list (string * entry)) :
  forall x : string * entry,
    foldl older x l ∈ x :: l
    /\ (forall z, z ∈ x :: l ->
          (timestamp (snd (foldl older x l)) <= timestamp (snd z))%Q).
Proof.
  induction l as [| a l IH]; intros x; simpl.
  - split; [apply list_elem_of_here |].
    intros z Hz. apply list_elem_of_In in Hz. destruct Hz as [<- | []]. lra.
  - destruct (IH (older x a)) as [Hin Hmin].
    pose proof (Hmin (older x a) (list_elem_of_here _ _)) as Hhead.
    destruct (older_cases x a) as (Ho & Hx & Ha).
    split.
    + apply list_elem_of_In in Hin. apply list_elem_of_In.
      destruct Hin as [Hin | Hin].
      * rewrite <- Hin. destruct Ho as [-> | ->];
          [left; reflexivity | right; left; reflexivity].
      * right; right. exact Hin.
    + intros z Hz. apply list_elem_of_In in Hz.
      destruct Hz as [<- | [<- | Hz]]; [lra | lra |].
      apply Hmin. apply list_elem_of_further, list_elem_of_In. exact Hz.
Qed.

(** The key [oldest_key] names is in the index and no entry is older. *)
Lemma oldest_key_spec idx (k : string) :
  oldest_key idx = Some k ->
  exists e, idx !! k = Some e
            /\ (forall k' e', idx !! k' = Some e' ->
                  (timestamp e <= timestamp e')%Q).
Proof.
  unfold oldest_key. destruct (map_to_list idx) as [| x rest] eqn:E;
    [discriminate |].
  intros Hk. injection Hk as <-.
  destruct (foldl_older_min rest x) as [Hin Hmin]. rewrite <- E in Hin, Hmin.
  destruct (foldl older x rest) as [k e] eqn:Ef. simpl in *.
  exists e. split; [apply elem_of_map_to_list; exact Hin |].
  intros k' e' Hk'. apply (Hmin (k', e')). apply elem_of_map_to_list. exact Hk'.
Qed.

Lemma size_insert_le idx (k : string) (e : entry) :
  (size (<[k := e]> idx) <= S (size idx))%nat.
Proof.
  destruct (idx !! k) eqn:E.
  - rewrite map_size_insert_Some by eauto. lia.
  - rewrite map_size_insert_None by exact E. lia.
Qed.

(** X7. [set] keeps the index within [max_size]: an index that is within
    the bound before the call is within it after, whether the call returns
    or raises. *)
Theorem set_keeps_index_within_max_size
    (now : Q) (m u : string) (v p : JSON) c d :
  Z.of_nat (size (cache_index c)) <= max_size c ->
  Z.of_nat (size (cache_index (snd (fst (set_cached now m u v p c d)))))
  <= max_size c.
Proof.
  intros Hsize. unfold set.
  destruct (Z.leb_spec (max_size c) (Z.of_nat (size (cache_index c)))) as [Hfull | Hroom].
  - destruct (oldest_key (cache_index c)) as [k |] eqn:Ek; simpl; [| exact Hsize].
    destruct (oldest_key_spec _ _ Ek) as (e & He & _).
    pose proof (size_insert_le (delete k (cache_index c)) (key_of m u p)
                  (mkEntry now u m)) as Hins.
    rewrite map_size_delete_Some in Hins by eauto.
    assert (size (cache_index c) <> 0%nat).
    { intros Hz. apply map_size_empty_iff in Hz. rewrite Hz in He.
      rewrite lookup_empty in He. discriminate. }
    lia.
  - simpl.
    pose proof (size_insert_le (cache_index c) (key_of m u p) (mkEntry now u m)).
    lia.
Qed.

Lemma payload_file_inj c (k k' : string) :
  payload_file c k = payload_file c k' -> k = k'.
Proof.
  unfold payload_file, path_join. intros Heq.
  apply String.app_inj in Heq. apply String.app_inj in Heq.
  apply append_cancel_r in Heq. exact Heq.
Qed.

(** X8. When the index is full, [set] of a key that is not yet cached
    drops exactly one entry, and one that no other entry is older than: its
    index entry and its payload file are gone, and every other entry keeps
    both. *)
Theorem set_at_capacity_evicts_an_oldest_entry
    (now : Q) (m u : string) (v p : JSON) c d :
  0 < max_size c ->
  max_size c <= Z.of_nat (size (cache_index c)) ->
  cache_index c !! key_of m u p = None ->
  cache_index c !! "index"%string = None ->
  let r := set_cached now m u v p c d in
  exists (oldest : string) (e : entry),
    cache_index c !! oldest = Some e
    /\ (forall k' e', cache_index c !! k' = Some e' ->
          (timestamp e <= timestamp e')%Q)
    /\ fst (fst r) = Return tt
    /\ cache_index (snd (fst r)) !! oldest = None
    /\ snd r !! payload_file c oldest = None
    /\ (forall k : string,
          k <> oldest -> k <> key_of m u p ->
          cache_index (snd (fst r)) !! k = cache_index c !! k
          /\ (k <> "index"%string ->
              snd r !! payload_file c k = d !! payload_file c k)).
Proof.
  intros Hmax Hfull Hnew Hidx.
  assert (Hne : cache_index c <> ∅).
  { intros He. rewrite He, map_size_empty in Hfull. simpl in Hfull. lia. }
  destruct (oldest_key_nonempty _ Hne) as [oldest Hold].
  destruct (oldest_key_spec _ _ Hold) as (e & He & Hmin).
  assert (Hon : oldest <> key_of m u p) by congruence.
  assert (Hoi : oldest <> "index"%string) by congruence.
  exists oldest, e. unfold set.
  apply Z.leb_le in Hfull. rewrite Hfull, Hold. simpl.
  split; [exact He |]. split; [exact Hmin |]. split; [reflexivity |].
  split; [rewrite lookup_insert_ne by congruence; apply lookup_delete_eq |].
  split.
  - rewrite save_index_lookup_other
      by (apply (payload_file_ne_index_file c); exact Hoi).
    unfold write_json, fs_run; simpl.
    rewrite !lookup_insert_ne
      by (intros H; apply payload_file_inj in H; congruence).
    apply lookup_delete_eq.
  - intros k Hk Hkn. split.
    + rewrite lookup_insert_ne by congruence. apply lookup_delete_ne. congruence.
    + intros Hki.
      rewrite save_index_lookup_other
        by (apply (payload_file_ne_index_file c); exact Hki).
      unfold write_json, fs_run; simpl.
      rewrite !lookup_insert_ne
        by (intros H; apply payload_file_inj in H; congruence).
      apply lookup_delete_ne. intros H. apply payload_file_inj in H. congruence.
Qed.

(** X9. [get] never adds to the cache: whatever it answers, every file
    other than [index.json] is as it was, no key enters the index, and the
    directory, [ttl] and [max_size] are unchanged. *)
Theorem get_only_shrinks_index_and_rewrites_index_file
    (now : Q) (m u : string) (p : JSON) c d :
  let r := get_cached now m u p c d in
  (forall path : string, path <> index_file c -> snd r !! path = d !! path)
  /\ cache_index (snd (fst r)) ⊆ cache_index c
  /\ cache_dir (snd (fst r)) = cache_dir c
  /\ ttl (snd (fst r)) = ttl c
  /\ max_size (snd (fst r)) = max_size c.
Proof.
  assert (Hdrop : forall k,
             let r := drop_entry k c d in
             (forall path : string, path <> index_file c -> snd r !! path = d !! path)
             /\ cache_index (fst r) ⊆ cache_index c
             /\ cache_dir (fst r) = cache_dir c
             /\ ttl (fst r) = ttl c
             /\ max_size (fst r) = max_size c).
  { intros k. unfold drop_entry; simpl. split.
    - intros path Hp. apply (save_index_lookup_other (set_index _ c)). exact Hp.
    - split; [apply delete_subseteq | repeat split]. }
  unfold get.
  destruct (cache_index c !! _) as [e |]; [| simpl; repeat split; reflexivity].
  destruct (Qltb _ _).
  - destruct (d !! _) as [[v |] |].
    + simpl. repeat split; reflexivity.
    + specialize (Hdrop (key_of m u p)).
      destruct (drop_entry _ c d) as [c' d']. exact Hdrop.
    + specialize (Hdrop (key_of m u p)).
      destruct (drop_entry _ c d) as [c' d']. exact Hdrop.
  - specialize (Hdrop (key_of m u p)).
    destruct (drop_entry _ c d) as [c' d']. exact Hdrop.
Qed.

(** X10. A live entry whose payload file is missing or unreadable is a
    miss, not an error: [get] answers [None], drops the entry from the
    index and saves the index. *)
Theorem get_with_unreadable_payload_is_a_miss
    (now : Q) (m u : string) (p : JSON) c d (e : entry) :
  cache_index c !! key_of m u p = Some e ->
  (now - timestamp e < inject_Z (ttl c))%Q ->
  d !! payload_file c (key_of m u p) = None
  \/ d !! payload_file c (key_of m u p) = Some Torn ->
  let c' := set_index (delete (key_of m u p) (cache_index c)) c in
  get_cached now m u p c d = (JNull, c', _save_index c' d).
Proof.
  intros He Hlive Hfile. unfold get. rewrite He.
  apply Qltb_lt in Hlive. rewrite Hlive.
  destruct Hfile as [-> | ->]; reflexivity.
Qed.

(** X11. A cache whose capacity is zero or negative cannot take its first
    entry: [set] on the empty index raises ValueError and changes neither
    the cache nor the disk. *)
Theorem set_without_capacity_raises
    (now : Q) (m u : string) (v p : JSON) c d :
  max_size c <= 0 ->
  cache_index c = ∅ ->
  set_cached now m u v p c d = (Raise ValueError, c, d).
Proof.
  intros Hmax Hempty. unfold set. rewrite Hempty, map_size_empty.
  replace (max_size c <=? Z.of_nat 0) with true
    by (symmetry; apply Z.leb_le; simpl; lia).
  unfold oldest_key. rewrite map_to_list_empty. reflexivity.
Qed.

End RequestCacheBehaviour.

Section RequestCacheBehaviourExamples.
Import RequestCache Examples.

(** A cache of capacity 1 that holds the entry of the bare URL. *)
Let small_cache : t := mk ".cache" 300 1 ∅.
Let filled :=
  set md5_hexdigest dumps_sorted 1700000000 "GET" data_url payload JNull
    small_cache ∅.
Let page1 : JSON := JObj [("page", JInt 1)]%string.

Lemma set_keeps_index_within_max_size_witness :
  Z.of_nat (size (cache_index
                    (snd (fst (set md5_hexdigest dumps_sorted 1700000005 "GET"
                                 data_url payload page1
                                 (snd (fst filled)) (snd filled))))))
  <= max_size (snd (fst filled)).
Proof.
  apply set_keeps_index_within_max_size. vm_compute. discriminate.
Defined.

Lemma set_at_capacity_evicts_an_oldest_entry_witness :
  let c := snd (fst filled) in
  let d := snd filled in
  let r := set md5_hexdigest dumps_sorted 1700000005 "GET" data_url payload
             page1 c d in
  exists (oldest : string) (e : entry),
    cache_index c !! oldest = Some e
    /\ (forall k' e', cache_index c !! k' = Some e' ->
          (timestamp e <= timestamp e')%Q)
    /\ fst (fst r) = Return tt
    /\ cache_index (snd (fst r)) !! oldest = None
    /\ snd r !! payload_file c oldest = None
    /\ (forall k : string,
          k <> oldest ->
          k <> _get_cache_key md5_hexdigest dumps_sorted "GET" data_url page1 ->
          cache_index (snd (fst r)) !! k = cache_index c !! k
          /\ (k <> "index"%string ->
              snd r !! payload_file c k = d !! payload_file c k)).
Proof.
  apply (set_at_capacity_evicts_an_oldest_entry md5_hexdigest dumps_sorted
           1700000005 "GET" data_url payload page1 (snd (fst filled)) (snd filled)).
  - vm_compute. reflexivity.
  - vm_compute. discriminate.
  - vm_compute. reflexivity.
  - vm_compute. reflexivity.
Defined.

Lemma get_with_unreadable_payload_is_a_miss_witness :
  let c := snd (fst filled) in
  let c' := set_index (delete data_key (cache_index c)) c in
  get md5_hexdigest dumps_sorted 1700000001 "GET" data_url JNull c ∅
  = (JNull, c', _save_index c' ∅).
Proof.
  apply (get_with_unreadable_payload_is_a_miss md5_hexdigest dumps_sorted
           1700000001 "GET" data_url JNull (snd (fst filled)) ∅
           (mkEntry 1700000000 data_url "GET")).
  - vm_compute. reflexivity.
  - vm_compute. reflexivity.
  - left. vm_compute. reflexivity.
Defined.

Lemma set_without_capacity_raises_witness :
  set md5_hexdigest dumps_sorted 1700000000 "GET" data_url payload JNull
    (mk ".cache" 300 0 ∅) ∅
  = (Raise ValueError, mk ".cache" 300 0 ∅, ∅).
Proof.
  apply set_without_capacity_raises.
  - simpl. lia.
  - reflexivity.
Defined.

End RequestCacheBehaviourExamples.

(** ** RequestCache: the index across a restart *)

Section IndexReload.
Import RequestCache.

Lemma entry_of_json_entry_json (e : entry) :
  entry_of_json (entry_json e) = Some e.
Proof. destruct e. reflexivity. Qed.

Lemma index_of_json_index_json (idx : gmap string entry) :
  index_of_json (index_json idx) = Some idx.
Proof.
  unfold index_of_json, index_json.
  change (map (fun ke : string * entry => (fst ke, entry_json (snd ke)))
            (map_to_list idx))
    with ((fun ke : string * entry => (fst ke, entry_json (snd ke)))
            <$> map_to_list idx).
  rewrite mapM_fmap_Some.
  - simpl. rewrite list_to_map_to_list. reflexivity.
  - intros [k e]. cbn [fst snd]. rewrite entry_of_json_entry_json. reflexivity.
Qed.

Lemma load_index_of_saved (dir : string) (d : gmap string file)
    (idx : gmap string entry) :
  d !! path_join dir "index.json" = Some (Doc (index_json idx)) ->
  _load_index dir d = idx.
Proof.
  intros H. unfold _load_index. rewrite H, index_of_json_index_json.
  reflexivity.
Qed.

Lemma load_index_unreadable (dir : string) (d : gmap string file) :
  d !! path_join dir "index.json" = None
  \/ d !! path_join dir "index.json" = Some Torn ->
  _load_index dir d = ∅.
Proof.
  intros [H | H]; unfold _load_index; rewrite H; reflexivity.
Qed.

(** X12. The index survives a restart: a cache constructed on the disk that
    [_save_index] has written starts with the very index that was saved,
    and with the same directory, [ttl] and [max_size] it is the same cache.
    Without an index file, or with one that does not parse, it starts
    empty. *)
Theorem index_is_reloaded_as_saved (c : t) (d : gmap string file) :
  init (cache_dir c) (ttl c) (max_size c) (_save_index c d) = c
  /\ (forall d0 : gmap string file,
        d0 !! index_file c = None \/ d0 !! index_file c = Some Torn ->
        cache_index (init (cache_dir c) (ttl c) (max_size c) d0) = ∅).
Proof.
  split.
  - unfold init.
    rewrite (load_index_of_saved _ _ (cache_index c))
      by apply save_index_lookup_index.
    destruct c. reflexivity.
  - intros d0 H. apply load_index_unreadable. exact H.
Qed.

(** X13. A crash in the middle of [_save_index] never makes the next start
    fail: the cache then starts with the index that was on disk before,
    with the index being saved, or empty. *)
Theorem restart_after_crash_in_save_index
    (c : t) (d d' : gmap string file) :
  d' ∈ crash_states (_save_index_ops c) d ->
  _load_index (cache_dir c) d' = _load_index (cache_dir c) d
  \/ _load_index (cache_dir c) d' = ∅
  \/ _load_index (cache_dir c) d' = cache_index c.
Proof.
  intros Hin.
  destruct (save_index_crash_states c d d' Hin) as [_ [H | [H | H]]].
  - left. unfold _load_index.
    change (path_join (cache_dir c) "index.json") with (index_file c).
    rewrite H. reflexivity.
  - right; left. apply load_index_unreadable. right. exact H.
  - right; right. apply load_index_of_saved. exact H.
Qed.

End IndexReload.

Lemma restart_after_crash_in_save_index_witness :
  let c := RequestCache.mk ".cache" 300 1000
             {[ Examples.data_key :=
                  RequestCache.mkEntry 1700000000 Examples.data_url "GET" ]} in
  let d := {[ RequestCache.index_file c := Doc (JObj []) ]} : gmap string file in
  let d' := fs_run [OpenW (RequestCache.index_file c)] d in
  RequestCache._load_index (RequestCache.cache_dir c) d'
  = RequestCache._load_index (RequestCache.cache_dir c) d
  \/ RequestCache._load_index (RequestCache.cache_dir c) d' = ∅
  \/ RequestCache._load_index (RequestCache.cache_dir c) d'
     = RequestCache.cache_index c.
Proof.
  intros c d d'.
  apply (restart_after_crash_in_save_index c d d').
  apply list_elem_of_further, list_elem_of_here.
Defined.

Lemma index_is_reloaded_as_saved_witness :
  let c := RequestCache.mk ".cache" 300 1000
             {[ Examples.data_key :=
                  RequestCache.mkEntry 1700000000 Examples.data_url "GET" ]} in
  RequestCache.init ".cache" 300 1000 (RequestCache._save_index c ∅) = c
  /\ RequestCache.cache_index
       (RequestCache.init ".cache" 300 1000
          {[ RequestCache.index_file c := Torn ]})
     = ∅.
Proof.
  intros c.
  destruct (index_is_reloaded_as_saved c ∅) as [Hsaved Hempty].
  split; [exact Hsaved |].
  apply (Hempty {[ RequestCache.index_file c := Torn ]}).
  right. vm_compute. reflexivity.
Defined.

(** ** ResilientAPIClient: bounds on backoff and on calls, the cache left alone *)

Section ResilientAPIClientBehaviour.
Import ResilientAPIClient.
Variable md5_hexdigest : string -> string.
Variable json_dumps_sorted : JSON -> string.
Variable server : nat -> HttpResult.
Variable latency : nat -> Q.
Variable random : nat -> Q.

Abbreviation http_request := (_make_request server latency).
Abbreviation attempts :=
  (attempt_loop md5_hexdigest json_dumps_sorted server latency random).
Abbreviation do_request :=
  (request md5_hexdigest json_dumps_sorted server latency random).
Abbreviation do_lookup := (lookup_cache md5_hexdigest json_dumps_sorted).
Abbreviation do_store := (store_response md5_hexdigest json_dumps_sorted).
Abbreviation backoff_of := (_calculate_backoff random).

(** X14. The backoff before the next attempt: the exponential delay capped
    at [max_delay], moved by at most a quarter either way when jitter is
    on, and never negative. Without jitter it is the capped delay itself.
    The attempt number is not negative, as in [request], and the power
    stays within the range of a float (below 2^1023): beyond it the float
    power raises OverflowError instead. *)
Theorem backoff_is_within_a_quarter_of_the_capped_delay
    (cfg : RetryConfig) (attempt : Z) (w : World) :
  0 <= attempt ->
  (exponential_base cfg ^ attempt <= 2 ^ 1023)%Q ->
  (0 <= initial_delay cfg)%Q ->
  (0 <= exponential_base cfg)%Q ->
  (0 <= max_delay cfg)%Q ->
  (0 <= random (random_calls w) <= 1)%Q ->
  let delay :=
    Qmin (initial_delay cfg * exponential_base cfg ^ attempt)%Q (max_delay cfg) in
  let backoff := fst (backoff_of cfg attempt w) in
  (0 <= delay <= max_delay cfg)%Q
  /\ ((3 # 4) * delay <= backoff <= (5 # 4) * delay)%Q
  /\ (jitter cfg = false -> (backoff == delay)%Q).
Proof.
  intros _ _ Hinit Hbase Hmax [Hr0 Hr1] delay backoff.
  assert (Hpow : (0 <= exponential_base cfg ^ attempt)%Q)
    by (apply Qpower_0_le; exact Hbase).
  assert (Hprod : (0 <= initial_delay cfg * exponential_base cfg ^ attempt)%Q)
    by (apply Qmult_le_0_compat; assumption).
  assert (Hd0 : (0 <= delay)%Q) by (apply Q.min_glb; assumption).
  assert (Hd1 : (delay <= max_delay cfg)%Q) by apply Q.le_min_r.
  split; [split; assumption |].
  subst backoff. unfold _calculate_backoff. fold delay.
  destruct (jitter cfg); simpl.
  - set (r := random (random_calls w)) in *.
    assert (Hjit : (delay + delay * (1 # 4) * (2 * r - 1)
                    == delay * ((3 # 4) + (1 # 2) * r))%Q) by ring.
    assert (Hlo : (delay * (3 # 4) <= delay * ((3 # 4) + (1 # 2) * r))%Q).
    { rewrite !(Qmult_comm delay). apply Qmult_le_compat_r; lra. }
    assert (Hhi : (delay * ((3 # 4) + (1 # 2) * r) <= delay * (5 # 4))%Q).
    { rewrite !(Qmult_comm delay). apply Qmult_le_compat_r; lra. }
    assert (Hnn : (0 <= delay + delay * (1 # 4) * (2 * r - 1))%Q).
    { rewrite Hjit. apply Qmult_le_0_compat; lra. }
    rewrite (Q.max_r _ _ Hnn), Hjit.
    split; [split; lra | discriminate].
  - rewrite (Q.max_r _ _ Hd0). split; [split; lra | reflexivity].
Qed.

Lemma http_request_counts (w : World) :
  http_calls (snd (http_request w)) = S (http_calls w)
  /\ fs (snd (http_request w)) = fs w.
Proof.
  unfold _make_request. destruct (server (http_calls w)) as [r |].
  - destruct (_ && _); split; reflexivity.
  - split; reflexivity.
Qed.

Lemma call_world_cases {R : Type} (func : World -> outcome R * World)
    (cb : CircuitBreaker.t) (w : World) :
  snd (CircuitBreaker.call func cb w) = w
  \/ snd (CircuitBreaker.call func cb w) = snd (func w).
Proof.
  unfold CircuitBreaker.call. destruct (CircuitBreaker.state cb).
  - right. destruct (func w) as [[a | e] w']; reflexivity.
  - destruct (CircuitBreaker._should_attempt_reset _ _).
    + right. destruct (func w) as [[a | e] w']; reflexivity.
    + left. reflexivity.
  - right. destruct (func w) as [[a | e] w']; reflexivity.
Qed.

Lemma store_keeps_calls (use_cache : bool) (method url : string)
    (params : JSON) (response : Response) (cl : t) (w : World) :
  let r := do_store use_cache method url params response cl w in
  http_calls (snd r) = http_calls w
  /\ config (fst r) = config cl
  /\ rate_limiter (fst r) = rate_limiter cl
  /\ circuit_breaker (fst r) = circuit_breaker cl
  /\ (cache_applies use_cache method cl = None ->
      fs (snd r) = fs w /\ cache (fst r) = cache cl).
Proof.
  unfold store_response.
  destruct (cache_applies use_cache method cl) as [c |].
  - destruct (ok response), (json_body response) as [body |];
      try (simpl; repeat split; discriminate).
    destruct (RequestCache.set _ _ _ _ _ _ _ _ _) as [[o c'] d'].
    simpl. repeat split; discriminate.
  - simpl. repeat split; reflexivity.
Qed.

Lemma backoff_keeps_calls (cfg : RetryConfig) (attempt : Z) (w : World) :
  let b := backoff_of cfg attempt w in
  http_calls (sleep (fst b) (snd b)) = http_calls w
  /\ fs (sleep (fst b) (snd b)) = fs w.
Proof.
  unfold _calculate_backoff. destruct (jitter cfg); split; reflexivity.
Qed.

(** What the loop may do to the world: between none and [remaining] calls
    of [session.request]; and nothing to files or cache when the cache does
    not apply to the request. *)
Lemma attempts_footprint (use_cache : bool) (method url : string)
    (params : JSON) (remaining : nat) :
  forall (attempt : Z) (last_exception : option exn) (cl : t) (w : World),
    let r := attempts remaining attempt last_exception use_cache method url
               params cl w in
    (http_calls w <= http_calls (snd r) <= http_calls w + remaining)%nat
    /\ (cache_applies use_cache method cl = None ->
        fs (snd r) = fs w /\ cache (snd (fst r)) = cache cl).
Proof.
  induction remaining as [| n IH]; intros attempt last_exception cl w.
  - simpl. destruct last_exception; simpl; split; try lia; intros; split; reflexivity.
  - cbn [attempt_loop].
    pose proof (call_world_cases http_request (circuit_breaker cl) w) as Hw.
    destruct (http_request_counts w) as [Hcount Hfs].
    destruct (CircuitBreaker.call http_request (circuit_breaker cl) w)
      as [[r cb'] w1] eqn:Ecall.
    simpl in Hw.
    assert (Hw1 : (http_calls w <= http_calls w1 <= S (http_calls w))%nat
                  /\ fs w1 = fs w).
    { destruct Hw as [-> | ->]; [split; [lia | reflexivity] |].
      rewrite Hcount, Hfs. split; [lia | reflexivity]. }
    destruct Hw1 as [Hcalls1 Hfs1].
    set (cl1 := set_circuit_breaker cb' cl).
    assert (Hca : cache_applies use_cache method cl1
                  = cache_applies use_cache method cl) by reflexivity.
    destruct r as [response | e].
    + pose proof (store_keeps_calls use_cache method url params response cl1 w1)
        as Hst.
      destruct (do_store use_cache method url params response cl1 w1)
        as [cl2 w2].
      simpl in Hst. destruct Hst as (Hc2 & _ & _ & _ & Hnone). simpl.
      split; [lia |]. intros Happ. rewrite <- Hca in Happ.
      destruct (Hnone Happ) as [-> ->]. split; [exact Hfs1 | reflexivity].
    + assert (Hstop : (http_calls w <= http_calls w1 <= http_calls w + S n)%nat
                      /\ (cache_applies use_cache method cl = None ->
                          fs w1 = fs w /\ cache cl1 = cache cl)).
      { split; [lia |]. intros _. split; [exact Hfs1 | reflexivity]. }
      destruct (is_request_exception e); [| exact Hstop].
      destruct (attempt <? max_retries (retry (config cl))); [| exact Hstop].
      match goal with
      | |- context [if ?b then _ else _] => destruct b
      end; [exact Hstop |].
      pose proof (backoff_keeps_calls (retry (config cl)) attempt w1) as Hb.
      destruct (backoff_of (retry (config cl)) attempt w1) as [backoff w2].
      cbv zeta in Hb. cbn [fst snd] in Hb. destruct Hb as [Hbc Hbf].
      specialize (IH (attempt + 1) (Some e) cl1 (sleep backoff w2)).
      cbv zeta in IH. destruct IH as [Hcalls Hnone].
      rewrite Hbc in Hcalls. rewrite Hbf in Hnone. split; [lia |].
      intros Happ. rewrite <- Hca in Happ.
      destruct (Hnone Happ) as [-> ->]. split; [exact Hfs1 | reflexivity].
Qed.

Lemma lookup_footprint (method url : string) (use_cache : bool)
    (params : JSON) (cl : t) (w : World) :
  cache_applies use_cache method cl = None ->
  do_lookup method url use_cache params cl w = (JNull, cl, w).
Proof.
  intros H. unfold lookup_cache. rewrite H. reflexivity.
Qed.

(** X15. One [request] makes at most [max_retries + 1] calls of
    [session.request], whatever the server answers and whatever state the
    cache, the limiter and the breaker are in. *)
Theorem request_makes_at_most_max_retries_plus_one_calls
    (method url : string) (use_cache : bool) (params : JSON) (cl : t) (w : World) :
  let w' := snd (do_request method url use_cache params cl w) in
  (http_calls w <= http_calls w'
   <= http_calls w + Z.to_nat (max_retries (retry (config cl)) + 1))%nat.
Proof.
  pose proof (lookup_cache_http_calls md5_hexdigest json_dumps_sorted
                method url use_cache params cl w) as Hlk.
  cbv zeta in Hlk. unfold request.
  destruct (do_lookup method url use_cache params cl w) as [[cached cl0] w0].
  simpl in Hlk. destruct Hlk as (Hc0 & Hcfg0 & _ & _).
  assert (Hhit : forall v : JSON,
             (http_calls w
              <= http_calls (snd (Return (Some (mkResponse 200 (Some v))), cl0, w0))
              <= http_calls w + Z.to_nat (max_retries (retry (config cl)) + 1))%nat).
  { intros v. simpl. lia. }
  destruct cached; try apply Hhit.
  destruct (RateLimiter.acquire (clock w0) 1 (rate_limiter cl0)) as [wait rl'].
  destruct wait as [wait_time | e]; [| simpl; lia].
  set (w1 := if Qltb 0 wait_time then sleep wait_time w0 else w0).
  assert (Hc1 : http_calls w1 = http_calls w).
  { unfold w1. destruct (Qltb 0 wait_time); simpl; exact Hc0. }
  destruct (attempts_footprint use_cache method url params
              (Z.to_nat (max_retries (retry (config (set_rate_limiter rl' cl0))) + 1))
              0 None (set_rate_limiter rl' cl0) w1) as [Hb _].
  change (config (set_rate_limiter rl' cl0)) with (config cl0) in *.
  rewrite Hc1 in Hb. rewrite <- Hcfg0. exact Hb.
Qed.

(** X16. A negative retry budget means no attempt at all: unless the cache
    answers, [request] makes no HTTP call and returns [None] instead of a
    response or an exception. *)
Theorem negative_retry_budget_returns_nothing
    (method url : string) (use_cache : bool) (params : JSON) (cl : t) (w : World) :
  max_retries (retry (config cl)) < 0 ->
  fst (fst (do_lookup method url use_cache params cl w)) = JNull ->
  ~ (RateLimiter.refill_rate (rate_limiter cl) == 0)%Q ->
  let r := do_request method url use_cache params cl w in
  fst (fst r) = Return None /\ http_calls (snd r) = http_calls w.
Proof.
  intros Hneg Hmiss Hrate.
  pose proof (lookup_cache_http_calls md5_hexdigest json_dumps_sorted
                method url use_cache params cl w) as Hlk.
  cbv zeta in Hlk. unfold request.
  destruct (do_lookup method url use_cache params cl w) as [[cached cl0] w0].
  simpl in Hlk, Hmiss. destruct Hlk as (Hc0 & Hcfg0 & Hrl0 & _). subst cached.
  destruct (RateLimiter.acquire (clock w0) 1 (rate_limiter cl0)) as [wait rl'] eqn:Eacq.
  assert (Hwait : exists wait_time, wait = Return wait_time).
  { unfold RateLimiter.acquire in Eacq.
    destruct (Qle_bool _ _); [injection Eacq as <- _; eexists; reflexivity |].
    rewrite Hrl0 in Eacq.
    destruct (Qeq_bool (RateLimiter.refill_rate (rate_limiter cl)) 0) eqn:Ez.
    - apply Qeq_bool_iff in Ez. contradiction.
    - injection Eacq as <- _. eexists. reflexivity. }
  destruct Hwait as [wait_time ->].
  change (config (set_rate_limiter rl' cl0)) with (config cl0).
  rewrite Hcfg0.
  replace (Z.to_nat (max_retries (retry (config cl)) + 1)) with 0%nat by lia.
  simpl. split; [reflexivity |].
  destruct (Qltb 0 wait_time); simpl; exact Hc0.
Qed.

(** X17. [post], [put] and [delete], and a [get] called with the cache
    switched off, neither read nor write the cache: the files and the
    client's cache object are after the call what they were before. *)
Theorem requests_without_cache_leave_cache_and_files_alone
    (url : string) (params : JSON) (cl : t) (w : World) :
  let untouched (r : outcome (option Response) * t * World) :=
    fs (snd r) = fs w /\ cache (snd (fst r)) = cache cl in
  untouched (post md5_hexdigest json_dumps_sorted server latency random
               url params cl w)
  /\ untouched (put md5_hexdigest json_dumps_sorted server latency random
                  url params cl w)
  /\ untouched (delete md5_hexdigest json_dumps_sorted server latency random
                  url params cl w)
  /\ untouched (get md5_hexdigest json_dumps_sorted server latency random
                  url false params cl w).
Proof.
  assert (H : forall method : string,
             fs (snd (do_request method url false params cl w)) = fs w
             /\ cache (snd (fst (do_request method url false params cl w)))
                = cache cl).
  { intros method. unfold request.
    rewrite (lookup_footprint method url false params cl w) by reflexivity.
    destruct (RateLimiter.acquire (clock w) 1 (rate_limiter cl)) as [wait rl'].
    destruct wait as [wait_time | e]; [| split; reflexivity].
    set (w1 := if Qltb 0 wait_time then sleep wait_time w else w).
    assert (Hfs1 : fs w1 = fs w) by (unfold w1; destruct (Qltb 0 wait_time); reflexivity).
    destruct (attempts_footprint false method url params
                (Z.to_nat (max_retries (retry (config (set_rate_limiter rl' cl))) + 1))
                0 None (set_rate_limiter rl' cl) w1) as [_ Hnone].
    destruct (Hnone eq_refl) as [Hf Hc]. rewrite Hf, Hc. split; [exact Hfs1 | reflexivity]. }
  intros untouched. unfold untouched, post, put, delete, get.
  repeat split; apply H.
Qed.

(** Past the cache and the limiter, [request] is the attempt loop, entered
    with the breaker and the call count it was given. *)
Lemma request_reaches_loop (method url : string) (use_cache : bool)
    (params : JSON) (cl : t) (w : World) :
  fst (fst (do_lookup method url use_cache params cl w)) = JNull ->
  ~ (RateLimiter.refill_rate (rate_limiter cl) == 0)%Q ->
  exists (cl1 : t) (w1 : World),
    do_request method url use_cache params cl w
    = attempts (Z.to_nat (max_retries (retry (config cl)) + 1)) 0 None
        use_cache method url params cl1 w1
    /\ config cl1 = config cl
    /\ circuit_breaker cl1 = circuit_breaker cl
    /\ http_calls w1 = http_calls w.
Proof.
  intros Hmiss Hrate.
  pose proof (lookup_cache_http_calls md5_hexdigest json_dumps_sorted
                method url use_cache params cl w) as Hlk.
  cbv zeta in Hlk. unfold request.
  destruct (do_lookup method url use_cache params cl w) as [[cached cl0] w0].
  simpl in Hlk, Hmiss. destruct Hlk as (Hc0 & Hcfg0 & Hrl0 & Hcb0). subst cached.
  destruct (RateLimiter.acquire (clock w0) 1 (rate_limiter cl0)) as [wait rl'] eqn:Eacq.
  assert (Hwait : exists wait_time, wait = Return wait_time).
  { unfold RateLimiter.acquire in Eacq.
    destruct (Qle_bool _ _); [injection Eacq as <- _; eexists; reflexivity |].
    rewrite Hrl0 in Eacq.
    destruct (Qeq_bool (RateLimiter.refill_rate (rate_limiter cl)) 0) eqn:Ez.
    - apply Qeq_bool_iff in Ez. contradiction.
    - injection Eacq as <- _. eexists. reflexivity. }
  destruct Hwait as [wait_time ->].
  exists (set_rate_limiter rl' cl0),
         (if Qltb 0 wait_time then sleep wait_time w0 else w0).
  change (config (set_rate_limiter rl' cl0)) with (config cl0).
  rewrite Hcfg0. split; [reflexivity |]. split; [reflexivity |].
  split; [exact Hcb0 |].
  destruct (Qltb 0 wait_time); simpl; exact Hc0.
Qed.

Lemma http_request_error (w : World) (r : Response) :
  server (http_calls w) = Responded r -> 400 <= status_code r < 600 ->
  exists w1, http_request w = (Raise (HTTPError (status_code r)), w1)
             /\ http_calls w1 = S (http_calls w).
Proof.
  intros Hs [Hlo Hhi]. unfold _make_request. rewrite Hs.
  apply Z.leb_le in Hlo. apply Z.ltb_lt in Hhi. rewrite Hlo, Hhi. simpl.
  eexists. split; reflexivity.
Qed.

(** X18. An error status outside the retryable set ends the request at
    once: one call of [session.request], then the HTTP error, whatever the
    retry budget. *)
Theorem non_retryable_status_is_not_retried
    (method url : string) (use_cache : bool) (params : JSON) (cl : t) (w : World)
    (r : Response) :
  0 <= max_retries (retry (config cl)) ->
  server (http_calls w) = Responded r ->
  400 <= status_code r < 600 ->
  status_code r ∉ retry_on_status_codes (retry (config cl)) ->
  fst (fst (do_lookup method url use_cache params cl w)) = JNull ->
  ~ (RateLimiter.refill_rate (rate_limiter cl) == 0)%Q ->
  CircuitBreaker.state (circuit_breaker cl) = CircuitBreaker.CLOSED ->
  let res := do_request method url use_cache params cl w in
  fst (fst res) = Raise (HTTPError (status_code r))
  /\ http_calls (snd res) = S (http_calls w).
Proof.
  intros Hmax Hsrv Hrange Hcode Hmiss Hrate Hst.
  destruct (request_reaches_loop method url use_cache params cl w Hmiss Hrate)
    as (cl1 & w1 & Hreq & Hcfg1 & Hcb1 & Hcalls1).
  cbv zeta. rewrite Hreq.
  replace (Z.to_nat (max_retries (retry (config cl)) + 1))
    with (S (Z.to_nat (max_retries (retry (config cl))))) by lia.
  rewrite <- Hcalls1 in Hsrv. rewrite <- Hcb1 in Hst.
  destruct (http_request_error w1 r Hsrv Hrange) as (w2 & Hmk & Hcalls2).
  cbn [attempt_loop].
  rewrite (call_failing_when_closed _ _ _ _ _ Hst Hmk).
  cbn [is_request_exception]. rewrite Hcfg1.
  rewrite bool_decide_eq_false_2 by exact Hcode. cbn [negb].
  destruct (0 <? max_retries (retry (config cl))); simpl;
    (split; [reflexivity | lia]).
Qed.

Lemma backoff_keeps_clock (cfg : RetryConfig) (attempt : Z) (w : World) :
  clock (snd (backoff_of cfg attempt w)) = clock w.
Proof. unfold _calculate_backoff. destruct (jitter cfg); reflexivity. Qed.

(** The loop while the breaker is closed and [k + 1] failures short of its
    threshold, with at least one attempt left after them: [k + 1] calls,
    the breaker opens on the last, and the attempt that follows the backoff
    is refused. *)
Lemma attempts_run_into_open_breaker (use_cache : bool) (method url : string)
    (params : JSON) (k : nat) :
  forall (n : nat) (attempt : Z) (last_exception : option exn) (cl : t) (w : World),
    0 <= attempt ->
    attempt + Z.of_nat (S k) <= max_retries (retry (config cl)) ->
    (S k <= n)%nat ->
    CircuitBreaker.state (circuit_breaker cl) = CircuitBreaker.CLOSED ->
    CircuitBreaker.failure_count (circuit_breaker cl) + Z.of_nat (S k)
    = CircuitBreaker.failure_threshold (CircuitBreaker.config (circuit_breaker cl)) ->
    fails_retryably server (retry (config cl)) (http_calls w) ->
    (forall (a : Z) (w0 : World),
        0 <= a < max_retries (retry (config cl)) ->
        (fst (backoff_of (retry (config cl)) a w0)
         < CircuitBreaker.recovery_timeout
             (CircuitBreaker.config (circuit_breaker cl)))%Q) ->
    let res := attempts (S n) attempt last_exception use_cache method url
                 params cl w in
    fst (fst res) = Raise CircuitOpenError
    /\ http_calls (snd res) = (http_calls w + S k)%nat.
Proof.
  induction k as [| k IH];
    intros n attempt last_exception cl w Hatt Hbudget Hn Hst Hcnt Hsrv Hback;
    destruct (Hsrv (http_calls w) (Nat.le_refl _)) as (r & Hr & Hrange & Hcode);
    destruct (http_request_error w r Hr Hrange) as (w1 & Hmk & Hcalls);
    cbn [attempt_loop];
    rewrite (call_failing_when_closed _ _ _ _ _ Hst Hmk);
    cbn [is_request_exception];
    (replace (attempt <? max_retries (retry (config cl))) with true
      by (symmetry; apply Z.ltb_lt; lia));
    rewrite (bool_decide_eq_true_2 _ Hcode); cbn [negb];
    pose proof (Hback attempt w1) as Hshort;
    pose proof (backoff_keeps_calls (retry (config cl)) attempt w1) as Hb;
    pose proof (backoff_keeps_clock (retry (config cl)) attempt w1) as Hclock;
    destruct (backoff_of (retry (config cl)) attempt w1) as [backoff w2];
    cbv zeta in Hb; cbn [fst snd] in Hb, Hshort, Hclock; destruct Hb as [Hbc _];
    set (cb1 := CircuitBreaker._on_failure (clock w1) (circuit_breaker cl));
    (destruct n as [| n]; [lia |]).
  - assert (Hopen : CircuitBreaker.state cb1 = CircuitBreaker.OPEN).
    { unfold cb1, CircuitBreaker._on_failure; simpl.
      destruct (Z.leb_spec
                  (CircuitBreaker.failure_threshold
                     (CircuitBreaker.config (circuit_breaker cl)))
                  (CircuitBreaker.failure_count (circuit_breaker cl) + 1));
        [reflexivity | lia]. }
    assert (Hreset : CircuitBreaker._should_attempt_reset
                       (clock (sleep backoff w2)) cb1 = false).
    { apply (reset_not_due cb1 _ (clock w1)); [reflexivity |].
      simpl. rewrite Hclock.
      assert (Hq : (clock w1 + backoff - clock w1 == backoff)%Q) by ring.
      rewrite Hq. apply Hshort. lia. }
    rewrite (attempt_loop_stopped_by_open_breaker md5_hexdigest json_dumps_sorted
               server latency random use_cache method url params n (attempt + 1)
               (Some (HTTPError (status_code r)))
               (set_circuit_breaker cb1 cl) (sleep backoff w2) Hopen Hreset).
    cbn [fst snd]. split; [reflexivity |]. rewrite Hbc, Hcalls. lia.
  - assert (Hclosed : CircuitBreaker.state cb1 = CircuitBreaker.CLOSED).
    { unfold cb1, CircuitBreaker._on_failure; simpl.
      destruct (Z.leb_spec
                  (CircuitBreaker.failure_threshold
                     (CircuitBreaker.config (circuit_breaker cl)))
                  (CircuitBreaker.failure_count (circuit_breaker cl) + 1));
        [lia | exact Hst]. }
    specialize (IH n (attempt + 1) (Some (HTTPError (status_code r)))
                  (set_circuit_breaker cb1 cl) (sleep backoff w2)).
    cbv zeta in IH. destruct IH as [Hres Hcount].
    + lia.
    + simpl. lia.
    + lia.
    + exact Hclosed.
    + simpl. lia.
    + change (config (set_circuit_breaker cb1 cl)) with (config cl).
      rewrite Hbc, Hcalls. intros j Hj. apply Hsrv. lia.
    + exact Hback.
    + split; [exact Hres |]. rewrite Hcount, Hbc, Hcalls. lia.
Qed.


Lemma get_keeps_settings (now : Q) (m u : string) (p : JSON)
    (c : RequestCache.t) (d : gmap string file) :
  let c' := snd (fst (RequestCache.get md5_hexdigest json_dumps_sorted now m u p c d)) in
  RequestCache.max_size c' = RequestCache.max_size c
  /\ RequestCache.ttl c' = RequestCache.ttl c
  /\ RequestCache.cache_dir c' = RequestCache.cache_dir c.
Proof.
  unfold RequestCache.get, RequestCache.drop_entry.
  destruct (RequestCache.cache_index c !! _) as [e |]; [| repeat split].
  destruct (Qltb _ _); [| repeat split].
  destruct (d !! _) as [[v |] |]; repeat split.
Qed.

(** The entry a [set] has just made is a hit for as long as it is young. *)
Lemma get_hits_fresh_entry (now now' : Q) (m u : string) (v p : JSON)
    (c : RequestCache.t) (idx1 : gmap string RequestCache.entry)
    (d2 : gmap string file) :
  let k := RequestCache._get_cache_key md5_hexdigest json_dumps_sorted m u p in
  let c' := RequestCache.set_index
              (<[k := RequestCache.mkEntry now u m]> idx1) c in
  d2 !! RequestCache.payload_file c k = Some (Doc v) ->
  k <> "index"%string ->
  (now' - now < inject_Z (RequestCache.ttl c))%Q ->
  RequestCache.get md5_hexdigest json_dumps_sorted now' m u p c'
    (RequestCache._save_index c' d2)
  = (v, c', RequestCache._save_index c' d2).
Proof.
  intros k c' Hpay Hk Hfresh. unfold RequestCache.get. fold k.
  unfold c' at 1. cbn [RequestCache.cache_index RequestCache.set_index].
  rewrite lookup_insert_eq. cbn [RequestCache.timestamp].
  apply Qltb_lt in Hfresh.
  change (RequestCache.ttl c') with (RequestCache.ttl c). rewrite Hfresh.
  change (RequestCache.payload_file c' k) with (RequestCache.payload_file c k).
  rewrite save_index_lookup_other
    by (apply (payload_file_ne_index_file c); exact Hk).
  rewrite Hpay. reflexivity.
Qed.

(** X20. A successful GET with a JSON body is answered from the cache the
    next time: the first request makes one HTTP call and returns the
    server's response; a second identical request, made before [ttl] has
    passed, returns a 200 response carrying the same body without any HTTP
    call and without asking the rate limiter. *)
Theorem repeated_get_is_served_from_cache
    (method url : string) (use_cache : bool) (params : JSON) (cl : t) (w : World)
    (c : RequestCache.t) (resp : Response) (v : JSON) :
  cache_applies use_cache method cl = Some c ->
  0 < RequestCache.max_size c ->
  RequestCache._get_cache_key md5_hexdigest json_dumps_sorted method url params
    <> "index"%string ->
  fst (fst (do_lookup method url use_cache params cl w)) = JNull ->
  ~ (RateLimiter.refill_rate (rate_limiter cl) == 0)%Q ->
  CircuitBreaker.state (circuit_breaker cl) = CircuitBreaker.CLOSED ->
  0 <= max_retries (retry (config cl)) ->
  server (http_calls w) = Responded resp ->
  status_code resp < 400 ->
  json_body resp = Some v ->
  v <> JNull ->
  let r1 := do_request method url use_cache params cl w in
  fst (fst r1) = Return (Some resp)
  /\ http_calls (snd r1) = S (http_calls w)
  /\ (forall t : Q,
        (t - clock (snd r1) < inject_Z (RequestCache.ttl c))%Q ->
        let r2 := do_request method url use_cache params (snd (fst r1))
                    (set_clock t (snd r1)) in
        fst (fst r2) = Return (Some (mkResponse 200 (Some v)))
        /\ http_calls (snd r2) = S (http_calls w)
        /\ rate_limiter (snd (fst r2)) = rate_limiter (snd (fst r1))).
Proof.
  intros Happ Hmax Hkey Hmiss Hrate Hst Hretry Hsrv Hok Hbody Hv.
  assert (Hcond : use_cache && String.eqb (upper method) "GET" = true
                  /\ cache cl = Some c).
  { unfold cache_applies in Happ.
    destruct (use_cache && String.eqb (upper method) "GET");
      [split; [reflexivity | exact Happ] | discriminate]. }
  destruct Hcond as [Hcond Hcache].
  assert (Happ' : forall (cl' : t) (c' : RequestCache.t),
             cache cl' = Some c' -> cache_applies use_cache method cl' = Some c').
  { intros cl' c' H. unfold cache_applies. rewrite Hcond. exact H. }
  (* the first request: cache miss *)
  unfold request at 1 2. unfold lookup_cache in Hmiss |- *. rewrite Happ in Hmiss |- *.
  pose proof (get_keeps_settings (clock w) method url params c (fs w)) as Hset.
  destruct (RequestCache.get md5_hexdigest json_dumps_sorted (clock w) method
              url params c (fs w)) as [[v0 c0] d0].
  cbv zeta in Hset. cbn [fst snd] in Hmiss, Hset. subst v0.
  destruct Hset as (Hmax0 & Httl0 & _).
  set (cl0 := set_cache c0 cl). set (w0 := set_fs d0 w).
  (* the limiter *)
  destruct (RateLimiter.acquire (clock w0) 1 (rate_limiter cl0)) as [wait rl'] eqn:Eacq.
  assert (Hwait : exists wait_time, wait = Return wait_time).
  { unfold RateLimiter.acquire in Eacq.
    destruct (Qle_bool _ _); [injection Eacq as <- _; eexists; reflexivity |].
    change (rate_limiter cl0) with (rate_limiter cl) in Eacq.
    destruct (Qeq_bool (RateLimiter.refill_rate (rate_limiter cl)) 0) eqn:Ez.
    - apply Qeq_bool_iff in Ez. contradiction.
    - injection Eacq as <- _. eexists. reflexivity. }
  destruct Hwait as [wait_time ->].
  set (cl1 := set_rate_limiter rl' cl0).
  set (w1 := if Qltb 0 wait_time then sleep wait_time w0 else w0).
  assert (Hcalls1 : http_calls w1 = http_calls w).
  { unfold w1. destruct (Qltb 0 wait_time); reflexivity. }
  change (config cl1) with (config cl).
  replace (Z.to_nat (max_retries (retry (config cl)) + 1))
    with (S (Z.to_nat (max_retries (retry (config cl))))) by lia.
  (* the first attempt succeeds *)
  cbn [attempt_loop].
  assert (Hmk : http_request w1
                = (Return resp,
                   mkWorld (clock w1 + latency (http_calls w1))%Q (fs w1)
                     (S (http_calls w1)) (random_calls w1))).
  { unfold _make_request. rewrite Hcalls1, Hsrv.
    replace (status_code resp <? 600) with true by (symmetry; apply Z.ltb_lt; lia).
    replace (400 <=? status_code resp) with false by (symmetry; apply Z.leb_gt; lia).
    reflexivity. }
  unfold CircuitBreaker.call.
  change (circuit_breaker cl1) with (circuit_breaker cl). rewrite Hst, Hmk.
  set (w2 := mkWorld (clock w1 + latency (http_calls w1))%Q (fs w1)
               (S (http_calls w1)) (random_calls w1)).
  set (cl2 := set_circuit_breaker
                (CircuitBreaker._on_success (circuit_breaker cl)) cl1).
  (* and is stored *)
  unfold store_response.
  rewrite (Happ' cl2 c0) by reflexivity.
  replace (ok resp) with true
    by (unfold ok;
        replace (400 <=? status_code resp) with false
          by (symmetry; apply Z.leb_gt; lia);
        reflexivity).
  rewrite Hbody.
  destruct (set_result md5_hexdigest json_dumps_sorted (clock w2) method url v
              params c0 (fs w2)) as (idx1 & d2 & Hsetr & Hpay & _);
    [rewrite Hmax0; exact Hmax |].
  cbv zeta in Hsetr. rewrite Hsetr.
  set (c' := RequestCache.set_index _ c0) in *.
  cbn [fst snd].
  split; [reflexivity |]. split; [simpl; rewrite Hcalls1; reflexivity |].
  (* the second request *)
  intros t Hfresh. unfold request, lookup_cache.
  rewrite (Happ' (set_cache c' cl2) c') by reflexivity.
  cbn [clock set_clock fs set_fs].
  assert (Hhit := get_hits_fresh_entry (clock w2) t method url v params c0
                    idx1 d2 Hpay Hkey).
  cbv zeta in Hhit. fold c' in Hhit.
  rewrite Hhit by (rewrite Httl0; exact Hfresh).
  destruct v; try contradiction;
    (split; [reflexivity |]; split; [simpl; rewrite Hcalls1; reflexivity | reflexivity]).
Qed.

End ResilientAPIClientBehaviour.

Section ResilientAPIClientBehaviourExamples.
Import ResilientAPIClient Examples.

Let fresh (cfg : ExporterConfig) : t := init cfg 1700000000 ∅.
Let world0 : World := mkWorld 1700000000 ∅ 0 0.

Lemma backoff_is_within_a_quarter_of_the_capped_delay_witness :
  let cfg := retry balanced in
  let delay :=
    Qmin (initial_delay cfg * exponential_base cfg ^ 2)%Q (max_delay cfg) in
  let backoff := fst (_calculate_backoff random_half cfg 2 world0) in
  (0 <= delay <= max_delay cfg)%Q
  /\ ((3 # 4) * delay <= backoff <= (5 # 4) * delay)%Q
  /\ (jitter cfg = false -> (backoff == delay)%Q).
Proof.
  apply (backoff_is_within_a_quarter_of_the_capped_delay random_half
           (retry balanced) 2 world0).
  - lia.
  - vm_compute. discriminate.
  - simpl. lra.
  - simpl. lra.
  - simpl. lra.
  - unfold random_half. lra.
Defined.

Lemma negative_retry_budget_returns_nothing_witness :
  let cfg := mkExporterConfig (mkRetry (-1) 1 60 2 true [429; 500])
               (rate_limit balanced) (circuit_breaker_config balanced)
               (cache_config balanced) in
  let r := request md5_hexdigest dumps_sorted server_500 latency_tenth
             random_half "GET" data_url true JNull (fresh cfg) world0 in
  fst (fst r) = Return None /\ http_calls (snd r) = http_calls world0.
Proof.
  intros cfg.
  apply (negative_retry_budget_returns_nothing md5_hexdigest dumps_sorted
           server_500 latency_tenth random_half "GET" data_url true JNull
           (fresh cfg) world0).
  - simpl. lia.
  - reflexivity.
  - intros H. vm_compute in H. discriminate.
Defined.

Lemma non_retryable_status_is_not_retried_witness :
  let res := request md5_hexdigest dumps_sorted server_404 latency_tenth
               random_half "GET" data_url true JNull (fresh balanced) world0 in
  fst (fst res) = Raise (HTTPError (status_code (mkResponse 404 None)))
  /\ http_calls (snd res) = S (http_calls world0).
Proof.
  apply (non_retryable_status_is_not_retried md5_hexdigest dumps_sorted
           server_404 latency_tenth random_half "GET" data_url true JNull
           (fresh balanced) world0 (mkResponse 404 None)).
  - simpl. lia.
  - reflexivity.
  - simpl. lia.
  - simpl. intros H. apply list_elem_of_In in H. simpl in H. lia.
  - reflexivity.
  - intros H. vm_compute in H. discriminate.
  - reflexivity.
Defined.


Lemma repeated_get_is_served_from_cache_witness :
  let r1 := request md5_hexdigest dumps_sorted server_ok latency_tenth
              random_half "GET" data_url true JNull (fresh balanced) world0 in
  fst (fst r1) = Return (Some (mkResponse 200 (Some payload)))
  /\ http_calls (snd r1) = S (http_calls world0)
  /\ (forall t : Q,
        (t - clock (snd r1)
         < inject_Z (RequestCache.ttl default_cache))%Q ->
        let r2 := request md5_hexdigest dumps_sorted server_ok latency_tenth
                    random_half "GET" data_url true JNull (snd (fst r1))
                    (set_clock t (snd r1)) in
        fst (fst r2) = Return (Some (mkResponse 200 (Some payload)))
        /\ http_calls (snd r2) = S (http_calls world0)
        /\ rate_limiter (snd (fst r2)) = rate_limiter (snd (fst r1))).
Proof.
  apply (repeated_get_is_served_from_cache md5_hexdigest dumps_sorted
           server_ok latency_tenth random_half "GET" data_url true JNull
           (fresh balanced) world0 default_cache
           (mkResponse 200 (Some payload)) payload).
  - reflexivity.
  - simpl. lia.
  - vm_compute. discriminate.
  - reflexivity.
  - intros H. vm_compute in H. discriminate.
  - reflexivity.
  - simpl. lia.
  - reflexivity.
  - simpl. lia.
  - reflexivity.
  - discriminate.
Defined.

End ResilientAPIClientBehaviourExamples.

(** ** CheckpointManager: what is on disk after a save *)

Section CheckpointBehaviour.
Import CheckpointManager ExportStateUpdate.
Variable isoformat : Q -> string.
Implicit Types (m : t) (w : World) (st : ExportState.t).

Abbreviation save := (save_checkpoint isoformat).

Lemma write_checkpoint_lookup (tmp ckpt : string) st (d : gmap string file) :
  fs_run (write_checkpoint_ops tmp ckpt st) d !! ckpt
  = Some (Doc (ExportState.to_dict st)).
Proof.
  unfold write_checkpoint_ops, fs_run; simpl.
  rewrite lookup_insert_eq. apply lookup_insert_eq.
Qed.

(** X21. The durable write of [save_checkpoint] cannot tear the checkpoint
    file: wherever a crash falls among its steps, the checkpoint file
    holds what it held before or the complete new document, and no file
    other than it and the temporary one is touched. *)
Theorem checkpoint_write_is_all_or_nothing
    (tmp ckpt : string) st (d d' : gmap string file) :
  tmp <> ckpt ->
  d' ∈ crash_states (write_checkpoint_ops tmp ckpt st) d ->
  (d' !! ckpt = d !! ckpt
   \/ d' !! ckpt = Some (Doc (ExportState.to_dict st)))
  /\ (forall p : string, p <> tmp -> p <> ckpt -> d' !! p = d !! p).
Proof.
  intros Hne Hin. apply list_elem_of_In in Hin.
  unfold crash_states, write_checkpoint_ops in Hin. simpl in Hin.
  destruct Hin as [<- | [<- | [<- | [<- | []]]]]; unfold fs_run; simpl.
  - split; [left; reflexivity | reflexivity].
  - split; [left; apply lookup_insert_ne; exact Hne |].
    intros p Hp _. apply lookup_insert_ne. congruence.
  - split; [left; rewrite !lookup_insert_ne by exact Hne; reflexivity |].
    intros p Hp _. rewrite !lookup_insert_ne by congruence. reflexivity.
  - rewrite lookup_insert_eq.
    split; [right; apply lookup_insert_eq |].
    intros p Hp Hpf. rewrite lookup_insert_ne by congruence.
    rewrite lookup_delete_ne by congruence.
    rewrite !lookup_insert_ne by congruence. reflexivity.
Qed.

(** A forced save with an export under way: the counter goes up by one,
    [last_updated] is refreshed, and the checkpoint file holds the state
    the manager now has. *)
Lemma forced_save_result m w st (ckpt tmp : string) :
  current_state m = Some st ->
  checkpoint_file m = Some ckpt ->
  with_suffix ckpt ".tmp" = Some tmp ->
  let st' := set_last_updated (isoformat (clock w)) st in
  save true m w
  = (Return tt,
     mk (checkpoint_dir m) (Some st') (Some ckpt) (save_counter m + 1)
        (checkpoint_interval m),
     set_fs (fs_run (write_checkpoint_ops tmp ckpt st') (fs w)) w).
Proof.
  intros Hst Hfile Htmp. unfold save_checkpoint.
  rewrite Hst, Hfile. simpl. rewrite Htmp.
  unfold set_current_state, set_save_counter; simpl. rewrite Hfile.
  reflexivity.
Qed.

Lemma resume_reads_back (ckpt : string) m0 w st :
  fs w !! ckpt = Some (Doc (ExportState.to_dict st)) ->
  resume_export ckpt m0 w
  = (Some st,
     mk (checkpoint_dir m0) (Some st) (Some ckpt) (save_counter m0)
        (checkpoint_interval m0),
     w).
Proof.
  intros Hf.
  assert (Hres : resolve_path ckpt m0 w = ckpt).
  { unfold resolve_path. rewrite Hf. reflexivity. }
  pose proof (resume_export_persisted ckpt m0 w st) as H.
  rewrite Hres in H. apply H. exact Hf.
Qed.

(** X22. Group completion is durable. When [mark_confluence_space_complete]
    or [mark_jira_project_complete] returns, the checkpoint file holds the
    manager's state: any manager that resumes from it gets exactly that
    state, and answers that the group is complete. *)
Theorem completed_group_survives_restart m w st (ckpt tmp group : string) :
  current_state m = Some st ->
  checkpoint_file m = Some ckpt ->
  with_suffix ckpt ".tmp" = Some tmp ->
  (let r := mark_confluence_space_complete isoformat group m w in
   forall m0 : t,
     let res := resume_export ckpt m0 (snd r) in
     fst (fst r) = Return tt
     /\ is_Some (current_state (snd (fst r)))
     /\ fst (fst res) = current_state (snd (fst r))
     /\ is_confluence_space_complete group (snd (fst res)) = true)
  /\ (let r := mark_jira_project_complete isoformat group m w in
      forall m0 : t,
        let res := resume_export ckpt m0 (snd r) in
        fst (fst r) = Return tt
        /\ is_Some (current_state (snd (fst r)))
        /\ fst (fst res) = current_state (snd (fst r))
        /\ is_jira_project_complete group (snd (fst res)) = true).
Proof.
  intros Hst Hfile Htmp.
  assert (Hin : forall l : list string, group ∈ append_if_absent group l).
  { intros l. unfold append_if_absent. case_bool_decide; [assumption |].
    apply elem_of_app. right. apply list_elem_of_here. }
  split; intros r m0; subst r;
    unfold mark_confluence_space_complete, mark_jira_project_complete, with_state;
    rewrite Hst;
    match goal with
    | |- context [save true (set_current_state (Some ?s) m) w] =>
        rewrite (forced_save_result (set_current_state (Some s) m) w s ckpt tmp
                   eq_refl Hfile Htmp)
    end;
    cbv zeta; cbn [fst snd];
    match goal with
    | |- context [resume_export ckpt m0 (set_fs (fs_run (write_checkpoint_ops tmp ckpt ?s') ?d) w)] =>
        rewrite (resume_reads_back ckpt m0 _ s')
          by (cbn [fs set_fs]; apply write_checkpoint_lookup)
    end;
    cbn [fst snd current_state];
    (split; [reflexivity |]); (split; [eexists; reflexivity |]);
    (split; [reflexivity |]).
  - unfold is_confluence_space_complete; simpl.
    apply bool_decide_eq_true_2. apply Hin.
  - unfold is_jira_project_complete; simpl.
    apply bool_decide_eq_true_2. apply Hin.
Qed.

(** X23. A recorded error is durable in the same way: after [record_error]
    the checkpoint file holds the manager's state, whose error list is the
    old one followed by the new record. *)
Theorem recorded_error_survives_restart
    m w st (ckpt tmp error_type error_message : string) (context : JSON) :
  current_state m = Some st ->
  checkpoint_file m = Some ckpt ->
  with_suffix ckpt ".tmp" = Some tmp ->
  let r := record_error isoformat error_type error_message context m w in
  forall m0 : t,
    exists st' : ExportState.t,
      fst (fst r) = Return tt
      /\ current_state (snd (fst r)) = Some st'
      /\ fst (fst (resume_export ckpt m0 (snd r))) = Some st'
      /\ ExportState.errors_encountered st'
         = ExportState.errors_encountered st
           ++ [JObj [("timestamp", JStr (isoformat (clock w)));
                     ("type", JStr error_type);
                     ("message", JStr error_message);
                     ("context", context)]%string].
Proof.
  intros Hst Hfile Htmp r m0. subst r.
  unfold record_error, with_state. rewrite Hst.
  match goal with
  | |- context [save true (set_current_state (Some ?s) m) w] =>
      rewrite (forced_save_result (set_current_state (Some s) m) w s ckpt tmp
                 eq_refl Hfile Htmp)
  end.
  cbv zeta. cbn [fst snd].
  eexists. split; [reflexivity |]. split; [reflexivity |].
  split; [| reflexivity].
  rewrite (resume_reads_back ckpt m0 _ _)
    by (cbn [fs set_fs]; apply write_checkpoint_lookup).
  reflexivity.
Qed.

End CheckpointBehaviour.

(** ** CheckpointManager: progress in memory, and how much a crash can lose *)

Section CheckpointProgress.
Import CheckpointManager ExportStateUpdate.
Variable isoformat : Q -> string.
Implicit Types (m : t) (w : World) (st : ExportState.t).

(** A save, written or skipped or raising, changes nothing of the state
    in memory but [last_updated]. *)
Lemma save_keeps_progress (force : bool) m w st :
  current_state m = Some st ->
  let m' := snd (fst (save_checkpoint isoformat force m w)) in
  (current_state m' = Some st
   \/ current_state m' = Some (set_last_updated (isoformat (clock w)) st))
  /\ checkpoint_file m' = checkpoint_file m
  /\ checkpoint_interval m' = checkpoint_interval m
  /\ checkpoint_dir m' = checkpoint_dir m.
Proof.
  intros Hst. unfold save_checkpoint. rewrite Hst.
  destruct (checkpoint_file m) as [ckpt |] eqn:Hf;
    [| simpl; rewrite Hst, Hf; repeat split; left; reflexivity].
  destruct force; simpl.
  - destruct (with_suffix ckpt ".tmp"); simpl; rewrite Hf;
      (split; [right; reflexivity | repeat split]).
  - destruct (checkpoint_interval m =? 0); simpl;
      [rewrite Hst, Hf; split; [left; reflexivity | repeat split] |].
    destruct (negb _); simpl;
      [rewrite Hst, Hf; split; [left; reflexivity | repeat split] |].
    destruct (with_suffix ckpt ".tmp"); simpl; rewrite Hf;
      (split; [right; reflexivity | repeat split]).
Qed.

(** X24. Reporting an item makes it exported, whether or not the save that
    follows is skipped: the matching query answers [true] at once, no item
    exported before is forgotten, and the other domain's set is as it
    was. *)
Theorem reported_item_is_exported m w st (group item : string) :
  current_state m = Some st ->
  (let m' := snd (fst (update_confluence_progress isoformat group item m w)) in
   is_confluence_page_exported item m' = true
   /\ (forall x : string,
         is_confluence_page_exported x m = true ->
         is_confluence_page_exported x m' = true)
   /\ (forall x : string,
         is_jira_issue_exported x m' = is_jira_issue_exported x m))
  /\ (let m' := snd (fst (update_jira_progress isoformat group item m w)) in
      is_jira_issue_exported item m' = true
      /\ (forall x : string,
            is_jira_issue_exported x m = true ->
            is_jira_issue_exported x m' = true)
      /\ (forall x : string,
            is_confluence_page_exported x m' = is_confluence_page_exported x m)).
Proof.
  intros Hst.
  split; intros m'; subst m';
    unfold update_confluence_progress, update_jira_progress, with_state;
    rewrite Hst;
    match goal with
    | |- context [save_checkpoint isoformat false (set_current_state (Some ?s) m) w] =>
        destruct (save_keeps_progress false (set_current_state (Some s) m) w s
                    eq_refl) as ([Hs | Hs] & _)
    end;
    unfold is_confluence_page_exported, is_jira_issue_exported;
    rewrite Hs, Hst; simpl;
    (split; [apply bool_decide_eq_true_2; set_solver |]);
    (split; [intros x Hx; apply bool_decide_eq_true in Hx;
             apply bool_decide_eq_true_2; set_solver | reflexivity]).
Qed.

(** X25. The list of completed groups has no duplicates and keeps the
    order of completion: marking a group complete leaves a duplicate-free
    list duplicate-free, appends the group at the end if it is new, and
    changes nothing if it is already there. *)
Theorem completed_groups_are_listed_once m w st (group : string) :
  current_state m = Some st ->
  NoDup (ExportState.confluence_spaces_completed st) ->
  exists st' : ExportState.t,
    current_state (snd (fst (mark_confluence_space_complete isoformat group m w)))
    = Some st'
    /\ NoDup (ExportState.confluence_spaces_completed st')
    /\ (group ∈ ExportState.confluence_spaces_completed st ->
        ExportState.confluence_spaces_completed st'
        = ExportState.confluence_spaces_completed st)
    /\ (group ∉ ExportState.confluence_spaces_completed st ->
        ExportState.confluence_spaces_completed st'
        = ExportState.confluence_spaces_completed st ++ [group])
    /\ ExportState.confluence_pages_exported st'
       = ExportState.confluence_pages_exported st.
Proof.
  intros Hst Hnd.
  unfold mark_confluence_space_complete, with_state. rewrite Hst.
  destruct (save_keeps_progress true
              (set_current_state (Some (confluence_space_complete group st)) m)
              w (confluence_space_complete group st) eq_refl) as ([Hs | Hs] & _);
    rewrite Hs; eexists; (split; [reflexivity |]); simpl;
    unfold append_if_absent; case_bool_decide;
    (split; [first [exact Hnd
                   | apply NoDup_app; split; [exact Hnd |];
                     split; [| apply NoDup_singleton];
                     intros x Hx Hx'; apply list_elem_of_singleton in Hx';
                     subst x; contradiction] |]);
    (split; [intros ?; first [reflexivity | contradiction] |]);
    (split; [intros ?; first [reflexivity | contradiction] | reflexivity]).
Qed.

End CheckpointProgress.

(** ** CheckpointManager: completion, failed resumes, bounded loss *)

Section CheckpointLifecycle.
Import CheckpointManager ExportStateUpdate.
Variable isoformat : Q -> string.
Implicit Types (m : t) (w : World) (st : ExportState.t).

(** X26. [complete_export] with an export under way returns, leaves the
    checkpoint holding the final state (no current operation), and writes
    next to it the marker with the counts of exported items and errors.
    Nothing refuses a later resume: [resume_export] on the checkpoint of a
    completed export succeeds like any other. *)
Theorem complete_export_writes_marker_and_final_checkpoint
    m w st (ckpt tmp marker : string) :
  current_state m = Some st ->
  checkpoint_file m = Some ckpt ->
  with_suffix ckpt ".tmp" = Some tmp ->
  with_suffix ckpt ".complete" = Some marker ->
  marker <> ckpt ->
  let r := complete_export isoformat m w in
  let final :=
    set_last_updated (isoformat (clock w)) (set_current_operation None st) in
  fst (fst r) = Return tt
  /\ current_state (snd (fst r)) = Some final
  /\ fs (snd r) !! marker = Some (Doc (completion_data isoformat final w))
  /\ fs (snd r) !! ckpt = Some (Doc (ExportState.to_dict final))
  /\ (forall m0 : t, fst (fst (resume_export ckpt m0 (snd r))) = Some final).
Proof.
  intros Hst Hfile Htmp Hmarker Hne r final. subst r.
  unfold complete_export. rewrite Hst.
  rewrite (forced_save_result isoformat
             (set_current_state (Some (set_current_operation None st)) m) w
             (set_current_operation None st) ckpt tmp eq_refl Hfile Htmp).
  cbv zeta. cbn [checkpoint_file current_state]. rewrite Hmarker.
  fold final. cbn [fst snd fs set_fs current_state].
  assert (Hck : fs_run (write_json marker (completion_data isoformat final
                  (set_fs (fs_run (write_checkpoint_ops tmp ckpt final) (fs w)) w)))
                  (fs_run (write_checkpoint_ops tmp ckpt final) (fs w)) !! ckpt
                = Some (Doc (ExportState.to_dict final))).
  { unfold write_json, fs_run at 1; simpl foldl.
    rewrite !lookup_insert_ne by exact Hne.
    apply write_checkpoint_lookup. }
  split; [reflexivity |]. split; [reflexivity |].
  split; [unfold write_json, fs_run at 1; simpl foldl; apply lookup_insert_eq |].
  split; [exact Hck |].
  intros m0. rewrite (resume_reads_back ckpt m0 _ final) by exact Hck.
  reflexivity.
Qed.

(** X27. [resume_export] fails quietly. It never writes a file; and when
    neither the path given nor the same name under the checkpoint directory
    exists, when the file does not parse, and when the document is not a
    checkpoint (a completion marker, say), it answers [None] and leaves the
    manager exactly as it was. *)
Theorem resume_export_fails_without_damage (checkpoint_file : string) m w :
  let r := resume_export checkpoint_file m w in
  let failed := fst (fst r) = None /\ snd (fst r) = m in
  snd r = w
  /\ (fs w !! checkpoint_file = None ->
      fs w !! path_join (checkpoint_dir m) checkpoint_file = None ->
      failed)
  /\ (fs w !! checkpoint_file = Some Torn -> failed)
  /\ (forall st w0,
        fs w !! checkpoint_file = Some (Doc (completion_data isoformat st w0)) ->
        failed).
Proof.
  unfold resume_export, resolve_path. cbv zeta.
  split; [| split; [| split]].
  - destruct (fs w !! checkpoint_file) as [f |] eqn:E1.
    + rewrite E1. destruct (json_load f ≫= ExportState.from_dict); reflexivity.
    + destruct (fs w !! path_join _ _) as [f |]; [| reflexivity].
      destruct (json_load f ≫= ExportState.from_dict); reflexivity.
  - intros H1 H2. rewrite H1, H2. split; reflexivity.
  - intros H1. rewrite H1, H1. split; reflexivity.
  - intros st w0 H1. rewrite H1, H1. split; reflexivity.
Qed.

Lemma from_dict_missing_required (kv : list (string * JSON)) (k : string) :
  k ∈ ExportState.required_fields ->
  obj_get k kv = None ->
  ExportState.from_dict (JObj kv) = None.
Proof.
  intros Hk Hget. unfold ExportState.from_dict.
  destruct (forallb _ kv); [| reflexivity].
  unfold ExportState.required_fields in Hk. unfold ExportState.required.
  repeat (apply elem_of_cons in Hk as [-> | Hk]);
    [.. | apply elem_of_nil in Hk; destruct Hk];
    rewrite Hget;
    repeat (first [reflexivity
                  | match goal with
                    | |- context [obj_get ?f kv ≫= ?read] =>
                        destruct (obj_get f kv ≫= read); simpl
                    end]).
Qed.

Lemma from_dict_unknown_field (kv : list (string * JSON)) (k : string) (v : JSON) :
  (k, v) ∈ kv ->
  k ∉ ExportState.field_names ->
  ExportState.from_dict (JObj kv) = None.
Proof.
  intros Hin Hk. unfold ExportState.from_dict.
  destruct (forallb _ kv) eqn:E; [| reflexivity].
  exfalso. apply Hk.
  rewrite forallb_forall in E.
  specialize (E (k, v) (proj1 (list_elem_of_In _ _) Hin)).
  apply bool_decide_eq_true in E. exact E.
Qed.

(** X28. Serializing a state and reading the document back gives the same
    state, field for field, the two ID sets included. A value that is not
    an object is refused, and so is every object that lacks one of the ten
    fields without a default or has a member that is no field of the
    dataclass (the constructor's TypeError); the seven other fields may be
    left out and then take their defaults. *)
Theorem checkpoint_document_round_trip st :
  ExportState.from_dict (ExportState.to_dict st) = Some st
  /\ (forall data : JSON,
        (forall kv, data <> JObj kv) -> ExportState.from_dict data = None)
  /\ (forall (kv : list (string * JSON)) (k : string),
        k ∈ ExportState.required_fields ->
        obj_get k kv = None ->
        ExportState.from_dict (JObj kv) = None)
  /\ (forall (kv : list (string * JSON)) (k : string) (v : JSON),
        (k, v) ∈ kv ->
        k ∉ ExportState.field_names ->
        ExportState.from_dict (JObj kv) = None)
  /\ (forall members : list (string * JSON),
        ExportState.to_dict st = JObj members ->
        ExportState.from_dict (JObj (take 10 members))
        = Some (ExportState.mk
                  (ExportState.export_id st) (ExportState.label st)
                  (ExportState.export_date st) (ExportState.started_at st)
                  (ExportState.last_updated st) (ExportState.profile st)
                  (ExportState.confluence_spaces_completed st)
                  (ExportState.confluence_pages_exported st)
                  (ExportState.jira_projects_completed st)
                  (ExportState.jira_issues_exported st)
                  None None None 0 0 0 [])).
Proof.
  split; [apply from_dict_to_dict |].
  split; [intros [| | | | | | kv] Hno; try reflexivity;
          exfalso; exact (Hno kv eq_refl) |].
  split; [exact from_dict_missing_required |].
  split; [exact from_dict_unknown_field |].
  intros members [= <-].
  pose proof (from_dict_to_dict st) as Hfull.
  pose proof (from_dict_to_dict
                (ExportState.mk
                   (ExportState.export_id st) (ExportState.label st)
                   (ExportState.export_date st) (ExportState.started_at st)
                   (ExportState.last_updated st) (ExportState.profile st)
                   (ExportState.confluence_spaces_completed st)
                   (ExportState.confluence_pages_exported st)
                   (ExportState.jira_projects_completed st)
                   (ExportState.jira_issues_exported st)
                   None None None 0 0 0 [])) as Hdef.
  unfold ExportState.from_dict, ExportState.to_dict in Hdef |- *.
  cbn [take]. cbn in Hdef |- *.
  exact Hdef.
Qed.

Lemma mod_succ (c i : Z) :
  0 < i -> (c + 1) mod i <> 0 -> (c + 1) mod i = c mod i + 1.
Proof.
  intros Hi Hnz.
  pose proof (Z.mod_pos_bound c i Hi) as Hr.
  pose proof (Z.div_mod c i ltac:(lia)) as Hc.
  destruct (Z.eq_dec (c mod i + 1) i) as [Heq | Hneq].
  - exfalso. apply Hnz.
    replace (c + 1) with ((c / i + 1) * i) by lia.
    apply Z.mod_mul. lia.
  - symmetry. apply (Z.mod_unique _ _ (c / i)); lia.
Qed.

Lemma size_add_one (x : string) (A B : gset string) :
  (size (({[x]} ∪ A) ∖ B) <= S (size (A ∖ B)))%nat.
Proof.
  transitivity (size ({[x]} ∪ (A ∖ B) : gset string)).
  - apply subseteq_size. intros y.
    rewrite elem_of_difference, !elem_of_union, elem_of_difference. tauto.
  - rewrite size_union_alt, size_singleton.
    assert (Hsub : (A ∖ B) ∖ {[x]} ⊆ A ∖ B).
    { intros y. rewrite elem_of_difference. tauto. }
    apply subseteq_size in Hsub. lia.
Qed.

Lemma unsaved_self st : unsaved_items st st = 0%nat.
Proof.
  unfold unsaved_items. rewrite !difference_diag_L, !size_empty. reflexivity.
Qed.

(** The two outcomes of an unforced save with an export under way. *)
Lemma unforced_save_skipped m w st (ckpt : string) :
  current_state m = Some st ->
  checkpoint_file m = Some ckpt ->
  0 < checkpoint_interval m ->
  (save_counter m + 1) mod checkpoint_interval m <> 0 ->
  save_checkpoint isoformat false m w
  = (Return tt, set_save_counter (save_counter m + 1) m, w).
Proof.
  intros Hst Hfile Hi Hnz. unfold save_checkpoint. rewrite Hst, Hfile.
  cbn [checkpoint_interval set_save_counter save_counter].
  replace (checkpoint_interval m =? 0) with false
    by (symmetry; apply Z.eqb_neq; lia).
  replace ((save_counter m + 1) mod checkpoint_interval m =? 0) with false
    by (symmetry; apply Z.eqb_neq; exact Hnz).
  reflexivity.
Qed.

Lemma unforced_save_written m w st (ckpt tmp : string) :
  current_state m = Some st ->
  checkpoint_file m = Some ckpt ->
  with_suffix ckpt ".tmp" = Some tmp ->
  0 < checkpoint_interval m ->
  (save_counter m + 1) mod checkpoint_interval m = 0 ->
  let st' := set_last_updated (isoformat (clock w)) st in
  save_checkpoint isoformat false m w
  = (Return tt,
     mk (checkpoint_dir m) (Some st') (Some ckpt) (save_counter m + 1)
        (checkpoint_interval m),
     set_fs (fs_run (write_checkpoint_ops tmp ckpt st') (fs w)) w).
Proof.
  intros Hst Hfile Htmp Hi Hz. unfold save_checkpoint. rewrite Hst, Hfile.
  cbn [checkpoint_interval set_save_counter save_counter].
  replace (checkpoint_interval m =? 0) with false
    by (symmetry; apply Z.eqb_neq; lia).
  rewrite Hz. cbn [Z.eqb negb]. rewrite Htmp.
  unfold set_current_state, set_save_counter; simpl. rewrite Hfile.
  reflexivity.
Qed.

(** One report keeps the bound. *)
Lemma report_keeps_loss_bounded (p : progress) m w :
  0 < checkpoint_interval m ->
  loss_bounded m w ->
  loss_bounded (snd (fst (report isoformat p m w))) (snd (report isoformat p m w))
  /\ checkpoint_interval (snd (fst (report isoformat p m w)))
     = checkpoint_interval m.
Proof.
  intros Hi (st & saved & ckpt & tmp & Hst & Hfile & Htmp & Hdisk & Hbound).
  assert (Hstep : forall st1 : ExportState.t,
             (unsaved_items st1 saved <= S (unsaved_items st saved))%nat ->
             let r := save_checkpoint isoformat false
                        (set_current_state (Some st1) m) w in
             loss_bounded (snd (fst r)) (snd r)
             /\ checkpoint_interval (snd (fst r)) = checkpoint_interval m).
  { intros st1 Hone.
    set (m1 := set_current_state (Some st1) m).
    destruct (Z.eq_dec ((save_counter m1 + 1) mod checkpoint_interval m1) 0)
      as [Hzero | Hnz].
    - cbv zeta.
      rewrite (unforced_save_written m1 w st1 ckpt tmp eq_refl Hfile Htmp Hi Hzero).
      cbn [fst snd]. split; [| reflexivity].
      exists (set_last_updated (isoformat (clock w)) st1),
             (set_last_updated (isoformat (clock w)) st1), ckpt, tmp.
      split; [reflexivity |]. split; [reflexivity |]. split; [exact Htmp |].
      split; [cbn [fs set_fs]; apply write_checkpoint_lookup |].
      rewrite unsaved_self. cbn [save_counter checkpoint_interval].
      rewrite Hzero. simpl. lia.
    - cbv zeta.
      rewrite (unforced_save_skipped m1 w st1 ckpt eq_refl Hfile Hi Hnz).
      cbn [fst snd]. split; [| reflexivity].
      exists st1, saved, ckpt, tmp.
      split; [reflexivity |]. split; [exact Hfile |]. split; [exact Htmp |].
      split; [exact Hdisk |].
      cbn [save_counter checkpoint_interval set_save_counter].
      rewrite (mod_succ (save_counter m1) (checkpoint_interval m1) Hi Hnz).
      change (save_counter m1) with (save_counter m).
      change (checkpoint_interval m1) with (checkpoint_interval m). lia. }
  destruct p as [space_key page_id | project_key issue_key];
    unfold report, update_confluence_progress, update_jira_progress, with_state;
    rewrite Hst; apply Hstep; unfold unsaved_items; simpl.
  - pose proof (size_add_one page_id (ExportState.confluence_pages_exported st)
                  (ExportState.confluence_pages_exported saved)). lia.
  - pose proof (size_add_one issue_key (ExportState.jira_issues_exported st)
                  (ExportState.jira_issues_exported saved)). lia.
Qed.

(** X29. Bounded loss. Once the checkpoint file holds a document and the
    items missing from it are no more than the counter's remainder modulo
    the interval (as after any forced save), every run of progress reports
    keeps it so: the file always holds a complete checkpoint, and fewer
    than [checkpoint_interval] exported items are missing from it. *)
Theorem progress_reports_lose_less_than_an_interval (ps : list progress) :
  forall m w,
    0 < checkpoint_interval m ->
    loss_bounded m w ->
    let m' := fst (report_all isoformat ps m w) in
    let w' := snd (report_all isoformat ps m w) in
    exists (st saved : ExportState.t) (ckpt : string),
      current_state m' = Some st
      /\ checkpoint_file m' = Some ckpt
      /\ fs w' !! ckpt = Some (Doc (ExportState.to_dict saved))
      /\ Z.of_nat (unsaved_items st saved) < checkpoint_interval m.
Proof.
  induction ps as [| p rest IH]; intros m w Hi Hinv.
  - simpl. destruct Hinv as (st & saved & ckpt & tmp & H1 & H2 & _ & H4 & H5).
    exists st, saved, ckpt. repeat split; try assumption.
    pose proof (Z.mod_pos_bound (save_counter m) (checkpoint_interval m) Hi). lia.
  - destruct (report_keeps_loss_bounded p m w Hi Hinv) as [Hinv' Hi'].
    simpl. destruct (report isoformat p m w) as [[o m1] w1].
    cbn [fst snd] in Hinv', Hi'.
    rewrite <- Hi'. apply IH; [rewrite Hi'; exact Hi | exact Hinv'].
Qed.

End CheckpointLifecycle.

Section CheckpointBehaviourExamples.
Import CheckpointManager Examples.

(** The example export: started, one page reported, its space marked
    complete (a forced save, so the checkpoint is on disk). *)
Let started :=
  start_new_export isoformat md5_hexdigest "release" "2023-11-14" "balanced"
    (init checkpoint_dir) world_at_start.
Let progressed :=
  update_confluence_progress isoformat "DOCS" "12345"
    (snd (fst started)) (snd started).
Let completed_space :=
  mark_confluence_space_complete isoformat "DOCS"
    (snd (fst progressed)) (snd progressed).
Let ckpt : string := path_join checkpoint_dir checkpoint_name.
Let tmp : string := ".checkpoints/checkpoint_1ab6a92fc910.tmp".
Let marker : string := ".checkpoints/checkpoint_1ab6a92fc910.complete".

Lemma checkpoint_write_is_all_or_nothing_witness :
  let d' := fs_run [OpenW tmp; DumpClose tmp (ExportState.to_dict exported_state)]
              (fs (snd completed_space)) in
  d' !! ckpt = fs (snd completed_space) !! ckpt
  \/ d' !! ckpt = Some (Doc (ExportState.to_dict exported_state)).
Proof.
  intros d'.
  apply (checkpoint_write_is_all_or_nothing tmp ckpt exported_state
           (fs (snd completed_space)) d').
  - discriminate.
  - apply list_elem_of_further, list_elem_of_further, list_elem_of_here.
Defined.

Lemma completed_group_survives_restart_witness :
  let r := mark_confluence_space_complete isoformat "DOCS"
             (snd (fst progressed)) (snd progressed) in
  let res := resume_export ckpt (init checkpoint_dir) (snd r) in
  fst (fst r) = Return tt
  /\ is_Some (current_state (snd (fst r)))
  /\ fst (fst res) = current_state (snd (fst r))
  /\ is_confluence_space_complete "DOCS" (snd (fst res)) = true.
Proof.
  destruct (completed_group_survives_restart isoformat
              (snd (fst progressed)) (snd progressed)
              (ExportStateUpdate.confluence_progress "DOCS" "12345"
                 (ExportState.mk "1ab6a92fc910" "release" "2023-11-14"
                    "2023-11-14T22:13:20" "2023-11-14T22:13:20" "balanced"
                    [] ∅ [] ∅ None None None 0 0 0 []))
              ckpt tmp "DOCS") as [H _].
  - vm_compute. reflexivity.
  - vm_compute. reflexivity.
  - vm_compute. reflexivity.
  - exact (H (init checkpoint_dir)).
Defined.

Lemma recorded_error_survives_restart_witness :
  let m := snd (fst completed_space) in
  let w := snd completed_space in
  let r := record_error isoformat "HTTPError" "503" JNull m w in
  exists st' : ExportState.t,
    fst (fst r) = Return tt
    /\ current_state (snd (fst r)) = Some st'
    /\ fst (fst (resume_export ckpt (init checkpoint_dir) (snd r))) = Some st'
    /\ ExportState.errors_encountered st'
       = ExportState.errors_encountered exported_state
         ++ [JObj [("timestamp", JStr (isoformat (clock w)));
                   ("type", JStr "HTTPError");
                   ("message", JStr "503");
                   ("context", JNull)]%string].
Proof.
  intros m w.
  apply (recorded_error_survives_restart isoformat m w exported_state ckpt tmp
           "HTTPError" "503" JNull).
  - vm_compute. reflexivity.
  - vm_compute. reflexivity.
  - vm_compute. reflexivity.
Defined.

Lemma reported_item_is_exported_witness :
  is_confluence_page_exported "67890"
    (snd (fst (update_confluence_progress isoformat "DOCS" "67890"
                 (snd (fst completed_space)) (snd completed_space)))) = true.
Proof.
  destruct (reported_item_is_exported isoformat
              (snd (fst completed_space)) (snd completed_space)
              exported_state "DOCS" "67890") as [[H _] _].
  - vm_compute. reflexivity.
  - exact H.
Defined.

Lemma completed_groups_are_listed_once_witness :
  exists st' : ExportState.t,
    current_state
      (snd (fst (mark_confluence_space_complete isoformat "DOCS"
                   (snd (fst completed_space)) (snd completed_space))))
    = Some st'
    /\ NoDup (ExportState.confluence_spaces_completed st')
    /\ ("DOCS"%string ∈ ExportState.confluence_spaces_completed exported_state ->
        ExportState.confluence_spaces_completed st'
        = ExportState.confluence_spaces_completed exported_state)
    /\ ("DOCS"%string ∉ ExportState.confluence_spaces_completed exported_state ->
        ExportState.confluence_spaces_completed st'
        = ExportState.confluence_spaces_completed exported_state ++ ["DOCS"%string])
    /\ ExportState.confluence_pages_exported st'
       = ExportState.confluence_pages_exported exported_state.
Proof.
  apply (completed_groups_are_listed_once isoformat
           (snd (fst completed_space)) (snd completed_space) exported_state "DOCS").
  - vm_compute. reflexivity.
  - simpl. apply NoDup_singleton.
Defined.

Lemma complete_export_writes_marker_and_final_checkpoint_witness :
  let m := snd (fst completed_space) in
  let w := snd completed_space in
  let r := complete_export isoformat m w in
  let final :=
    ExportStateUpdate.set_last_updated (isoformat (clock w))
      (ExportStateUpdate.set_current_operation None exported_state) in
  fst (fst r) = Return tt
  /\ current_state (snd (fst r)) = Some final
  /\ fs (snd r) !! marker = Some (Doc (completion_data isoformat final w))
  /\ fs (snd r) !! ckpt = Some (Doc (ExportState.to_dict final))
  /\ (forall m0 : t, fst (fst (resume_export ckpt m0 (snd r))) = Some final).
Proof.
  intros m w.
  apply (complete_export_writes_marker_and_final_checkpoint isoformat m w
           exported_state ckpt tmp marker).
  - vm_compute. reflexivity.
  - vm_compute. reflexivity.
  - vm_compute. reflexivity.
  - vm_compute. reflexivity.
  - discriminate.
Defined.

Lemma progress_reports_lose_less_than_an_interval_witness :
  let m := snd (fst completed_space) in
  let w := snd completed_space in
  let ps := [ConfluencePage "DOCS" "1"; ConfluencePage "DOCS" "2";
             JiraIssue "OPS" "OPS-1"; ConfluencePage "DOCS" "3";
             JiraIssue "OPS" "OPS-2"; ConfluencePage "DOCS" "4";
             ConfluencePage "DOCS" "5"; JiraIssue "OPS" "OPS-3";
             ConfluencePage "DOCS" "6"]%string in
  let m' := fst (report_all isoformat ps m w) in
  let w' := snd (report_all isoformat ps m w) in
  exists (st saved : ExportState.t) (path : string),
    current_state m' = Some st
    /\ checkpoint_file m' = Some path
    /\ fs w' !! path = Some (Doc (ExportState.to_dict saved))
    /\ Z.of_nat (unsaved_items st saved) < checkpoint_interval m.
Proof.
  intros m w ps.
  apply (progress_reports_lose_less_than_an_interval isoformat ps m w).
  - vm_compute. reflexivity.
  - exists exported_state, exported_state, ckpt, tmp.
    split; [vm_compute; reflexivity |]. split; [vm_compute; reflexivity |].
    split; [vm_compute; reflexivity |]. split; [vm_compute; reflexivity |].
    vm_compute. discriminate.
Defined.

Lemma resume_export_fails_without_damage_witness :
  let m := snd (fst completed_space) in
  let w := snd completed_space in
  (fst (fst (resume_export "checkpoint_000000000000.json" m w)) = None
   /\ snd (fst (resume_export "checkpoint_000000000000.json" m w)) = m)
  /\ snd (resume_export "checkpoint_000000000000.json" m w) = w.
Proof.
  intros m w.
  destruct (resume_export_fails_without_damage isoformat
              "checkpoint_000000000000.json" m w) as (Hw & Hmissing & _).
  split; [| exact Hw].
  apply Hmissing; vm_compute; reflexivity.
Defined.

End CheckpointBehaviourExamples.

Section LatestCheckpoint.
Import CheckpointManager.

Lemma ascii_compare_lt_trans (a b c : ascii) :
  Ascii.compare a b = Lt -> Ascii.compare b c = Lt -> Ascii.compare a c = Lt.
Proof.
  unfold Ascii.compare. rewrite !N.compare_lt_iff. lia.
Qed.

Lemma string_compare_lt_trans (a : string) :
  forall b c : string,
    String.compare a b = Lt -> String.compare b c = Lt -> String.compare a c = Lt.
Proof.
  induction a as [| x a IH]; intros [| y b] [| z c]; simpl; try congruence.
  destruct (Ascii.compare x y) eqn:Exy; try discriminate.
  - apply Ascii.compare_eq_iff in Exy. subst y.
    destruct (Ascii.compare x z); try congruence. apply IH.
  - intros _. destruct (Ascii.compare y z) eqn:Eyz; try discriminate.
    + apply Ascii.compare_eq_iff in Eyz. subst z. rewrite Exy. reflexivity.
    + intros _. rewrite (ascii_compare_lt_trans x y z Exy Eyz). reflexivity.
Qed.

Lemma ltb_asym (a b : string) :
  String.ltb a b = true -> String.ltb b a = false.
Proof.
  unfold String.ltb. rewrite (String.compare_antisym a b).
  destruct (String.compare b a); simpl; congruence.
Qed.

Lemma ltb_irrefl (a : string) : String.ltb a a = false.
Proof.
  destruct (String.ltb a a) eqn:E; [| reflexivity].
  pose proof (ltb_asym a a E). congruence.
Qed.

(** Not earlier than, followed by earlier than. *)
Lemma ltb_false_trans (a b c : string) :
  String.ltb a b = false -> String.ltb a c = true -> String.ltb b c = true.
Proof.
  unfold String.ltb. intros Hab Hac.
  destruct (String.compare a b) eqn:E1; try discriminate.
  - apply String.compare_eq_iff in E1. subst b. exact Hac.
  - assert (E2 : String.compare b a = Lt).
    { rewrite String.compare_antisym, E1. reflexivity. }
    destruct (String.compare a c) eqn:E3; try discriminate.
    rewrite (string_compare_lt_trans b a c E2 E3). reflexivity.
Qed.

Lemma insert_desc_elem (x : string * JSON) (l : list (string * JSON)) y :
  y ∈ insert_desc x l <-> y = x \/ y ∈ l.
Proof.
  induction l as [| z l IH]; simpl.
  - rewrite list_elem_of_singleton, elem_of_nil. tauto.
  - destruct (String.ltb _ _).
    + rewrite !elem_of_cons, IH. tauto.
    + rewrite !elem_of_cons. tauto.
Qed.

Lemma sort_desc_elem (l : list (string * JSON)) y :
  y ∈ sort_desc l <-> y ∈ l.
Proof.
  induction l as [| x l IH]; simpl; [reflexivity |].
  rewrite insert_desc_elem, elem_of_cons, IH. reflexivity.
Qed.

(** The head of the sorted list: an entry no other entry is later than. *)
Lemma head_sort_desc (l : list (string * JSON)) :
  l <> [] ->
  exists r, head (sort_desc l) = Some r
    /\ r ∈ l
    /\ (forall c, c ∈ l -> String.ltb (str_of (snd r)) (str_of (snd c)) = false).
Proof.
  induction l as [| x l IH]; [congruence |]. intros _.
  destruct l as [| y l].
  - exists x. simpl. split; [reflexivity |]. split; [left |].
    intros c Hc. apply list_elem_of_singleton in Hc. subst c.
    apply ltb_irrefl.
  - destruct (IH ltac:(congruence)) as (r & Hhead & Hin & Hmax).
    change (sort_desc (x :: y :: l)) with (insert_desc x (sort_desc (y :: l))).
    destruct (sort_desc (y :: l)) as [| h t] eqn:Es; [simpl in Hhead; discriminate |].
    simpl in Hhead. injection Hhead as ->.
    simpl. destruct (String.ltb (str_of (snd x)) (str_of (snd r))) eqn:Exr.
    + exists r. split; [reflexivity |]. split; [right; exact Hin |].
      intros c Hc. apply elem_of_cons in Hc as [-> | Hc].
      * apply ltb_asym. exact Exr.
      * apply Hmax. exact Hc.
    + exists x. split; [reflexivity |]. split; [left |].
      intros c Hc. apply elem_of_cons in Hc as [-> | Hc].
      * apply ltb_irrefl.
      * destruct (String.ltb (str_of (snd x)) (str_of (snd c))) eqn:Exc;
          [| reflexivity].
        pose proof (ltb_false_trans _ _ _ Exr Exc) as Hrc.
        rewrite (Hmax c Hc) in Hrc. discriminate.
Qed.

Lemma checkpoint_entry_spec (label : string) (w : World) (p : string) c :
  checkpoint_entry label w p = Some c
  <-> exists data, holds_label label w p data /\ c = (p, last_updated_of data).
Proof.
  unfold checkpoint_entry, holds_label. split.
  - destruct (fs w !! p) as [[[| ? | ? | ? | ? | ? | data] |] |];
      try discriminate.
    destruct (obj_get "label" data) as [[| ? | ? | ? | l | ? | ?] |] eqn:Eg;
      try discriminate.
    destruct (String.eqb l label) eqn:El; [| discriminate].
    apply String.eqb_eq in El. subst l.
    intros [= <-]. exists data. repeat split. exact Eg.
  - intros (data & [-> ->] & ->). rewrite String.eqb_refl. reflexivity.
Qed.

Lemma find_latest_of_strings (label : string) (listing : list string) (w : World) :
  let checkpoints := omap (checkpoint_entry label w) listing in
  forallb (fun c => is_str (snd c)) checkpoints = true ->
  find_latest_checkpoint label listing w
  = Some (fst <$> head (sort_desc checkpoints)).
Proof.
  intros checkpoints Hstr. unfold find_latest_checkpoint.
  fold checkpoints. destruct checkpoints as [| c [| c' cs]]; try reflexivity.
  rewrite Hstr. reflexivity.
Qed.

(** X30. Among the listed files, [find_latest_checkpoint] answers with a
    checkpoint of the label asked for that no other checkpoint of that
    label was updated after, and with [None] exactly when the label has no
    readable checkpoint; files that are missing, do not parse or carry
    another label are passed over. The [last_updated] of the label's
    checkpoints are taken to be strings, as [save_checkpoint] writes
    them. *)
Theorem find_latest_checkpoint_answers_a_newest_of_the_label
    (label : string) (listing : list string) (w : World) :
  (forall p data,
      p ∈ listing -> holds_label label w p data ->
      is_str (last_updated_of data) = true) ->
  exists r : option string,
    find_latest_checkpoint label listing w = Some r
    /\ (r = None <->
        forall p data, p ∈ listing -> ~ holds_label label w p data)
    /\ (forall p, r = Some p ->
          p ∈ listing
          /\ exists data,
               holds_label label w p data
               /\ forall p' data',
                    p' ∈ listing -> holds_label label w p' data' ->
                    String.ltb (str_of (last_updated_of data))
                      (str_of (last_updated_of data')) = false).
Proof.
  intros Hstr.
  set (checkpoints := omap (checkpoint_entry label w) listing).
  assert (Hin : forall c, c ∈ checkpoints <->
            exists p data, p ∈ listing /\ holds_label label w p data
                           /\ c = (p, last_updated_of data)).
  { intros c. unfold checkpoints. rewrite list_elem_of_omap. split.
    - intros (p & Hp & Hc). apply checkpoint_entry_spec in Hc as (data & H1 & H2).
      exists p, data. auto.
    - intros (p & data & Hp & H1 & H2). exists p. split; [exact Hp |].
      apply checkpoint_entry_spec. exists data. auto. }
  assert (Hall : forallb (fun c => is_str (snd c)) checkpoints = true).
  { apply forallb_forall. intros c Hc. apply list_elem_of_In, Hin in Hc.
    destruct Hc as (p & data & Hp & Hl & ->). simpl. exact (Hstr p data Hp Hl). }
  rewrite (find_latest_of_strings label listing w Hall). fold checkpoints.
  eexists. split; [reflexivity |].
  destruct checkpoints as [| c0 cs] eqn:Ecs.
  - simpl. split; [split; [| reflexivity] | discriminate].
    intros _ p data Hp Hl.
    assert (Hc : (p, last_updated_of data) ∈ @nil (string * JSON))
      by (apply Hin; eauto).
    apply elem_of_nil in Hc. exact Hc.
  - destruct (head_sort_desc (c0 :: cs) ltac:(discriminate))
      as (r & Hhead & Hr & Hmax).
    rewrite Hhead. simpl. split.
    + split; [discriminate |]. intros Hnone. exfalso.
      destruct (proj1 (Hin c0) ltac:(left)) as (p & data & Hp & Hl & _).
      exact (Hnone p data Hp Hl).
    + intros p [= <-].
      destruct (proj1 (Hin r) Hr) as (p & data & Hp & Hl & ->). simpl.
      split; [exact Hp |]. exists data. split; [exact Hl |].
      intros p' data' Hp' Hl'.
      apply (Hmax (p', last_updated_of data')).
      apply Hin. eauto.
Qed.

End LatestCheckpoint.

Section LatestCheckpointExamples.
Import CheckpointManager Examples.

(** A checkpoint directory with two checkpoints of the label "release",
    one of another label, and a file cut short by a crash. *)
Let older : string := ".checkpoints/checkpoint_1ab6a92fc910.json".
Let newer : string := ".checkpoints/checkpoint_77de68daecd8.json".
Let nightly : string := ".checkpoints/checkpoint_0cc175b9c0f1.json".
Let torn : string := ".checkpoints/checkpoint_92eb5ffee6ae.json".
Let resumed_state : ExportState.t :=
  ExportStateUpdate.set_last_updated "2023-11-15T08:30:00" exported_state.
Let disk : gmap string file :=
  {[ older := Doc (ExportState.to_dict exported_state);
     newer := Doc (ExportState.to_dict resumed_state);
     nightly :=
       Doc (ExportState.to_dict
              (ExportState.mk "0cc175b9c0f1" "nightly" "2023-11-16"
                 "2023-11-16T01:00:00" "2023-11-16T01:00:00" "fast"
                 [] ∅ [] ∅ None None None 0 0 0 []));
     torn := Torn ]}.

Lemma find_latest_checkpoint_answers_a_newest_of_the_label_witness :
  let w := set_fs disk world_at_start in
  let listing := [torn; older; nightly; newer] in
  exists r : option string,
    find_latest_checkpoint "release" listing w = Some r
    /\ (r = None <->
        forall p data, p ∈ listing -> ~ holds_label "release" w p data)
    /\ (forall p, r = Some p ->
          p ∈ listing
          /\ exists data,
               holds_label "release" w p data
               /\ forall p' data',
                    p' ∈ listing -> holds_label "release" w p' data' ->
                    String.ltb (str_of (last_updated_of data))
                      (str_of (last_updated_of data')) = false).
Proof.
  intros w listing.
  apply (find_latest_checkpoint_answers_a_newest_of_the_label "release" listing w).
  intros p data Hp [Hf Hl].
  repeat (apply elem_of_cons in Hp as [-> | Hp]);
    [..| apply elem_of_nil in Hp; destruct Hp];
    vm_compute in Hf; try discriminate Hf;
    injection Hf as <-; try (vm_compute in Hl; discriminate Hl);
    vm_compute; reflexivity.
Defined.

End LatestCheckpointExamples.
